(** * GhostDB: a shallow embedding of the index subsystem and the query path

    The development follows the JavaScript sources:
    - [hash-index.js]        (Robin Hood hash index, per-bucket locks)
    - [sharded-hash-index.js]
    - [btree-index.js]       (B+ tree, nodes linked by [next] and [parent])
    - [index-manager.js], [query-engine.js], [cache.js], [memory-engine.js]
    - [core/database.js]     (the [GhostDB] facade)

    Execution model.  The sources are [async] functions run by one
    JavaScript task at a time.  An operation is modelled as a state
    transformer whose outcome is one of: it returned, it threw, or it is
    suspended for ever on a lock that its own task holds.  Loops of the form
    [while (true)] take a fuel argument. *)

From Stdlib Require Import ZArith List String Ascii Bool Lia Sorted Permutation.
From stdpp Require Import base option list.
Import ListNotations.

Local Open Scope string_scope.
Local Open Scope list_scope.
Local Open Scope Z_scope.
Set Warnings "-register-all".

(** ** Outcomes of an operation over a state [S] *)

Inductive run (S A : Type) : Type :=
| Done (a : A) (s : S)      (* the promise resolved with [a] *)
| Threw (msg : string) (s : S) (* the promise rejected / an exception escaped *)
| Blocked (s : S)           (* awaiting a lock that is never released *)
| OutOfFuel.                  (* the model ran out of fuel *)

Arguments Done {S A} a s.
Arguments Threw {S A} msg s.
Arguments Blocked {S A} s.
Arguments OutOfFuel {S A}.

Definition rbind {S A B} (m : run S A) (k : A -> S -> run S B) : run S B :=
  match m with
  | Done a s => k a s
  | Threw e s => Threw e s
  | Blocked s => Blocked s
  | OutOfFuel => OutOfFuel
  end.

Notation "'let*' ( x , s ) := m 'in' k" :=
  (rbind m (fun x s => k))
  (at level 10, x name, s name, m at level 100, k at level 200).

(** The state an operation leaves behind when nobody awaits it. *)
Definition settled {S A} (fallback : S) (m : run S A) : S :=
  match m with
  | Done _ s | Threw _ s | Blocked s => s
  | OutOfFuel => fallback
  end.

(** ** JavaScript values *)

Module JS.

(** Numbers are the integers; strings are sequences of code units below 256.
    Objects keep their keys in insertion order. *)
Inductive jsv : Type :=
| VUndefined
| VNull
| VBool (b : bool)
| VNum (n : Z)
| VStr (s : string)
| VArr (xs : list jsv)
| VObj (kvs : list (string * jsv)).

Definition is_primitive (v : jsv) : bool :=
  match v with
  | VArr _ | VObj _ => false
  | _ => true
  end.

(** [a === b].  Two compound values are equal only when they are the same
    reference; the model has no references and answers [false] there. *)
Definition strict_eq (a b : jsv) : bool :=
  match a, b with
  | VUndefined, VUndefined => true
  | VNull, VNull => true
  | VBool x, VBool y => Bool.eqb x y
  | VNum x, VNum y => x =? y
  | VStr x, VStr y => String.eqb x y
  | _, _ => false
  end.

(** Truthiness, as tested by [if (x)]. *)
Definition truthy (v : jsv) : bool :=
  match v with
  | VUndefined | VNull => false
  | VBool b => b
  | VNum n => negb (n =? 0)
  | VStr s => negb (String.eqb s EmptyString)
  | VArr _ | VObj _ => true
  end.

(** [typeof v === 'object'] (true of [null] as well). *)
Definition typeof_object (v : jsv) : bool :=
  match v with
  | VNull | VArr _ | VObj _ => true
  | _ => false
  end.

(** Property read [o[k]]: [undefined] when absent or when [o] has no such
    property. *)
Fixpoint assoc (k : string) (kvs : list (string * jsv)) : option jsv :=
  match kvs with
  | [] => None
  | (k', v) :: rest => if String.eqb k' k then Some v else assoc k rest
  end.

Definition prop (o : jsv) (k : string) : jsv :=
  match o with
  | VObj kvs => match assoc k kvs with Some v => v | None => VUndefined end
  | _ => VUndefined
  end.

(** Decimal rendering of an integer, as [String(n)] gives it below 10^21. *)
Fixpoint digits (fuel : nat) (n : Z) (acc : string) : string :=
  match fuel with
  | O => acc
  | S f =>
      let acc' := String (ascii_of_nat (48 + Z.to_nat (n mod 10))) acc in
      if n / 10 =? 0 then acc' else digits f (n / 10) acc'
  end.

Definition Z_to_string (n : Z) : string :=
  if n <? 0 then String.append "-" (digits (S (Z.to_nat (Z.log2 (- n)))) (- n) EmptyString)
  else digits (S (Z.to_nat (Z.log2 n))) n EmptyString.

Fixpoint join (sep : string) (parts : list string) : string :=
  match parts with
  | [] => EmptyString
  | [p] => p
  | p :: rest => String.append p (String.append sep (join sep rest))
  end.

(** [String(v)]. *)
Fixpoint to_string (v : jsv) : string :=
  match v with
  | VUndefined => "undefined"
  | VNull => "null"
  | VBool true => "true"
  | VBool false => "false"
  | VNum n => Z_to_string n
  | VStr s => s
  | VArr xs =>
      join "," (List.map (fun x => match x with
                                   | VUndefined | VNull => EmptyString
                                   | _ => to_string x
                                   end) xs)
  | VObj _ => "[object Object]"
  end.

(** [StringToNumber] on the decimal integer literals; [None] is [NaN].
    Literals that denote no integer (fractions, exponents) and the other
    spellings of integers (hexadecimal, surrounding white space) are
    outside the integers this development works with. *)
Definition digit_val (c : ascii) : option Z :=
  let n := Z.of_nat (nat_of_ascii c) in
  if (48 <=? n) && (n <=? 57) then Some (n - 48) else None.

Fixpoint parse_digits (s : string) (acc : Z) : option Z :=
  match s with
  | EmptyString => Some acc
  | String c rest =>
      match digit_val c with
      | Some d => parse_digits rest (10 * acc + d)
      | None => None
      end
  end.

Definition string_to_number (s : string) : option Z :=
  match s with
  | EmptyString => Some 0
  | String "-"%char (String c rest) => option_map Z.opp (parse_digits (String c rest) 0)
  | String "+"%char (String c rest) => parse_digits (String c rest) 0
  | _ => parse_digits s 0
  end.

(** [ToNumber(v)] for the primitives; compound operands are first turned
    into strings by [ToPrimitive]. *)
Definition to_number (v : jsv) : option Z :=
  match v with
  | VUndefined => None
  | VNull => Some 0
  | VBool b => Some (if b then 1 else 0)
  | VNum n => Some n
  | VStr s => string_to_number s
  | VArr _ | VObj _ => string_to_number (to_string v)
  end.

Definition to_primitive (v : jsv) : jsv :=
  match v with
  | VArr _ | VObj _ => VStr (to_string v)
  | _ => v
  end.

Fixpoint string_ltb (a b : string) : bool :=
  match a, b with
  | EmptyString, EmptyString => false
  | EmptyString, String _ _ => true
  | String _ _, EmptyString => false
  | String x a', String y b' =>
      let nx := nat_of_ascii x in
      let ny := nat_of_ascii y in
      if (nx <? ny)%nat then true
      else if (ny <? nx)%nat then false
      else string_ltb a' b'
  end.

(** [a < b]: strings compare by code units, everything else as numbers, and
    any comparison with [NaN] is [false]. *)
Definition lt (a b : jsv) : bool :=
  match to_primitive a, to_primitive b with
  | VStr x, VStr y => string_ltb x y
  | pa, pb =>
      match to_number pa, to_number pb with
      | Some x, Some y => x <? y
      | _, _ => false
      end
  end.

Definition gt (a b : jsv) : bool := lt b a.

(** [a <= b] is [!(b < a)] except that an undefined comparison is [false]. *)
Definition le (a b : jsv) : bool :=
  match to_primitive a, to_primitive b with
  | VStr x, VStr y => negb (string_ltb y x)
  | pa, pb =>
      match to_number pa, to_number pb with
      | Some x, Some y => x <=? y
      | _, _ => false
      end
  end.

Definition ge (a b : jsv) : bool := le b a.

(** [Array.prototype.slice] on a list, with negative positions counted from
    the end. *)
Definition rel_index (len i : Z) : Z :=
  if i <? 0 then Z.max (len + i) 0 else Z.min i len.

Definition slice {A} (l : list A) (start : Z) (stop : option Z) : list A :=
  let len := Z.of_nat (length l) in
  let k := rel_index len start in
  let e := match stop with Some e => rel_index len e | None => len end in
  firstn (Z.to_nat (e - k)) (skipn (Z.to_nat k) l).

End JS.

(** Runs [m]; the [finally] block [f] is applied when [m] returns or throws,
    never when it stays suspended. *)
Definition finally_ {S A} (m : run S A) (f : S -> S) : run S A :=
  match m with
  | Done a s => Done a (f s)
  | Threw e s => Threw e (f s)
  | Blocked s => Blocked s
  | OutOfFuel => OutOfFuel
  end.

(** Drops the value an operation returns. *)
Definition void {S A} (m : run S A) : run S unit :=
  match m with
  | Done _ s => Done tt s
  | Threw e s => Threw e s
  | Blocked s => Blocked s
  | OutOfFuel => OutOfFuel
  end.

(** Embeds an operation on a component [C] of a larger state. *)
Definition lift_run {C S A} (put : C -> S) (m : run C A) : run S A :=
  match m with
  | Done a c => Done a (put c)
  | Threw e c => Threw e (put c)
  | Blocked c => Blocked (put c)
  | OutOfFuel => OutOfFuel
  end.

(** ** hash-index.js *)

Module HashIndex.
Import JS.

Definition INITIAL_CAPACITY : Z := 16384.

(** An entry object [{key, value, hash, psl}]. *)
Record Entry : Type := mkEntry {
  key : jsv;
  value : jsv;
  hash : Z;
  psl : Z
}.

(** [HashBucket]: the [entries] array and the [locked] flag of its lock.  The
    lock's queue holds continuations of other tasks and is always empty
    here. *)
Record HashBucket : Type := mkBucket {
  entries : list Entry;
  locked : bool
}.

(** [HashIndex].  Of [stats] only [maxProbeLength] (read by [get] and
    [delete]) and [resizes] are kept; the other counters are written and
    never read by any operation. *)
Record t : Type := mk {
  capacity : Z;
  size : Z;
  buckets : list HashBucket;
  resizeLocked : bool;
  maxProbeLength : Z;
  resizes : Z
}.

Definition emptyBucket : HashBucket := mkBucket [] false.

Definition to_int32 (z : Z) : Z := (z + 2 ^ 31) mod 2 ^ 32 - 2 ^ 31.

Definition _nextPowerOfTwo (n : Z) : Z :=
  let n := to_int32 (n - 1) in
  let n := Z.lor n (Z.shiftr n 1) in
  let n := Z.lor n (Z.shiftr n 2) in
  let n := Z.lor n (Z.shiftr n 4) in
  let n := Z.lor n (Z.shiftr n 8) in
  let n := Z.lor n (Z.shiftr n 16) in
  n + 1.

(** [new HashIndex(initialCapacity)]. *)
Definition new (initialCapacity : Z) : t :=
  let c := _nextPowerOfTwo initialCapacity in
  mk c 0 (repeat emptyBucket (Z.to_nat c)) false 0 0.

(** FNV-1a over the code units of [String(key)], kept as an unsigned 32-bit
    value.  The process-wide [HASH_CACHE] only memoises this function. *)
Definition fnv_step (h : Z) (c : ascii) : Z :=
  (Z.lxor h (Z.of_nat (nat_of_ascii c)) * 16777619) mod 2 ^ 32.

Definition _hash (k : jsv) : Z :=
  fold_left fnv_step (list_ascii_of_string (to_string k)) 2166136261.

(** [hash & (capacity - 1)], for capacities up to 2^31. *)
Definition mask (h : t) (i : Z) : Z := Z.land i (capacity h - 1).

Definition _getBucketIndex (h : t) (hash : Z) : Z := mask h hash.

Definition bucket_at (h : t) (i : Z) : option HashBucket :=
  buckets h !! Z.to_nat i.

Definition set_bucket (i : Z) (b : HashBucket) (h : t) : t :=
  mk (capacity h) (size h) (<[Z.to_nat i := b]> (buckets h))
     (resizeLocked h) (maxProbeLength h) (resizes h).

Definition set_size (n : Z) (h : t) : t :=
  mk (capacity h) n (buckets h) (resizeLocked h) (maxProbeLength h) (resizes h).

Definition set_maxProbeLength (n : Z) (h : t) : t :=
  mk (capacity h) (size h) (buckets h) (resizeLocked h) n (resizes h).

Definition set_resizeLocked (b : bool) (h : t) : t :=
  mk (capacity h) (size h) (buckets h) b (maxProbeLength h) (resizes h).

Definition set_locked (b : bool) (bk : HashBucket) : HashBucket :=
  mkBucket (entries bk) b.

Definition set_entries (es : list Entry) (bk : HashBucket) : HashBucket :=
  mkBucket es (locked bk).

Definition set_value (v : jsv) (e : Entry) : Entry :=
  mkEntry (key e) v (hash e) (psl e).

Definition set_psl (p : Z) (e : Entry) : Entry :=
  mkEntry (key e) (value e) (hash e) p.

(** Index of the first entry whose key [=== k]. *)
Fixpoint find_key (k : jsv) (es : list Entry) (i : nat) : option nat :=
  match es with
  | [] => None
  | e :: rest => if strict_eq (key e) k then Some i else find_key k rest (S i)
  end.

(** The [while (true)] loop of [insert].  [k] and [v] are the arguments of
    the call; [entry] is the entry being carried, [p] its probe length. *)
Fixpoint insert_loop (fuel : nat) (k v : jsv) (entry : Entry) (p bucketIndex : Z)
  (h : t) : run t unit :=
  match fuel with
  | O => OutOfFuel
  | S fuel' =>
      match bucket_at h bucketIndex with
      | None => Threw "TypeError" h
      | Some bucket =>
          if locked bucket then Blocked h
          else
            match entries bucket with
            | [] =>
                let h1 := set_bucket bucketIndex (set_entries [set_psl p entry] bucket) h in
                let h2 := set_size (size h1 + 1) h1 in
                let h3 := if maxProbeLength h2 <? p then set_maxProbeLength p h2 else h2 in
                Done tt h3
            | existingEntry :: _ =>
                match find_key k (entries bucket) 0 with
                | Some i =>
                    let newEntries :=
                      match entries bucket !! i with
                      | Some e => <[i := set_value v e]> (entries bucket)
                      | None => entries bucket
                      end in
                    Done tt (set_bucket bucketIndex (set_entries newEntries bucket) h)
                | None =>
                    if psl existingEntry <? p then
                      let newEntries := <[0%nat := entry]> (entries bucket) in
                      let h1 := set_bucket bucketIndex (set_entries newEntries bucket) h in
                      insert_loop fuel' k v existingEntry (psl existingEntry + 1)
                                  (mask h (bucketIndex + 1)) h1
                    else
                      insert_loop fuel' k v entry (p + 1) (mask h (bucketIndex + 1)) h
                end
            end
      end
  end.

(** Sequential [await] of [f] over a list. *)
Fixpoint for_each {S A} (f : A -> S -> run S unit) (xs : list A) (s : S) : run S unit :=
  match xs with
  | [] => Done tt s
  | x :: rest => let* (_, s1) := f x s in for_each f rest s1
  end.

Definition all_entries (bs : list HashBucket) : list Entry :=
  concat (List.map entries bs).

(** [insert], with [_resize] inlined at its only call site.  The test
    [size / capacity > 0.75] is exact in double precision for every table
    that fits in memory and is written over the integers. *)
Fixpoint insert (fuel : nat) (k v : jsv) (h : t) : run t unit :=
  match fuel with
  | O => OutOfFuel
  | S fuel' =>
      let resized :=
        if 3 * capacity h <? 4 * size h then
          if resizeLocked h then Done tt h
          else
            let c := capacity h * 2 in
            let h0 := mk c 0 (repeat emptyBucket (Z.to_nat c)) true 0 (resizes h + 1) in
            finally_
              (for_each (fun e => insert fuel' (key e) (value e)) (all_entries (buckets h)) h0)
              (set_resizeLocked false)
        else Done tt h in
      let* (_, h1) := resized in
      let hash := _hash k in
      insert_loop fuel' k v (mkEntry k v hash 0) 0 (_getBucketIndex h1 hash) h1
  end.

(** The [for] loop shared by [get] and [delete]: the first entry decides. *)
Inductive scan : Type :=
| Found (i : nat) (e : Entry)
| Stop
| Next.

Fixpoint get_scan (hash0 : Z) (k : jsv) (p : Z) (es : list Entry) (i : nat) : scan :=
  match es with
  | [] => Next
  | e :: rest =>
      if (hash e =? hash0) && strict_eq (key e) k then Found i e
      else if psl e <? p then Stop
      else get_scan hash0 k p rest (S i)
  end.

Fixpoint get_loop (n : nat) (hash0 : Z) (k : jsv) (p bucketIndex : Z) (h : t)
  : option jsv :=
  match n with
  | O => Some VNull
  | S n' =>
      match bucket_at h bucketIndex with
      | None => None
      | Some bucket =>
          match get_scan hash0 k p (entries bucket) 0 with
          | Found _ e => Some (value e)
          | Stop => Some VNull
          | Next => get_loop n' hash0 k (p + 1) (mask h (bucketIndex + 1)) h
          end
      end
  end.

(** [get(key)]; [None] stands for a [TypeError] on a missing bucket. *)
Definition get (k : jsv) (h : t) : option jsv :=
  let hash0 := _hash k in
  get_loop (Z.to_nat (maxProbeLength h + 1)) hash0 k 0 (mask h hash0) h.

Definition has (k : jsv) (h : t) : option bool :=
  option_map (fun v => negb (strict_eq v VNull)) (get k h).

(** [_backwardShift(startIndex)]. *)
Fixpoint backward_loop (fuel : nat) (currentIndex : Z) (h : t) : run t unit :=
  match fuel with
  | O => OutOfFuel
  | S fuel' =>
      match bucket_at h currentIndex with
      | None => Threw "TypeError" h
      | Some bucket =>
          match entries bucket with
          | [] => Done tt h
          | entry :: rest =>
              if psl entry =? 0 then Done tt h
              else if locked bucket then Blocked h
              else
                let entry' := set_psl (psl entry - 1) entry in
                let h1 := set_bucket currentIndex (mkBucket (entry' :: rest) true) h in
                let prevIndex := mask h (currentIndex - 1 + capacity h) in
                match bucket_at h1 prevIndex with
                | None => Threw "TypeError" (set_bucket currentIndex (mkBucket (entry' :: rest) false) h1)
                | Some prevBucket =>
                    if locked prevBucket then Blocked h1
                    else
                      let h2 := set_bucket prevIndex
                                  (set_entries (entries prevBucket ++ [entry']) prevBucket) h1 in
                      let h3 := set_bucket currentIndex (mkBucket rest false) h2 in
                      backward_loop fuel' (mask h (currentIndex + 1)) h3
                end
          end
      end
  end.

Definition _backwardShift (fuel : nat) (startIndex : Z) (h : t) : run t unit :=
  backward_loop fuel (mask h (startIndex + 1)) h.

Fixpoint delete_scan (k : jsv) (p : Z) (es : list Entry) (i : nat) : scan :=
  match es with
  | [] => Next
  | e :: rest =>
      if strict_eq (key e) k then Found i e
      else if psl e <? p then Stop
      else delete_scan k p rest (S i)
  end.

Definition unlock (i : Z) (h : t) : t :=
  match bucket_at h i with
  | Some b => set_bucket i (set_locked false b) h
  | None => h
  end.

(** The [while (psl <= maxProbeLength)] loop of [delete]; [n] counts the
    iterations left.  The bucket lock is held across [_backwardShift]. *)
Fixpoint delete_loop (n fuel : nat) (k : jsv) (p bucketIndex : Z) (h : t)
  : run t bool :=
  match n with
  | O => Done false h
  | S n' =>
      match bucket_at h bucketIndex with
      | None => Threw "TypeError" h
      | Some bucket =>
          if locked bucket then Blocked h
          else
            match delete_scan k p (entries bucket) 0 with
            | Found i _ =>
                let h1 := set_bucket bucketIndex
                            (mkBucket (delete i (entries bucket)) true) h in
                let h2 := set_size (size h1 - 1) h1 in
                finally_
                  (let* (_, h3) := _backwardShift fuel bucketIndex h2 in Done true h3)
                  (unlock bucketIndex)
            | Stop => Done false h
            | Next => delete_loop n' fuel k (p + 1) (mask h (bucketIndex + 1)) h
            end
      end
  end.

Definition delete (fuel : nat) (k : jsv) (h : t) : run t bool :=
  delete_loop (Z.to_nat (maxProbeLength h + 1)) fuel k 0 (mask h (_hash k)) h.

(** [entries()]: every [key, value] pair, bucket by bucket. *)
Definition pairs (h : t) : list (jsv * jsv) :=
  List.map (fun e => (key e, value e)) (all_entries (buckets h)).

End HashIndex.

(** ** sharded-hash-index.js *)

Module ShardedHashIndex.
Import JS.

(** The request counters of [stats] are never read back and are left out. *)
Record t : Type := mk {
  shardCount : Z;
  shards : list HashIndex.t
}.

Definition new (shardCount : Z) : t :=
  mk shardCount (repeat (HashIndex.new HashIndex.INITIAL_CAPACITY) (Z.to_nat shardCount)).

(** The same FNV-1a as [HashIndex._hash]. *)
Definition _hash (k : jsv) : Z :=
  fold_left HashIndex.fnv_step (list_ascii_of_string (to_string k)) 2166136261.

Definition shardIndex (k : jsv) (s : t) : Z := _hash k mod shardCount s.

Definition _getShard (k : jsv) (s : t) : option HashIndex.t :=
  shards s !! Z.to_nat (shardIndex k s).

Definition set_shard (k : jsv) (s : t) (h : HashIndex.t) : t :=
  mk (shardCount s) (<[Z.to_nat (shardIndex k s) := h]> (shards s)).

Definition insert (fuel : nat) (k v : jsv) (s : t) : run t unit :=
  match _getShard k s with
  | None => Threw "TypeError" s
  | Some h => lift_run (set_shard k s) (HashIndex.insert fuel k v h)
  end.

Definition get (k : jsv) (s : t) : option jsv :=
  match _getShard k s with
  | None => None
  | Some h => HashIndex.get k h
  end.

Definition delete (fuel : nat) (k : jsv) (s : t) : run t bool :=
  match _getShard k s with
  | None => Threw "TypeError" s
  | Some h => lift_run (set_shard k s) (HashIndex.delete fuel k h)
  end.

Definition pairs (s : t) : list (jsv * jsv) :=
  concat (List.map HashIndex.pairs (shards s)).

End ShardedHashIndex.

(** ** btree-index.js *)

Module BPlusTree.
Import JS.

Definition DEFAULT_ORDER : Z := 128.

(** A leaf has a [values] array and no [children]; an internal node has
    [children] and no [values]. *)
Inductive payload : Type :=
| LeafData (values : list jsv)
| InternalData (children : list nat).

(** [BPlusTreeNode].  Node references are positions in the heap of the
    tree; [None] is [null]. *)
Record Node : Type := mkNode {
  norder : Z;
  keys : list jsv;
  data : payload;
  next : option nat;
  parent : option nat;
  locked : bool
}.

Definition isLeaf (n : Node) : bool :=
  match data n with
  | LeafData _ => true
  | InternalData _ => false
  end.

(** [BPlusTree].  The counters of [stats] are never read back and are left
    out. *)
Record t : Type := mk {
  order : Z;
  nodes : list Node;
  root : nat;
  firstLeaf : nat;
  size : Z;
  structureLocked : bool
}.

Definition newNode (leaf : bool) (order : Z) : Node :=
  mkNode order [] (if leaf then LeafData [] else InternalData []) None None false.

(** [new BPlusTree(order)]: a single empty leaf that is also the root. *)
Definition new (order : Z) : t :=
  mk order [newNode true order] 0%nat 0%nat 0 false.

Definition set_keys (ks : list jsv) (n : Node) : Node :=
  mkNode (norder n) ks (data n) (next n) (parent n) (locked n).
Definition set_data (d : payload) (n : Node) : Node :=
  mkNode (norder n) (keys n) d (next n) (parent n) (locked n).
Definition set_next (x : option nat) (n : Node) : Node :=
  mkNode (norder n) (keys n) (data n) x (parent n) (locked n).
Definition set_parent (x : option nat) (n : Node) : Node :=
  mkNode (norder n) (keys n) (data n) (next n) x (locked n).
Definition set_locked (b : bool) (n : Node) : Node :=
  mkNode (norder n) (keys n) (data n) (next n) (parent n) b.

Definition set_nodes (ns : list Node) (tr : t) : t :=
  mk (order tr) ns (root tr) (firstLeaf tr) (size tr) (structureLocked tr).
Definition set_root (r : nat) (tr : t) : t :=
  mk (order tr) (nodes tr) r (firstLeaf tr) (size tr) (structureLocked tr).
Definition set_size (n : Z) (tr : t) : t :=
  mk (order tr) (nodes tr) (root tr) (firstLeaf tr) n (structureLocked tr).
Definition set_structureLocked (b : bool) (tr : t) : t :=
  mk (order tr) (nodes tr) (root tr) (firstLeaf tr) (size tr) b.

Definition node_at (tr : t) (id : nat) : option Node := nodes tr !! id.

(** In-place update of the node object [id]. *)
Definition upd (id : nat) (f : Node -> Node) (tr : t) : t :=
  match node_at tr id with
  | Some n => set_nodes (<[id := f n]> (nodes tr)) tr
  | None => tr
  end.

(** Allocation of a fresh node object. *)
Definition alloc (n : Node) (tr : t) : nat * t :=
  (length (nodes tr), set_nodes (nodes tr ++ [n]) tr).

(** [findKeyPosition(key)].  The interval halves at every round, so
    [length ks] rounds always reach [left >= right]. *)
Fixpoint fkp_loop (fuel : nat) (ks : list jsv) (k : jsv) (left right : nat) : nat :=
  match fuel with
  | O => left
  | S f =>
      if (left <? right)%nat then
        let mid := ((left + right) / 2)%nat in
        match ks !! mid with
        | Some km =>
            if lt km k then fkp_loop f ks k (mid + 1)%nat right
            else fkp_loop f ks k left mid
        | None => fkp_loop f ks k left mid
        end
      else left
  end.

Definition findKeyPosition (ks : list jsv) (k : jsv) : nat :=
  fkp_loop (length ks) ks k 0%nat (length ks).

Definition isFull (n : Node) : bool :=
  norder n - 1 <=? Z.of_nat (length (keys n)).

(** [Math.ceil(order / 2) - 1]. *)
Definition minKeys (order : Z) : Z := (order + 1) / 2 - 1.

Definition isUnderfull (n : Node) : bool :=
  Z.of_nat (length (keys n)) <? minKeys (norder n).

(** [a.splice(pos, 0, x)] *)
Definition splice_in {A} (pos : nat) (x : A) (l : list A) : list A :=
  firstn pos l ++ x :: skipn pos l.

(** [a.splice(start, 1)], a negative [start] counting from the end. *)
Definition splice_out {A} (start : Z) (l : list A) : list A :=
  let len := Z.of_nat (length l) in
  let s := Z.to_nat (if start <? 0 then Z.max (len + start) 0 else Z.min start len) in
  firstn s l ++ skipn (S s) l.

(** [a[i] = x]: beyond the end the array grows, the gap reading as
    [undefined]; a negative index is not an element. *)
Definition array_set (i : Z) (x : jsv) (l : list jsv) : list jsv :=
  if i <? 0 then l
  else
    let n := Z.to_nat i in
    if (n <? length l)%nat then <[n := x]> l
    else l ++ repeat VUndefined (n - length l) ++ [x].

Definition elem (l : list jsv) (i : nat) : jsv :=
  match l !! i with
  | Some v => v
  | None => VUndefined
  end.

(** [a.indexOf(x)] on node references. *)
Fixpoint indexOf (x : nat) (l : list nat) (i : Z) : Z :=
  match l with
  | [] => -1
  | y :: rest => if (y =? x)%nat then i else indexOf x rest (i + 1)
  end.

(** [await node.acquireLock(); try { body } finally { node.releaseLock() }] *)
Definition with_lock {A} (id : nat) (body : t -> run t A) (tr : t) : run t A :=
  match node_at tr id with
  | None => Threw "TypeError" tr
  | Some n =>
      if locked n then Blocked tr
      else finally_ (body (upd id (set_locked true) tr)) (upd id (set_locked false))
  end.

Definition with_structure_lock {A} (body : t -> run t A) (tr : t) : run t A :=
  if structureLocked tr then Blocked tr
  else finally_ (body (set_structureLocked true tr)) (set_structureLocked false).

(** [_findLeaf(key)], started at node [id]. *)
Fixpoint descend (fuel : nat) (k : jsv) (id : nat) (tr : t) : run t nat :=
  match fuel with
  | O => OutOfFuel
  | S fuel' =>
      match node_at tr id with
      | None => Threw "TypeError" tr
      | Some n =>
          match data n with
          | LeafData _ => Done id tr
          | InternalData cs =>
              match cs !! findKeyPosition (keys n) k with
              | Some c => descend fuel' k c tr
              | None => Threw "TypeError" tr
              end
          end
      end
  end.

Definition _findLeaf (fuel : nat) (k : jsv) (tr : t) : run t nat :=
  descend fuel k (root tr) tr.

Definition set_parent_of (p : option nat) (tr : t) (c : nat) : t :=
  upd c (set_parent p) tr.

(** A new root above the two halves of the old one: the [if (node ===
    this.root)] branch of [_splitLeaf] and of [_splitInternal]. *)
Definition grow_root (promoteKey : jsv) (node newNode : nat) (tr : t) : t :=
  let '(rid, tr1) :=
    alloc (mkNode (order tr) [promoteKey] (InternalData [node; newNode]) None None false) tr in
  let tr2 := upd node (set_parent (Some rid)) tr1 in
  let tr3 := upd newNode (set_parent (Some rid)) tr2 in
  set_root rid tr3.

(** [_insertIntoParent] up to the fullness test: the key and the right
    child enter the parent [p], whose children were [cs]. *)
Definition attach (p pos : nat) (k : jsv) (rightChild : nat) (cs : list nat) (tr : t) : t :=
  let tr1 := upd p (fun n => set_keys (splice_in pos k (keys n)) n) tr in
  let tr2 := upd p (set_data (InternalData (splice_in (S pos) rightChild cs))) tr1 in
  upd rightChild (set_parent (Some p)) tr2.

(** [_splitInternal(node)] up to the root test, for a node holding [ks] and
    [cs]: the new right node and the tree. *)
Definition halve (node : nat) (ks : list jsv) (cs : list nat) (tr : t) : nat * t :=
  let mid := (length ks / 2)%nat in
  let '(nid, tr1) :=
    alloc (mkNode (order tr) (skipn (S mid) ks) (InternalData (skipn (S mid) cs))
             None None false) tr in
  let tr2 := upd node (fun n => set_data (InternalData (firstn (S mid) cs))
                                  (set_keys (firstn mid ks) n)) tr1 in
  (nid, fold_left (set_parent_of (Some nid)) (skipn (S mid) cs) tr2).

(** [_insertIntoParent(leftChild, key, rightChild)], with
    [_splitInternal(parent)] inlined at its only call site. *)
Fixpoint _insertIntoParent (fuel : nat) (leftChild : nat) (k : jsv) (rightChild : nat)
  (tr : t) : run t unit :=
  match fuel with
  | O => OutOfFuel
  | S fuel' =>
      match node_at tr leftChild with
      | None => Threw "TypeError" tr
      | Some l =>
          match parent l with
          | None => Threw "TypeError" tr
          | Some p =>
              with_lock p (fun tr =>
                match node_at tr p with
                | None => Threw "TypeError" tr
                | Some pn =>
                    let pos := findKeyPosition (keys pn) k in
                    let keys1 := splice_in pos k (keys pn) in
                    match data pn with
                    | LeafData _ => Threw "TypeError" (upd p (set_keys keys1) tr)
                    | InternalData cs =>
                        let tr1 := attach p pos k rightChild cs tr in
                        if norder pn - 1 <=? Z.of_nat (length keys1) then
                          let promoteKey := elem keys1 (length keys1 / 2) in
                          let cs1 := splice_in (S pos) rightChild cs in
                          let '(nid, tr2) := halve p keys1 cs1 tr1 in
                          if (p =? root tr2)%nat then Done tt (grow_root promoteKey p nid tr2)
                          else _insertIntoParent fuel' p promoteKey nid tr2
                        else Done tt tr1
                    end
                end) tr
          end
      end
  end.

(** [_splitLeaf(leaf)] up to the root test, for a leaf holding [ks] and
    [vs]: the new right leaf and the tree. *)
Definition halve_leaf (leaf : nat) (ks vs : list jsv) (nx : option nat) (tr : t) : nat * t :=
  let mid := (length ks / 2)%nat in
  let '(nid, tr1) :=
    alloc (mkNode (order tr) (skipn mid ks) (LeafData (skipn mid vs)) nx None false) tr in
  (nid, upd leaf (fun n => set_next (Some nid)
                             (set_data (LeafData (firstn mid vs))
                                (set_keys (firstn mid ks) n))) tr1).

(** [_splitLeaf(leaf)] *)
Definition _splitLeaf (fuel : nat) (leaf : nat) (tr : t) : run t unit :=
  match node_at tr leaf with
  | None => Threw "TypeError" tr
  | Some l =>
      match data l with
      | InternalData _ => Threw "TypeError" tr
      | LeafData vs =>
          let '(nid, tr1) := halve_leaf leaf (keys l) vs (next l) tr in
          let promoteKey := elem (skipn (length (keys l) / 2) (keys l)) 0 in
          if (leaf =? root tr1)%nat then Done tt (grow_root promoteKey leaf nid tr1)
          else _insertIntoParent fuel leaf promoteKey nid tr1
      end
  end.

(** The key and the value enter the leaf at [pos]. *)
Definition put (leaf pos : nat) (k v : jsv) (vs : list jsv) (tr : t) : t :=
  let tr1 := upd leaf (fun n => set_data (LeafData (splice_in pos v vs))
                                  (set_keys (splice_in pos k (keys n)) n)) tr in
  set_size (size tr1 + 1) tr1.

(** [insert(key, value)] *)
Definition insert (fuel : nat) (k v : jsv) (tr : t) : run t unit :=
  with_structure_lock (fun tr =>
    let* (leaf, tr) := _findLeaf fuel k tr in
    with_lock leaf (fun tr =>
      match node_at tr leaf with
      | None => Threw "TypeError" tr
      | Some l =>
          match data l with
          | InternalData _ => Threw "TypeError" tr
          | LeafData vs =>
              let pos := findKeyPosition (keys l) k in
              if (pos <? length (keys l))%nat && strict_eq (elem (keys l) pos) k then
                Done tt (upd leaf (set_data (LeafData (array_set (Z.of_nat pos) v vs))) tr)
              else
                let tr1 := put leaf pos k v vs tr in
                if norder l - 1 <=? Z.of_nat (length (splice_in pos k (keys l)))
                then _splitLeaf fuel leaf tr1
                else Done tt tr1
          end
      end) tr) tr.

(** [search(key)] *)
Definition search (fuel : nat) (k : jsv) (tr : t) : run t jsv :=
  let* (leaf, tr) := _findLeaf fuel k tr in
  match node_at tr leaf with
  | None => Threw "TypeError" tr
  | Some l =>
      let pos := findKeyPosition (keys l) k in
      if (pos <? length (keys l))%nat && strict_eq (elem (keys l) pos) k then
        match data l with
        | LeafData vs => Done (elem vs pos) tr
        | InternalData _ => Threw "TypeError" tr
        end
      else Done VNull tr
  end.

(** The [for] loop of [rangeQuery] over the keys [ks] and values [vs] still
    ahead in one leaf: [inl] when the scan returned, [inr] when the leaf was
    exhausted. *)
Fixpoint range_leaf (startKey endKey : jsv) (ks vs : list jsv)
  (results : list (jsv * jsv)) : list (jsv * jsv) + list (jsv * jsv) :=
  match ks with
  | [] => inr results
  | k :: ks' =>
      if gt k endKey then inl results
      else
        let results' :=
          if ge k startKey then results ++ [(k, elem vs 0)] else results in
        range_leaf startKey endKey ks' (tl vs) results'
  end.

(** The [while (leaf)] loop of [rangeQuery]. *)
Fixpoint range_loop (fuel : nat) (startKey endKey : jsv) (leaf : option nat) (pos : nat)
  (results : list (jsv * jsv)) (tr : t) : run t (list (jsv * jsv)) :=
  match fuel with
  | O => OutOfFuel
  | S fuel' =>
      match leaf with
      | None => Done results tr
      | Some id =>
          match node_at tr id with
          | None => Threw "TypeError" tr
          | Some l =>
              let vs := match data l with LeafData vs => Some vs | InternalData _ => None end in
              match vs with
              | None =>
                  (* [leaf.values] is [null]: reading an element throws as
                     soon as a key is in range *)
                  match range_leaf startKey endKey (skipn pos (keys l)) [] results with
                  | inl r => if (length r =? length results)%nat then Done r tr
                             else Threw "TypeError" tr
                  | inr r => if (length r =? length results)%nat
                             then range_loop fuel' startKey endKey (next l) 0 r tr
                             else Threw "TypeError" tr
                  end
              | Some vs =>
                  match range_leaf startKey endKey (skipn pos (keys l)) (skipn pos vs) results with
                  | inl r => Done r tr
                  | inr r => range_loop fuel' startKey endKey (next l) 0 r tr
                  end
              end
          end
      end
  end.

(** [rangeQuery(startKey, endKey)]; each result is [{key, value}]. *)
Definition rangeQuery (fuel : nat) (startKey endKey : jsv) (tr : t)
  : run t (list (jsv * jsv)) :=
  let* (leaf, tr) := _findLeaf fuel startKey tr in
  match node_at tr leaf with
  | None => Threw "TypeError" tr
  | Some l =>
      range_loop fuel startKey endKey (Some leaf) (findKeyPosition (keys l) startKey) [] tr
  end.

(** The leaf chain from [firstLeaf]: what [keys()] and [values()] iterate. *)
Fixpoint chain (fuel : nat) (leaf : option nat) (tr : t) : option (list (jsv * jsv)) :=
  match fuel with
  | O => None
  | S fuel' =>
      match leaf with
      | None => Some []
      | Some id =>
          match node_at tr id with
          | None => None
          | Some l =>
              match data l with
              | InternalData _ => None
              | LeafData vs =>
                  option_map (fun rest => combine (keys l) vs ++ rest)
                             (chain fuel' (next l) tr)
              end
          end
      end
  end.

Definition stored (fuel : nat) (tr : t) : option (list (jsv * jsv)) :=
  chain fuel (Some (firstLeaf tr)) tr.

(** [a.pop()] and [a.shift()], [undefined] on an empty array. *)
Definition pop_last (l : list jsv) : jsv * list jsv :=
  match List.rev l with
  | [] => (VUndefined, [])
  | x :: r => (x, List.rev r)
  end.

Definition shift_first (l : list jsv) : jsv * list jsv :=
  match l with
  | [] => (VUndefined, [])
  | x :: r => (x, r)
  end.

Definition child_at (cs : list nat) (i : Z) : option nat :=
  if i <? 0 then None else cs !! Z.to_nat i.

(** [_mergeLeaf(leaf, parent, childIndex)]; [_rebalanceInternal] has an
    empty body. *)
Definition _mergeLeaf (leaf p : nat) (childIndex : Z) (tr : t) : run t unit :=
  match node_at tr leaf, node_at tr p with
  | Some l, Some pn =>
      match data pn with
      | LeafData _ => Threw "TypeError" tr
      | InternalData cs =>
          let merged :=
            if 0 <? childIndex then
              match child_at cs (childIndex - 1) with
              | None => Threw "TypeError" tr
              | Some lsib =>
                  with_lock lsib (fun tr =>
                    match node_at tr lsib, node_at tr leaf with
                    | Some ln, Some l =>
                        match data ln, data l with
                        | LeafData lvs, LeafData vs =>
                            let tr1 := upd lsib (fun n =>
                                         set_next (next l)
                                           (set_data (LeafData (lvs ++ vs))
                                              (set_keys (keys ln ++ keys l) n))) tr in
                            Done tt (upd p (fun n =>
                                       set_data (InternalData (splice_out childIndex cs))
                                         (set_keys (splice_out (childIndex - 1) (keys n)) n)) tr1)
                        | _, _ => Threw "TypeError" tr
                        end
                    | _, _ => Threw "TypeError" tr
                    end) tr
              end
            else
              match child_at cs (childIndex + 1) with
              | None => Threw "TypeError" tr
              | Some rsib =>
                  with_lock rsib (fun tr =>
                    match node_at tr rsib, node_at tr leaf with
                    | Some rn, Some l =>
                        match data rn, data l with
                        | LeafData rvs, LeafData vs =>
                            let tr1 := upd leaf (fun n =>
                                         set_next (next rn)
                                           (set_data (LeafData (vs ++ rvs))
                                              (set_keys (keys l ++ keys rn) n))) tr in
                            Done tt (upd p (fun n =>
                                       set_data (InternalData (splice_out (childIndex + 1) cs))
                                         (set_keys (splice_out childIndex (keys n)) n)) tr1)
                        | _, _ => Threw "TypeError" tr
                        end
                    | _, _ => Threw "TypeError" tr
                    end) tr
              end in
          let* (_, tr1) := merged in
          match node_at tr1 p with
          | None => Threw "TypeError" tr1
          | Some pn1 =>
              if negb (p =? root tr1)%nat && isUnderfull pn1 then Done tt tr1
              else if (p =? root tr1)%nat && (length (keys pn1) =? 0)%nat then
                match data pn1 with
                | InternalData (c :: _) =>
                    match node_at tr1 c with
                    | Some _ => Done tt (upd c (set_parent None) (set_root c tr1))
                    | None => Threw "TypeError" tr1
                    end
                | _ => Threw "TypeError" tr1
                end
              else Done tt tr1
          end
      end
  | _, _ => Threw "TypeError" tr
  end.

(** [_rebalanceLeaf(leaf)] *)
Definition _rebalanceLeaf (leaf : nat) (tr : t) : run t unit :=
  match node_at tr leaf with
  | None => Threw "TypeError" tr
  | Some l =>
      match parent l with
      | None => Done tt tr
      | Some p =>
          with_lock p (fun tr =>
            match node_at tr p with
            | None => Threw "TypeError" tr
            | Some pn =>
                match data pn with
                | LeafData _ => Threw "TypeError" tr
                | InternalData cs =>
                    let childIndex := indexOf leaf cs 0 in
                    let from_right (tr : t) : run t unit :=
                      if childIndex <? Z.of_nat (length cs) - 1 then
                        match child_at cs (childIndex + 1) with
                        | None => Threw "TypeError" tr
                        | Some rsib =>
                            match node_at tr rsib with
                            | None => Threw "TypeError" tr
                            | Some rn =>
                                if minKeys (order tr) <? Z.of_nat (length (keys rn)) then
                                  with_lock rsib (fun tr =>
                                    match data rn, node_at tr leaf with
                                    | LeafData rvs, Some l =>
                                        match data l with
                                        | LeafData vs =>
                                            let '(bk, rks) := shift_first (keys rn) in
                                            let '(bv, rvs') := shift_first rvs in
                                            let tr1 := upd rsib (fun n =>
                                                         set_data (LeafData rvs') (set_keys rks n)) tr in
                                            let tr2 := upd leaf (fun n =>
                                                         set_data (LeafData (vs ++ [bv]))
                                                           (set_keys (keys l ++ [bk]) n)) tr1 in
                                            Done tt (upd p (fun n =>
                                                       set_keys (array_set childIndex (elem rks 0) (keys n)) n) tr2)
                                        | InternalData _ => Threw "TypeError" tr
                                        end
                                    | _, _ => Threw "TypeError" tr
                                    end) tr
                                else _mergeLeaf leaf p childIndex tr
                            end
                        end
                      else _mergeLeaf leaf p childIndex tr in
                    if 0 <? childIndex then
                      match child_at cs (childIndex - 1) with
                      | None => Threw "TypeError" tr
                      | Some lsib =>
                          match node_at tr lsib with
                          | None => Threw "TypeError" tr
                          | Some ln =>
                              if minKeys (order tr) <? Z.of_nat (length (keys ln)) then
                                with_lock lsib (fun tr =>
                                  match data ln, node_at tr leaf with
                                  | LeafData lvs, Some l =>
                                      match data l with
                                      | LeafData vs =>
                                          let '(bk, lks) := pop_last (keys ln) in
                                          let '(bv, lvs') := pop_last lvs in
                                          let tr1 := upd lsib (fun n =>
                                                       set_data (LeafData lvs') (set_keys lks n)) tr in
                                          let tr2 := upd leaf (fun n =>
                                                       set_data (LeafData (bv :: vs))
                                                         (set_keys (bk :: keys l) n)) tr1 in
                                          Done tt (upd p (fun n =>
                                                     set_keys (array_set (childIndex - 1) bk (keys n)) n) tr2)
                                      | InternalData _ => Threw "TypeError" tr
                                      end
                                  | _, _ => Threw "TypeError" tr
                                  end) tr
                              else from_right tr
                          end
                      end
                    else from_right tr
                end
            end) tr
      end
  end.

(** [delete(key)] *)
Definition delete (fuel : nat) (k : jsv) (tr : t) : run t bool :=
  with_structure_lock (fun tr =>
    let* (leaf, tr) := _findLeaf fuel k tr in
    with_lock leaf (fun tr =>
      match node_at tr leaf with
      | None => Threw "TypeError" tr
      | Some l =>
          match data l with
          | InternalData _ => Threw "TypeError" tr
          | LeafData vs =>
              let pos := findKeyPosition (keys l) k in
              if (length (keys l) <=? pos)%nat || negb (strict_eq (elem (keys l) pos) k) then
                Done false tr
              else
                let keys1 := splice_out (Z.of_nat pos) (keys l) in
                let tr1 := upd leaf (fun n => set_data (LeafData (splice_out (Z.of_nat pos) vs))
                                                (set_keys keys1 n)) tr in
                let tr2 := set_size (size tr1 - 1) tr1 in
                if negb (leaf =? root tr2)%nat && (Z.of_nat (length keys1) <? minKeys (norder l)) then
                  let* (_, tr3) := _rebalanceLeaf leaf tr2 in Done true tr3
                else Done true tr2
          end
      end) tr) tr.

End BPlusTree.

(** ** Objects, [Map]s and [JSON.stringify] *)

Module Obj.
Import JS.

(** [o[k] = v] on the own properties of an object. *)
Fixpoint set (k : string) (v : jsv) (kvs : list (string * jsv)) : list (string * jsv) :=
  match kvs with
  | [] => [(k, v)]
  | (k', v') :: rest =>
      if String.eqb k' k then (k, v) :: rest else (k', v') :: set k v rest
  end.

Definition assign (o : jsv) (k : string) (v : jsv) : jsv :=
  match o with
  | VObj kvs => VObj (set k v kvs)
  | _ => o
  end.

(** [{...a, ...b}] *)
Definition spread (a b : list (string * jsv)) : list (string * jsv) :=
  fold_left (fun acc kv => set (fst kv) (snd kv) acc) b a.

Definition own (o : jsv) : list (string * jsv) :=
  match o with
  | VObj kvs => kvs
  | _ => []
  end.

(** [o.hasOwnProperty(k)] and [k in o] for plain objects; properties
    inherited from [Object.prototype] are not modelled. *)
Definition has (o : jsv) (k : string) : bool :=
  match o with
  | VObj kvs => match assoc k kvs with Some _ => true | None => false end
  | _ => false
  end.

Fixpoint indexed (i : Z) (xs : list jsv) : list (string * jsv) :=
  match xs with
  | [] => []
  | x :: rest => (Z_to_string i, x) :: indexed (i + 1) rest
  end.

Definition chars (s : string) : list jsv :=
  List.map (fun c => VStr (String c EmptyString)) (list_ascii_of_string s).

(** [Object.entries(v)]; [None] is the [TypeError] on [null] and
    [undefined]. *)
Definition entries (v : jsv) : option (list (string * jsv)) :=
  match v with
  | VUndefined | VNull => None
  | VObj kvs => Some kvs
  | VArr xs => Some (indexed 0 xs)
  | VStr s => Some (indexed 0 (chars s))
  | VBool _ | VNum _ => Some []
  end.

(** The values a [for ... of] loop visits; [None] when [v] is not
    iterable. *)
Definition iterate (v : jsv) : option (list jsv) :=
  match v with
  | VArr xs => Some xs
  | VStr s => Some (chars s)
  | _ => None
  end.

Definition typeof (v : jsv) : string :=
  match v with
  | VUndefined => "undefined"
  | VNull | VArr _ | VObj _ => "object"
  | VBool _ => "boolean"
  | VNum _ => "number"
  | VStr _ => "string"
  end.

Definition starts_with_dollar (s : string) : bool :=
  match s with
  | String "$"%char _ => true
  | _ => false
  end.

Fixpoint is_prefix (p s : string) : bool :=
  match p, s with
  | EmptyString, _ => true
  | String a p', String b s' => Ascii.eqb a b && is_prefix p' s'
  | String _ _, EmptyString => false
  end.

(** [s.includes(p)] *)
Fixpoint str_includes (p s : string) : bool :=
  is_prefix p s ||
  match s with
  | EmptyString => false
  | String _ s' => str_includes p s'
  end.

(** [v.includes(x)]; [None] when [v] has no such method. *)
Definition includes (v x : jsv) : option bool :=
  match v with
  | VArr xs => Some (existsb (strict_eq x) xs)
  | VStr s => Some (str_includes (to_string x) s)
  | _ => None
  end.

Definition hex_digit (n : Z) : ascii :=
  ascii_of_nat (Z.to_nat (if n <? 10 then 48 + n else 87 + n)).

Definition escape_char (c : ascii) : string :=
  let n := Z.of_nat (nat_of_ascii c) in
  if n =? 34 then "\" ++ String c EmptyString
  else if n =? 92 then "\\"
  else if n =? 8 then "\b"
  else if n =? 12 then "\f"
  else if n =? 10 then "\n"
  else if n =? 13 then "\r"
  else if n =? 9 then "\t"
  else if n <? 32 then "\u00" ++ String (hex_digit (n / 16)) (String (hex_digit (n mod 16)) EmptyString)
  else String c EmptyString.

Definition quote (s : string) : string :=
  String (ascii_of_nat 34)
    (String.concat EmptyString (List.map escape_char (list_ascii_of_string s))
     ++ String (ascii_of_nat 34) EmptyString).

(** [JSON.stringify(v)]; [None] is [undefined]. *)
Fixpoint stringify (v : jsv) : option string :=
  match v with
  | VUndefined => None
  | VNull => Some "null"
  | VBool true => Some "true"
  | VBool false => Some "false"
  | VNum n => Some (Z_to_string n)
  | VStr s => Some (quote s)
  | VArr xs =>
      Some ("[" ++ join ","
              (List.map (fun x => match stringify x with
                                  | Some s => s
                                  | None => "null"
                                  end) xs) ++ "]")
  | VObj kvs =>
      Some ("{" ++ join ","
              ((fix props (kvs : list (string * jsv)) : list string :=
                  match kvs with
                  | [] => []
                  | (k, x) :: rest =>
                      match stringify x with
                      | Some s => (quote k ++ ":" ++ s) :: props rest
                      | None => props rest
                      end
                  end) kvs) ++ "}")
  end%string.

(** A value interpolated into a template literal. *)
Definition interpolate (s : option string) : string :=
  match s with
  | Some s => s
  | None => "undefined"
  end.

(** [Array.prototype.sort] with a comparator: a stable insertion sort.  Any
    stable sort produces the same array when the comparator is a consistent
    ordering, which is all ECMAScript specifies. *)
Fixpoint sort_insert {A} (cmp : A -> A -> Z) (x : A) (sorted : list A) : list A :=
  match sorted with
  | [] => [x]
  | y :: rest => if cmp x y <? 0 then x :: y :: rest else y :: sort_insert cmp x rest
  end.

Definition sort {A} (cmp : A -> A -> Z) (l : list A) : list A :=
  fold_right (sort_insert cmp) [] l.

End Obj.

(** A [Map] keeps its keys in insertion order and compares them with
    SameValueZero. *)
Module JMap.
Import JS.

Section Ops.
Context {V : Type}.

Fixpoint get (k : jsv) (m : list (jsv * V)) : option V :=
  match m with
  | [] => None
  | (k', v) :: rest => if strict_eq k' k then Some v else get k rest
  end.

Fixpoint set (k : jsv) (v : V) (m : list (jsv * V)) : list (jsv * V) :=
  match m with
  | [] => [(k, v)]
  | (k', v') :: rest => if strict_eq k' k then (k', v) :: rest else (k', v') :: set k v rest
  end.

Fixpoint remove (k : jsv) (m : list (jsv * V)) : list (jsv * V) :=
  match m with
  | [] => []
  | (k', v') :: rest => if strict_eq k' k then rest else (k', v') :: remove k rest
  end.

Definition values (m : list (jsv * V)) : list V := List.map snd m.

End Ops.
End JMap.

(** A [Map] or object keyed by strings. *)
Module SMap.

Section Ops.
Context {V : Type}.

Fixpoint get (k : string) (m : list (string * V)) : option V :=
  match m with
  | [] => None
  | (k', v) :: rest => if String.eqb k' k then Some v else get k rest
  end.

Fixpoint set (k : string) (v : V) (m : list (string * V)) : list (string * V) :=
  match m with
  | [] => [(k, v)]
  | (k', v') :: rest => if String.eqb k' k then (k', v) :: rest else (k', v') :: set k v rest
  end.

Fixpoint remove (k : string) (m : list (string * V)) : list (string * V) :=
  match m with
  | [] => []
  | (k', v') :: rest => if String.eqb k' k then rest else (k', v') :: remove k rest
  end.

End Ops.
End SMap.

(** ** memory-engine.js *)

Module MemoryEngine.
Import JS.

(** The collection object built by [GhostDB.createCollection]:
    [{name, schema, indexes, data, createdAt, updatedAt}].  Its [indexes]
    map is never written and the two time stamps are never read. *)
Record Collection : Type := mkCollection {
  name : string;
  schema : jsv;
  data : list (jsv * jsv)
}.

(** [collection.metadata]: the object has no such property. *)
Definition metadata (c : Collection) : jsv := VUndefined.

(** [collections]: name -> collection.  [GhostDB.collections] holds the
    same objects under the same names, so one map stands for both.  The
    memory estimate of [_updateMemoryUsage] is taken to stay below
    [maxMemory]. *)
Definition t : Type := list (string * Collection).

Definition getCollection (nm : string) (m : t) : option Collection := SMap.get nm m.

Definition get (nm : string) (id : jsv) (m : t) : jsv :=
  match SMap.get nm m with
  | Some c => match JMap.get id (data c) with Some d => d | None => VUndefined end
  | None => VNull
  end.

Definition scan (nm : string) (m : t) : list jsv :=
  match SMap.get nm m with
  | Some c => JMap.values (data c)
  | None => []
  end.

Definition set_data (d : list (jsv * jsv)) (c : Collection) : Collection :=
  mkCollection (name c) (schema c) d.

End MemoryEngine.

(** ** index-manager.js *)

Module IndexManager.
Import JS.

Inductive HashKind : Type :=
| Sharded (s : ShardedHashIndex.t)
| Plain (h : HashIndex.t).

(** The index object [{fieldName, hash, btree, unique, sharded}]. *)
Record Index : Type := mkIndex {
  fieldName : string;
  hash : option HashKind;
  btree : option BPlusTree.t;
  unique : jsv;
  sharded : bool
}.

(** [indexes]: collection name -> field name -> index. *)
Definition t : Type := list (string * list (string * Index)).

Definition set_hash (h : option HashKind) (ix : Index) : Index :=
  mkIndex (fieldName ix) h (btree ix) (unique ix) (sharded ix).
Definition set_btree (b : option BPlusTree.t) (ix : Index) : Index :=
  mkIndex (fieldName ix) (hash ix) b (unique ix) (sharded ix).

Definition hash_insert (fuel : nat) (k v : jsv) (h : HashKind) : run HashKind unit :=
  match h with
  | Sharded s => lift_run Sharded (ShardedHashIndex.insert fuel k v s)
  | Plain p => lift_run Plain (HashIndex.insert fuel k v p)
  end.

Definition hash_delete (fuel : nat) (k : jsv) (h : HashKind) : run HashKind bool :=
  match h with
  | Sharded s => lift_run Sharded (ShardedHashIndex.delete fuel k s)
  | Plain p => lift_run Plain (HashIndex.delete fuel k p)
  end.

Definition hash_get (k : jsv) (h : HashKind) : option jsv :=
  match h with
  | Sharded s => ShardedHashIndex.get k s
  | Plain p => HashIndex.get k p
  end.

(** [_addToIndex(index, fieldValue, docId)] *)
Definition _addToIndex (fuel : nat) (fieldValue docId : jsv) (ix : Index) : run Index unit :=
  let* (_, ix1) :=
    match hash ix with
    | Some h => lift_run (fun h' => set_hash (Some h') ix) (hash_insert fuel fieldValue docId h)
    | None => Done tt ix
    end in
  match btree ix1 with
  | Some b => lift_run (fun b' => set_btree (Some b') ix1) (BPlusTree.insert fuel fieldValue docId b)
  | None => Done tt ix1
  end.

(** [_removeFromIndex(index, fieldValue, docId)]: [docId] is not used. *)
Definition _removeFromIndex (fuel : nat) (fieldValue docId : jsv) (ix : Index) : run Index unit :=
  let* (_, ix1) :=
    match hash ix with
    | Some h =>
        lift_run (fun h' => set_hash (Some h') ix) (void (hash_delete fuel fieldValue h))
    | None => Done tt ix
    end in
  match btree ix1 with
  | Some b =>
      lift_run (fun b' => set_btree (Some b') ix1) (void (BPlusTree.delete fuel fieldValue b))
  | None => Done tt ix1
  end.

Definition put_index (collectionName field : string) (im : t) (ix : Index) : t :=
  let fields := match SMap.get collectionName im with Some f => f | None => [] end in
  SMap.set collectionName (SMap.set field ix fields) im.

(** [_buildIndex(collectionName, index)] *)
Definition _buildIndex (fuel : nat) (storage : MemoryEngine.t) (collectionName : string)
  (ix : Index) : run Index unit :=
  match MemoryEngine.getCollection collectionName storage with
  | None => Done tt ix
  | Some c =>
      HashIndex.for_each
        (fun doc ix =>
           let fieldValue := prop doc (fieldName ix) in
           if strict_eq fieldValue VUndefined then Done tt ix
           else _addToIndex fuel fieldValue (prop doc "_id") ix)
        (JMap.values (MemoryEngine.data c)) ix
  end.

(** [createIndex(collectionName, fieldName, options)] *)
Definition createIndex (fuel : nat) (storage : MemoryEngine.t) (collectionName field : string)
  (options : jsv) (im : t) : run t Index :=
  let type := if truthy (prop options "type") then prop options "type" else VStr "both" in
  let useSharding := negb (strict_eq (prop options "sharded") (VBool false)) in
  let im1 := match SMap.get collectionName im with
             | Some _ => im
             | None => SMap.set collectionName [] im
             end in
  let fields := match SMap.get collectionName im1 with Some f => f | None => [] end in
  match SMap.get field fields with
  | Some _ => Threw "Index already exists" im1
  | None =>
      let ix := mkIndex field
                  (if strict_eq type (VStr "hash") || strict_eq type (VStr "both")
                   then Some (if useSharding then Sharded (ShardedHashIndex.new 16)
                              else Plain (HashIndex.new HashIndex.INITIAL_CAPACITY))
                   else None)
                  (if strict_eq type (VStr "btree") || strict_eq type (VStr "both")
                   then Some (BPlusTree.new BPlusTree.DEFAULT_ORDER) else None)
                  (if truthy (prop options "unique") then prop options "unique" else VBool false)
                  useSharding in
      let im2 := put_index collectionName field im1 ix in
      let* (_, ix') := lift_run (put_index collectionName field im2) (_buildIndex fuel storage collectionName ix) in
      Done (match SMap.get collectionName ix' with
            | Some f => match SMap.get field f with Some i => i | None => ix end
            | None => ix
            end) ix'
  end.

Inductive operation : Type := OpInsert | OpUpdate | OpDelete.

(** One round of the [for] loop of [updateIndexes]. *)
Definition update_one (fuel : nat) (document : jsv) (op : operation) (oldDocument : jsv)
  (ix : Index) : run Index unit :=
  let newValue := prop document (fieldName ix) in
  let oldValue := if truthy oldDocument then prop oldDocument (fieldName ix) else VNull in
  match op with
  | OpInsert | OpUpdate =>
      let* (_, ix1) :=
        match op with
        | OpUpdate =>
            if negb (strict_eq oldValue VUndefined)
            then _removeFromIndex fuel oldValue (prop document "_id") ix
            else Done tt ix
        | _ => Done tt ix
        end in
      if negb (strict_eq newValue VUndefined)
      then _addToIndex fuel newValue (prop document "_id") ix1
      else Done tt ix1
  | OpDelete =>
      if negb (strict_eq newValue VUndefined)
      then _removeFromIndex fuel newValue (prop document "_id") ix
      else Done tt ix
  end.

(** The loop over the fields of one collection, each index object updated
    in place. *)
Fixpoint update_fields (fuel : nat) (document : jsv) (op : operation) (oldDocument : jsv)
  (done todo : list (string * Index)) : run (list (string * Index)) unit :=
  match todo with
  | [] => Done tt done
  | (f, ix) :: rest =>
      match update_one fuel document op oldDocument ix with
      | Done _ ix' => update_fields fuel document op oldDocument (done ++ [(f, ix')]) rest
      | Threw e ix' => Threw e (done ++ (f, ix') :: rest)
      | Blocked ix' => Blocked (done ++ (f, ix') :: rest)
      | OutOfFuel => OutOfFuel
      end
  end.

(** [updateIndexes(collectionName, document, operation, oldDocument)] *)
Definition updateIndexes (fuel : nat) (collectionName : string) (document : jsv)
  (op : operation) (oldDocument : jsv) (im : t) : run t unit :=
  match SMap.get collectionName im with
  | None => Done tt im
  | Some fields =>
      lift_run (fun fields' => SMap.set collectionName fields' im)
               (update_fields fuel document op oldDocument [] fields)
  end.

Definition find_index (collectionName field : string) (im : t) : option Index :=
  match SMap.get collectionName im with
  | Some fields => SMap.get field fields
  | None => None
  end.

(** [hasIndex(collectionName, fieldName)] *)
Definition hasIndex (collectionName field : string) (im : t) : bool :=
  match find_index collectionName field im with
  | Some _ => true
  | None => false
  end.

(** What [lookup] returns: [null], the value stored in the hash index, or
    the [{key, value}] results of a range query. *)
Inductive found : Type :=
| FNull
| FValue (v : jsv)
| FRange (rs : list (jsv * jsv)).

(** [lookup(collectionName, fieldName, value, {type: 'equality'})] *)
Definition lookup_equality (collectionName field : string) (v : jsv) (im : t) : option found :=
  match find_index collectionName field im with
  | None => Some FNull
  | Some ix =>
      match hash ix with
      | Some h => option_map FValue (hash_get v h)
      | None => Some FNull
      end
  end.

(** [lookup(collectionName, fieldName, null, {type: 'range', start, end})].
    The tree is read, not changed. *)
Definition lookup_range (fuel : nat) (collectionName field : string) (start stop : jsv)
  (im : t) : run t found :=
  match find_index collectionName field im with
  | None => Done FNull im
  | Some ix =>
      match btree ix with
      | Some b =>
          match BPlusTree.rangeQuery fuel start stop b with
          | Done rs _ => Done (FRange rs) im
          | Threw e _ => Threw e im
          | Blocked _ => Blocked im
          | OutOfFuel => OutOfFuel
          end
      | None => Done FNull im
      end
  end.

End IndexManager.

(** ** query-engine.js *)

Module QueryEngine.
Import JS.

(** The engine reads the storage and the index manager it was built with;
    its [stats] are never read back. *)
Record t : Type := mk {
  storage : MemoryEngine.t;
  indexes : IndexManager.t
}.

(** The outcome of a step that only reads. *)
Inductive res (A : Type) : Type :=
| Ok (a : A)
| Err (msg : string)
| Stuck
| Fuel.

Arguments Ok {A} a.
Arguments Err {A} msg.
Arguments Stuck {A}.
Arguments Fuel {A}.

Definition bind {A B} (m : res A) (k : A -> res B) : res B :=
  match m with
  | Ok a => k a
  | Err e => Err e
  | Stuck => Stuck
  | Fuel => Fuel
  end.

Inductive plan : Type :=
| FullScan
| IndexRange (indexField : string) (start stop : jsv)
| IndexEquality (indexField : string) (value : jsv).

(** The [for] loop of [_createQueryPlan] over [Object.entries(filter)]. *)
Fixpoint plan_loop (q : t) (collectionName : string) (fs : list (string * jsv)) : res plan :=
  match fs with
  | [] => Ok FullScan
  | (field, value) :: rest =>
      if Obj.starts_with_dollar field then plan_loop q collectionName rest
      else if IndexManager.hasIndex collectionName field (indexes q) then
        if Obj.typeof value =? "object" then
          match value with
          | VNull => Err "TypeError"
          | _ =>
              if negb (strict_eq (prop value "$gte") VUndefined)
                 || negb (strict_eq (prop value "$lte") VUndefined)
              then
                (* estimatedCost = Math.log2(getCollection(..).metadata.documentCount) *)
                match MemoryEngine.getCollection collectionName (storage q) with
                | None => Err "TypeError"
                | Some c =>
                    match MemoryEngine.metadata c with
                    | VUndefined | VNull => Err "TypeError"
                    | _ => Ok (IndexRange field (prop value "$gte") (prop value "$lte"))
                    end
                end
              else Ok (IndexEquality field value)
          end
        else Ok (IndexEquality field value)
      else plan_loop q collectionName rest
  end%string.

(** [_createQueryPlan(collectionName, filter, options)] *)
Definition _createQueryPlan (q : t) (collectionName : string) (filter : jsv) : res plan :=
  match Obj.entries filter with
  | None => Err "TypeError"
  | Some fs => plan_loop q collectionName fs
  end.

(** [_executePlan(collectionName, plan)] *)
Definition _executePlan (fuel : nat) (q : t) (collectionName : string) (p : plan)
  : res (list jsv) :=
  match p with
  | IndexEquality field value =>
      match IndexManager.lookup_equality collectionName field value (indexes q) with
      | None => Err "TypeError"
      | Some IndexManager.FNull => Ok []
      | Some (IndexManager.FRange _) => Ok []
      | Some (IndexManager.FValue docId) =>
          if truthy docId then
            let doc := MemoryEngine.get collectionName docId (storage q) in
            Ok (if truthy doc then [doc] else [])
          else Ok []
      end
  | IndexRange field start stop =>
      match IndexManager.lookup_range fuel collectionName field start stop (indexes q) with
      | Done (IndexManager.FRange rs) _ =>
          Ok (List.filter truthy
                (List.map (fun r => MemoryEngine.get collectionName (snd r) (storage q)) rs))
      | Done _ _ => Err "TypeError"
      | Threw e _ => Err e
      | Blocked _ => Stuck
      | OutOfFuel => Fuel
      end
  | FullScan => Ok (MemoryEngine.scan collectionName (storage q))
  end.

(** [_evaluateComparison(fieldValue, comparison)] over the entries of
    [comparison]. *)
Fixpoint comparison_loop (fieldValue : jsv) (ops : list (string * jsv)) : res bool :=
  match ops with
  | [] => Ok true
  | (op, value) :: rest =>
      if op =? "$eq" then
        if negb (strict_eq fieldValue value) then Ok false else comparison_loop fieldValue rest
      else if op =? "$ne" then
        if strict_eq fieldValue value then Ok false else comparison_loop fieldValue rest
      else if op =? "$gt" then
        if le fieldValue value then Ok false else comparison_loop fieldValue rest
      else if op =? "$gte" then
        if lt fieldValue value then Ok false else comparison_loop fieldValue rest
      else if op =? "$lt" then
        if ge fieldValue value then Ok false else comparison_loop fieldValue rest
      else if op =? "$lte" then
        if gt fieldValue value then Ok false else comparison_loop fieldValue rest
      else if op =? "$in" then
        match Obj.includes value fieldValue with
        | None => Err "TypeError"
        | Some b => if negb b then Ok false else comparison_loop fieldValue rest
        end
      else if op =? "$nin" then
        match Obj.includes value fieldValue with
        | None => Err "TypeError"
        | Some b => if b then Ok false else comparison_loop fieldValue rest
        end
      else if op =? "$exists" then
        if negb (strict_eq (VBool (negb (strict_eq fieldValue VUndefined))) value)
        then Ok false else comparison_loop fieldValue rest
      else Ok true
  end%string.

Definition _evaluateComparison (fieldValue comparison : jsv) : res bool :=
  match Obj.entries comparison with
  | None => Err "TypeError"
  | Some ops => comparison_loop fieldValue ops
  end.

(** One entry of a filter whose key does not start with [$]. *)
Definition field_entry (document : jsv) (k : string) (value : jsv) : res bool :=
  if (Obj.typeof value =? "object")%string && negb (strict_eq value VNull)
  then _evaluateComparison (prop document k) value
  else Ok (strict_eq (prop document k) value).

Fixpoint field_entries (document : jsv) (fs : list (string * jsv)) : res bool :=
  match fs with
  | [] => Ok true
  | (k, value) :: rest =>
      if Obj.starts_with_dollar k then field_entries document rest
      else bind (field_entry document k value)
             (fun b => if b then field_entries document rest else Ok false)
  end.

(** [_matchesFilter(document, filter)] together with [_evaluateOperator].
    Only an object filter can carry [$and], [$or] and [$not]: the keys of
    an array or of a string are indices. *)
Fixpoint _matchesFilter (document : jsv) (filter : jsv) {struct filter} : res bool :=
  match filter with
  | VUndefined | VNull => Err "TypeError"
  | VBool _ | VNum _ => Ok true
  | VArr xs => field_entries document (Obj.indexed 0 xs)
  | VStr s => field_entries document (Obj.indexed 0 (Obj.chars s))
  | VObj kvs =>
      (fix entries_loop (kvs : list (string * jsv)) : res bool :=
         match kvs with
         | [] => Ok true
         | (k, value) :: rest =>
             let verdict :=
               if Obj.starts_with_dollar k then
                 if (k =? "$and")%string then
                   match value with
                   | VArr fs =>
                       (fix every (fs : list jsv) : res bool :=
                          match fs with
                          | [] => Ok true
                          | f :: fs' =>
                              bind (_matchesFilter document f)
                                (fun b => if b then every fs' else Ok false)
                          end) fs
                   | _ => Err "TypeError"
                   end
                 else if (k =? "$or")%string then
                   match value with
                   | VArr fs =>
                       (fix some (fs : list jsv) : res bool :=
                          match fs with
                          | [] => Ok false
                          | f :: fs' =>
                              bind (_matchesFilter document f)
                                (fun b => if b then Ok true else some fs')
                          end) fs
                   | _ => Err "TypeError"
                   end
                 else if (k =? "$not")%string then
                   bind (_matchesFilter document value) (fun b => Ok (negb b))
                 else Ok true
               else field_entry document k value in
             bind verdict (fun b => if b then entries_loop rest else Ok false)
         end) kvs
  end.

(** [_applyFilter(documents, filter)] *)
Fixpoint _applyFilter (documents : list jsv) (filter : jsv) : res (list jsv) :=
  match documents with
  | [] => Ok []
  | d :: rest =>
      bind (_matchesFilter d filter) (fun b =>
        bind (_applyFilter rest filter) (fun ds =>
          Ok (if b then d :: ds else ds)))
  end.

(** The comparator of [_applySort]. *)
Fixpoint sort_compare (sortFields : list (string * jsv)) (a b : jsv) : Z :=
  match sortFields with
  | [] => 0
  | (field, direction) :: rest =>
      let aVal := prop a field in
      let bVal := prop b field in
      if strict_eq aVal bVal then sort_compare rest a b
      else if strict_eq aVal VUndefined then 1
      else if strict_eq bVal VUndefined then -1
      else
        let comparison := if lt aVal bVal then -1 else 1 in
        if strict_eq direction (VNum 1) then comparison else - comparison
  end.

Definition _applySort (documents : list jsv) (sort : jsv) : res (list jsv) :=
  match Obj.entries sort with
  | None => Err "TypeError"
  | Some sortFields => Ok (Obj.sort (sort_compare sortFields) documents)
  end.

(** [_applyProjection(documents, select)] *)
Definition project (select : list jsv) (doc : jsv) : jsv :=
  VObj (fold_left
          (fun projected field =>
             let f := to_string field in
             if Obj.has doc f then Obj.set f (prop doc f) projected else projected)
          select [("_id", prop doc "_id")]).

Definition _applyProjection (documents : list jsv) (select : jsv) : res (list jsv) :=
  match documents with
  | [] => Ok []
  | _ =>
      match Obj.iterate select with
      | None => Err "TypeError"
      | Some fields => Ok (List.map (project fields) documents)
      end
  end.

(** An argument of [slice]: [NaN] counts as [0]. *)
Definition to_integer (v : jsv) : Z :=
  match to_number v with
  | Some z => z
  | None => 0
  end.

(** [execute(collectionName, filter, options)] *)
Definition execute (fuel : nat) (q : t) (collectionName : string) (filter options : jsv)
  : res (list jsv) :=
  bind (_createQueryPlan q collectionName filter) (fun p =>
  bind (_executePlan fuel q collectionName p) (fun results =>
  bind (_applyFilter results filter) (fun results =>
  bind (if truthy (prop options "sort") then _applySort results (prop options "sort")
        else Ok results) (fun results =>
  let results :=
    if truthy (prop options "skip")
    then slice results (to_integer (prop options "skip")) None else results in
  let results :=
    if truthy (prop options "limit")
    then slice results 0 (Some (to_integer (prop options "limit"))) else results in
  if truthy (prop options "select") then _applyProjection results (prop options "select")
  else Ok results)))).

(** [count(collectionName, filter)] *)
Definition count (fuel : nat) (q : t) (collectionName : string) (filter : jsv) : res Z :=
  bind (execute fuel q collectionName filter (VObj [("select", VArr [VStr "_id"])]))
       (fun results => Ok (Z.of_nat (length results))).

End QueryEngine.

(** ** cache.js *)

Module CacheLayer.
Import JS.

Record t : Type := mk {
  maxSize : Z;
  cache : list (string * jsv);
  accessOrder : list string
}.

Definition new (maxSize : Z) : t := mk maxSize [] [].

Fixpoint remove_first (k : string) (l : list string) : list string :=
  match l with
  | [] => []
  | x :: rest => if String.eqb x k then rest else x :: remove_first k rest
  end.

Definition _updateAccessOrder (k : string) (c : t) : t :=
  mk (maxSize c) (cache c) (remove_first k (accessOrder c) ++ [k]).

Definition _evictLRU (c : t) : t :=
  match accessOrder c with
  | [] => c
  | lruKey :: rest => mk (maxSize c) (SMap.remove lruKey (cache c)) rest
  end.

Definition has (k : string) (c : t) : bool :=
  match SMap.get k (cache c) with
  | Some _ => true
  | None => false
  end.

(** [get(key)] *)
Definition get (k : string) (c : t) : jsv * t :=
  match SMap.get k (cache c) with
  | None => (VNull, c)
  | Some v => (v, _updateAccessOrder k c)
  end.

(** [set(key, value)] *)
Definition set (k : string) (v : jsv) (c : t) : t :=
  let c1 :=
    if (maxSize c <=? Z.of_nat (length (cache c))) && negb (has k c)
    then _evictLRU c else c in
  _updateAccessOrder k (mk (maxSize c1) (SMap.set k v (cache c1)) (accessOrder c1)).

(** [invalidate(key)] *)
Definition invalidate (k : string) (c : t) : t :=
  mk (maxSize c) (SMap.remove k (cache c)) (remove_first k (accessOrder c)).

End CacheLayer.

(** ** core/database.js *)

Module GhostDB.
Import JS.

(** The database object.  [memoryEngine], [indexManager] and [queryEngine]
    share the collections and the indexes; persistence, backup, logging,
    events and the [stats] counters do not influence any result below.

    An index update that a mutation starts without awaiting it is run to
    its end (or to the lock it hangs on) before the mutation returns. *)
Record t : Type := mk {
  cache : option CacheLayer.t;
  collections : MemoryEngine.t;
  indexManager : IndexManager.t;
  isInitialized : bool
}.

(** [new GhostDB(options)] *)
Definition new (options : jsv) : t :=
  let enableCache := negb (strict_eq (prop options "enableCache") (VBool false)) in
  let cacheSize := if truthy (prop options "cacheSize") then prop options "cacheSize" else VNum 100 in
  mk (if enableCache then Some (CacheLayer.new (QueryEngine.to_integer cacheSize)) else None)
     [] [] false.

(** [initialize()] when the persistence layer has nothing to load. *)
Definition initialize (db : t) : run t bool :=
  if isInitialized db then Threw "Database already initialized" db
  else Done true (mk (cache db) (collections db) (indexManager db) true).

Definition set_cache (c : option CacheLayer.t) (db : t) : t :=
  mk c (collections db) (indexManager db) (isInitialized db).
Definition set_collections (m : MemoryEngine.t) (db : t) : t :=
  mk (cache db) m (indexManager db) (isInitialized db).
Definition set_indexManager (im : IndexManager.t) (db : t) : t :=
  mk (cache db) (collections db) im (isInitialized db).

Definition queryEngine (db : t) : QueryEngine.t :=
  QueryEngine.mk (collections db) (indexManager db).

Definition invalidate (k : string) (db : t) : t :=
  match cache db with
  | Some c => set_cache (Some (CacheLayer.invalidate k c)) db
  | None => db
  end.

(** An un-awaited [indexManager.updateIndexes(...)]. *)
Definition fire_updateIndexes (fuel : nat) (collectionName : string) (document : jsv)
  (op : IndexManager.operation) (oldDocument : jsv) (db : t) : option t :=
  match IndexManager.updateIndexes fuel collectionName document op oldDocument (indexManager db) with
  | OutOfFuel => None
  | r => Some (set_indexManager (settled (indexManager db) r) db)
  end.

(** [createIndex(collectionName, field, options)] *)
Definition createIndex (fuel : nat) (collectionName field : string) (options : jsv) (db : t)
  : run t unit :=
  match MemoryEngine.getCollection collectionName (collections db) with
  | None => Threw "Collection does not exist" db
  | Some _ =>
      lift_run (fun im => set_indexManager im db)
        (void (IndexManager.createIndex fuel (collections db) collectionName field options
                 (indexManager db)))
  end.

(** [createCollection(name, schema)]; the indexes listed in the schema are
    created without being awaited. *)
Definition createCollection (fuel : nat) (nm : string) (schema : jsv) (db : t) : run t unit :=
  match MemoryEngine.getCollection nm (collections db) with
  | Some _ => Threw "Collection already exists" db
  | None =>
      let db1 := set_collections
                   (SMap.set nm (MemoryEngine.mkCollection nm schema []) (collections db)) db in
      if truthy (prop schema "indexes") then
        match prop schema "indexes" with
        | VArr defs =>
            HashIndex.for_each
              (fun indexDef db =>
                 let options := match prop indexDef "options" with
                                | VUndefined => VObj []
                                | o => o
                                end in
                 match createIndex fuel nm (to_string (prop indexDef "field")) options db with
                 | OutOfFuel => OutOfFuel
                 | r => Done tt (settled db r)
                 end)
              defs db1
        | _ => Threw "TypeError" db1
        end
      else Done tt db1
  end.

(** [_validateDocument(schema, document)]; [Some msg] is the error
    thrown. *)
Definition _validateDocument (schema document : jsv) : option string :=
  let required_error :=
    if truthy (prop schema "required") then
      match Obj.iterate (prop schema "required") with
      | None => Some "TypeError"
      | Some fields =>
          if forallb (fun f => Obj.has document (to_string f)) fields then None
          else Some "Required field is missing"
      end
    else None in
  match required_error with
  | Some e => Some e
  | None =>
      if truthy (prop schema "fields") then
        match Obj.entries (prop schema "fields") with
        | None => Some "TypeError"
        | Some fs =>
            if forallb (fun ft => negb (Obj.has document (fst ft)
                                        && negb (strict_eq (VStr (Obj.typeof (prop document (fst ft))))
                                                   (snd ft)))) fs
            then None else Some "Field has the wrong type"
        end
      else None
  end.

Definition doc_key (collectionName : string) (id : jsv) : string :=
  (collectionName ++ ":" ++ to_string id)%string.

(** [insert(collectionName, document)].  [now] is the value of
    [Date.now()] and [freshId] the identifier [_generateId()] returns. *)
Definition insert (fuel : nat) (now : Z) (freshId : string) (collectionName : string)
  (document : list (string * jsv)) (db : t) : run t jsv :=
  if negb (isInitialized db) then Threw "Database not initialized" db
  else
    match MemoryEngine.getCollection collectionName (collections db) with
    | None => Threw "Collection does not exist" db
    | Some collection =>
        match _validateDocument (MemoryEngine.schema collection) (VObj document) with
        | Some e => Threw e db
        | None =>
            let d1 := if truthy (prop (VObj document) "id") then document
                      else Obj.set "id" (VStr freshId) document in
            let d2 := Obj.set "_id" (prop (VObj d1) "id") d1 in
            let d3 := Obj.set "_createdAt" (VNum now) d2 in
            let d4 := Obj.set "_updatedAt" (VNum now) d3 in
            let doc := VObj d4 in
            let collection1 :=
              MemoryEngine.set_data
                (JMap.set (prop doc "id") doc (MemoryEngine.data collection)) collection in
            let db1 := set_collections (SMap.set collectionName collection1 (collections db)) db in
            match fire_updateIndexes fuel collectionName doc IndexManager.OpInsert VNull db1 with
            | None => OutOfFuel
            | Some db2 => Done doc (invalidate (doc_key collectionName (prop doc "id")) db2)
            end
        end
    end.

Definition find_key (collectionName : string) (query : jsv) : string :=
  ("find:" ++ collectionName ++ ":" ++ Obj.interpolate (Obj.stringify query))%string.

(** [find(collectionName, query, options)] *)
Definition find (fuel : nat) (collectionName : string) (query options : jsv) (db : t)
  : run t jsv :=
  if negb (isInitialized db) then Threw "Database not initialized" db
  else
    let cacheKey := find_key collectionName query in
    let '(cached, db1) :=
      match cache db with
      | Some c => let '(v, c') := CacheLayer.get cacheKey c in (v, set_cache (Some c') db)
      | None => (VNull, db)
      end in
    if truthy cached then Done cached db1
    else
      match MemoryEngine.getCollection collectionName (collections db1) with
      | None => Threw "Collection does not exist" db1
      | Some _ =>
          match QueryEngine.execute fuel (queryEngine db1) collectionName query options with
          | QueryEngine.Err e => Threw e db1
          | QueryEngine.Stuck => Blocked db1
          | QueryEngine.Fuel => OutOfFuel
          | QueryEngine.Ok results =>
              let db2 := match cache db1 with
                         | Some c => set_cache (Some (CacheLayer.set cacheKey (VArr results) c)) db1
                         | None => db1
                         end in
              Done (VArr results) db2
          end
      end.

(** [findOne(collectionName, query)] *)
Definition findOne (fuel : nat) (collectionName : string) (query : jsv) (db : t) : run t jsv :=
  let* (results, db1) := find fuel collectionName query (VObj [("limit", VNum 1)]) db in
  let first := match results with
               | VArr (d :: _) => d
               | VStr s => match Obj.chars s with c :: _ => c | [] => VUndefined end
               | _ => prop results "0"
               end in
  Done (if truthy first then first else VNull) db1.


(** The body of the [for] loop of [update]. *)
Definition update_one (fuel : nat) (now : Z) (collectionName : string) (updates doc : jsv)
  (db : t) : run t jsv :=
  let updated := VObj (Obj.set "_updatedAt" (VNum now) (Obj.spread (Obj.own doc) (Obj.own updates))) in
  match MemoryEngine.getCollection collectionName (collections db) with
  | None => Threw "Collection does not exist" db
  | Some collection =>
      let collection1 :=
        MemoryEngine.set_data
          (JMap.set (prop doc "id") updated (MemoryEngine.data collection)) collection in
      let db1 := set_collections (SMap.set collectionName collection1 (collections db)) db in
      match fire_updateIndexes fuel collectionName updated IndexManager.OpUpdate doc db1 with
      | None => OutOfFuel
      | Some db2 => Done updated (invalidate (doc_key collectionName (prop doc "id")) db2)
      end
  end.



(** The body of the [for] loop of [delete]; [collection.data] is the map
    of the collection object read before the loop, which stays registered
    under its name. *)
Definition delete_one (fuel : nat) (collectionName : string) (doc : jsv) (db : t) : run t unit :=
  match MemoryEngine.getCollection collectionName (collections db) with
  | None => Threw "Collection does not exist" db
  | Some collection =>
      let collection1 :=
        MemoryEngine.set_data (JMap.remove (prop doc "id") (MemoryEngine.data collection))
          collection in
      let db1 := set_collections (SMap.set collectionName collection1 (collections db)) db in
      match fire_updateIndexes fuel collectionName doc IndexManager.OpDelete VNull db1 with
      | None => OutOfFuel
      | Some db2 => Done tt (invalidate (doc_key collectionName (prop doc "id")) db2)
      end
  end.

(** [delete(collectionName, query)] *)
Definition delete (fuel : nat) (collectionName : string) (query : jsv) (db : t) : run t Z :=
  let* (documents, db1) := find fuel collectionName query (VObj []) db in
  match MemoryEngine.getCollection collectionName (collections db1) with
  | None => Threw "Collection does not exist" db1
  | Some _ =>
      match Obj.iterate documents with
      | None => Threw "TypeError" db1
      | Some docs =>
          let* (_, db2) := HashIndex.for_each (delete_one fuel collectionName) docs db1 in
          Done (Z.of_nat (length docs)) db2
      end
  end.

(** [queryEngine.count(collectionName, filter)] on the current state. *)
Definition count (fuel : nat) (collectionName : string) (filter : jsv) (db : t)
  : QueryEngine.res Z :=
  QueryEngine.count fuel (queryEngine db) collectionName filter.

End GhostDB.

(** ** core/transaction.js: Transaction and TransactionManager *)

Module Transaction.

Inductive Status : Type := Active | Committed | Aborted.

Section World.
(** The state the operations of a transaction act on.  An operation is the
    [execute] method of an object the caller has built; it is taken not to
    reach the transaction it belongs to. *)
Context {W : Type}.

(** [Transaction].  [snapshot] is never written and stays empty;
    [memoryEngine] and [startTime] are never read. *)
Record t : Type := mk {
  id : Z;
  operations : list (W -> run W unit);
  status : Status
}.

Definition new (id : Z) : t := mk id [] Active.

(** [`Transaction ${this.id} is not active`] *)
Definition not_active (tx : t) : string :=
  "Transaction " ++ JS.Z_to_string (id tx) ++ " is not active".

Definition set_status (s : Status) (tx : t) : t := mk (id tx) (operations tx) s.

Definition is_active (tx : t) : bool :=
  match status tx with
  | Active => true
  | _ => false
  end.

(** [rollback()]: the loop over the empty [snapshot] restores nothing. *)
Definition rollback (tx : t) : run t bool :=
  if is_active tx then Done true (set_status Aborted tx)
  else Threw (not_active tx) tx.

(** [commit()]: the operations run in order; when one throws, [rollback()]
    is awaited and the error is thrown again. *)
Definition commit (tx : t) (w : W) : run (t * W) bool :=
  if is_active tx then
    match HashIndex.for_each (fun op w => op w) (operations tx) w with
    | Done _ w' => Done true (set_status Committed tx, w')
    | Threw e w' =>
        match rollback tx with
        | Done _ tx' => Threw e (tx', w')
        | Threw e' tx' => Threw e' (tx', w')
        | Blocked tx' => Blocked (tx', w')
        | OutOfFuel => OutOfFuel
        end
    | Blocked w' => Blocked (tx, w')
    | OutOfFuel => OutOfFuel
    end
  else Threw (not_active tx) (tx, w).

(** [addOperation(operation)] *)
Definition addOperation (op : W -> run W unit) (tx : t) : run t unit :=
  if is_active tx then Done tt (mk (id tx) (operations tx ++ [op]) (status tx))
  else Threw (not_active tx) tx.

End World.
Arguments t : clear implicits.

End Transaction.

Module TransactionManager.

Section World.
Context {W : Type}.

(** [TransactionManager].  [objects] holds every transaction object that
    [begin] has created, by its id: the caller keeps the object [begin]
    returned, and the [transactions] map refers to the same object.
    [registered] lists the keys of that map. *)
Record t : Type := mk {
  objects : list (Z * Transaction.t W);
  registered : list Z;
  nextId : Z
}.

Definition new : t := mk [] [] 1.

(** [`Transaction ${transactionId} not found`] *)
Definition not_found (id : Z) : string :=
  "Transaction " ++ JS.Z_to_string id ++ " not found".

Fixpoint lookup (id : Z) (os : list (Z * Transaction.t W)) : option (Transaction.t W) :=
  match os with
  | [] => None
  | (i, tx) :: rest => if i =? id then Some tx else lookup id rest
  end.

Fixpoint store (id : Z) (tx : Transaction.t W) (os : list (Z * Transaction.t W))
  : list (Z * Transaction.t W) :=
  match os with
  | [] => [(id, tx)]
  | (i, old) :: rest => if i =? id then (i, tx) :: rest else (i, old) :: store id tx rest
  end.

Definition is_registered (id : Z) (m : t) : bool := existsb (Z.eqb id) (registered m).

(** [begin()]: the id of the transaction it returns, and the manager. *)
Definition begin (m : t) : Z * t :=
  let id := nextId m in
  (id, mk (store id (Transaction.new id) (objects m))
          (if is_registered id m then registered m else registered m ++ [id])
          (id + 1)).

(** [getTransaction(id)] *)
Definition getTransaction (id : Z) (m : t) : option (Transaction.t W) :=
  if is_registered id m then lookup id (objects m) else None.

Definition unregister (id : Z) (m : t) : t :=
  mk (objects m) (List.filter (fun i => negb (i =? id)) (registered m)) (nextId m).

Definition put (id : Z) (m : t) (tx : Transaction.t W) : t :=
  mk (store id tx (objects m)) (registered m) (nextId m).

(** [commit(transactionId)] *)
Definition commit (id : Z) (m : t) (w : W) : run (t * W) unit :=
  match getTransaction id m with
  | None => Threw (not_found id) (m, w)
  | Some tx =>
      match Transaction.commit tx w with
      | Done _ (tx', w') => Done tt (unregister id (put id m tx'), w')
      | Threw e (tx', w') => Threw e (put id m tx', w')
      | Blocked (tx', w') => Blocked (put id m tx', w')
      | OutOfFuel => OutOfFuel
      end
  end.

(** [rollback(transactionId)] *)
Definition rollback (id : Z) (m : t) : run t unit :=
  match getTransaction id m with
  | None => Threw (not_found id) m
  | Some tx =>
      match Transaction.rollback tx with
      | Done _ tx' => Done tt (unregister id (put id m tx'))
      | Threw e tx' => Threw e (put id m tx')
      | Blocked tx' => Blocked (put id m tx')
      | OutOfFuel => OutOfFuel
      end
  end.

(** The caller's handle: the transaction object with id [id], whether the
    manager still lists it or not. *)
Definition handle (id : Z) (m : t) : option (Transaction.t W) := lookup id (objects m).

(** [tx.addOperation(op)] through the handle. *)
Definition addOperation (id : Z) (op : W -> run W unit) (m : t) : run t unit :=
  match handle id m with
  | None => Threw "TypeError" m
  | Some tx => lift_run (put id m) (Transaction.addOperation op tx)
  end.

(** Every id in use is below [nextId]. *)
Definition fresh (m : t) : Prop :=
  (forall id tx, In (id, tx) (objects m) -> id < nextId m)
  /\ (forall id, In id (registered m) -> id < nextId m).

End World.
Arguments t : clear implicits.

End TransactionManager.

(** ** Concrete runs used below *)

Module Scenarios.
Import JS.

Definition after {S A} (m : run S A) : option S :=
  match m with
  | Done _ s => Some s
  | _ => None
  end.

Definition result_of {S A} (m : run S A) : option A :=
  match m with
  | Done a _ => Some a
  | _ => None
  end.

Definition and_then {S A} (s : option S) (f : S -> run S A) : option S :=
  match s with
  | Some x => after (f x)
  | None => None
  end.

Definition observe {S A} (s : option S) (f : S -> A) : option A := option_map f s.

Definition ask {S A} (s : option S) (f : S -> run S A) : option A :=
  match s with
  | Some x => result_of (f x)
  | None => None
  end.

(** A fresh, initialised database with the default options (cache on) and
    one collection [C] without schema. *)
Definition fresh_db : option GhostDB.t :=
  and_then (and_then (Some (GhostDB.new (VObj []))) GhostDB.initialize)
           (GhostDB.createCollection 10 "C" (VObj [])).

Definition index_pairs (field : string) (db : GhostDB.t) : list (jsv * jsv) :=
  match IndexManager.find_index "C" field (GhostDB.indexManager db) with
  | Some ix =>
      match IndexManager.hash ix with
      | Some (IndexManager.Sharded s) => ShardedHashIndex.pairs s
      | Some (IndexManager.Plain h) => HashIndex.pairs h
      | None => []
      end
  | None => []
  end.

Definition tree_pairs (field : string) (db : GhostDB.t) : option (list (jsv * jsv)) :=
  match IndexManager.find_index "C" field (GhostDB.indexManager db) with
  | Some ix =>
      match IndexManager.btree ix with
      | Some b => BPlusTree.stored 10 b
      | None => None
      end
  | None => None
  end.

Definition live_pairs (field : string) (db : GhostDB.t) : list (jsv * jsv) :=
  List.map (fun d => (prop d field, prop d "id"))
    (List.filter (fun d => Obj.has d field) (MemoryEngine.scan "C" (GhostDB.collections db))).

(** Index on [u] with the default options, then two documents that share
    the value ["a"], then the first of them deleted. *)
Definition shared_indexed : option GhostDB.t :=
  and_then fresh_db (GhostDB.createIndex 10 "C" "u" (VObj [])).
Definition shared_one : option GhostDB.t :=
  and_then shared_indexed (GhostDB.insert 10 1000 "id1" "C" [("u", VStr "a")]).
Definition shared_two : option GhostDB.t :=
  and_then shared_one (GhostDB.insert 10 1001 "id2" "C" [("u", VStr "a")]).
Definition shared_deleted : option GhostDB.t :=
  and_then shared_two (GhostDB.delete 10 "C" (VObj [("id", VStr "id1")])).

(** Index on [u] created with [unique: true]. *)
Definition unique_indexed : option GhostDB.t :=
  and_then fresh_db (GhostDB.createIndex 10 "C" "u" (VObj [("unique", VBool true)])).
Definition unique_first : run GhostDB.t jsv :=
  match unique_indexed with
  | Some db => GhostDB.insert 10 1000 "id1" "C" [("u", VStr "a")] db
  | None => OutOfFuel
  end.
Definition unique_second : run GhostDB.t jsv :=
  match after unique_first with
  | Some db => GhostDB.insert 10 1001 "id2" "C" [("u", VStr "a")] db
  | None => OutOfFuel
  end.

(** A query, then a mutation, then the same query again. *)
Definition stale_query : jsv := VObj [("x", VNum 1)].
Definition stale_first : run GhostDB.t jsv :=
  match fresh_db with
  | Some db => GhostDB.find 10 "C" stale_query (VObj []) db
  | None => OutOfFuel
  end.
Definition stale_inserted : option GhostDB.t :=
  and_then (after stale_first) (GhostDB.insert 10 1000 "id1" "C" [("x", VNum 1)]).
Definition stale_second : run GhostDB.t jsv :=
  match stale_inserted with
  | Some db => GhostDB.find 10 "C" stale_query (VObj []) db
  | None => OutOfFuel
  end.

(** An ordered index on [t] and the filter [{t: {$gt: 1}}]. *)
Definition range_db : option GhostDB.t :=
  and_then (and_then fresh_db (GhostDB.createIndex 10 "C" "t" (VObj [("type", VStr "btree")])))
           (GhostDB.insert 10 1000 "id1" "C" [("t", VNum 5)]).
Definition gt_filter : jsv := VObj [("t", VObj [("$gt", VNum 1)])].
Definition gte_filter : jsv := VObj [("t", VObj [("$gte", VNum 1)])].

(** B+ trees of order 4. *)
Definition tree_of (order : Z) (ks : list Z) : option BPlusTree.t :=
  fold_left (fun tr k => and_then tr (BPlusTree.insert 20 (VNum k) (VStr "x")))
            ks (Some (BPlusTree.new order)).

Definition tree2 : option BPlusTree.t := tree_of 4 [1; 2].
Definition tree9 : option BPlusTree.t :=
  tree_of 4 [500; 100; 900; 300; 700; 200; 800; 400; 600].

Definition unwrap_tree (o : option BPlusTree.t) : BPlusTree.t :=
  match o with
  | Some tr => tr
  | None => BPlusTree.new 4
  end.

Definition tree3 : BPlusTree.t := unwrap_tree (tree_of 4 [1; 2; 3]).

(** Hash tables with a few string keys. *)
Definition table_of (capacity : Z) (ks : list string) : option HashIndex.t :=
  fold_left (fun h k => and_then h (HashIndex.insert 20 (VStr k) (VStr "x")))
            ks (Some (HashIndex.new capacity)).

Definition table_k0_k7_k14 : option HashIndex.t := table_of 8 ["k0"; "k7"; "k14"].

(** The keys and probe lengths stored in each bucket. *)
Definition layout (h : HashIndex.t) : list (list (jsv * Z)) :=
  List.map (fun b => List.map (fun e => (HashIndex.key e, HashIndex.psl e))
                       (HashIndex.entries b))
           (HashIndex.buckets h).

Definition table12 : option HashIndex.t :=
  table_of 16 ["k0"; "k1"; "k2"; "k3"; "k4"; "k5"; "k6"; "k7"; "k8"; "k9"; "k10"; "k11"].

Definition unwrap (o : option HashIndex.t) : HashIndex.t :=
  match o with
  | Some h => h
  | None => HashIndex.new 1
  end.

Definition table13 : HashIndex.t :=
  unwrap (and_then table12 (HashIndex.insert 20 (VStr "k12") (VStr "x"))).
Definition table14 : HashIndex.t :=
  unwrap (after (HashIndex.insert 40 (VStr "k13") (VStr "x") table13)).

Definition table_k0 : HashIndex.t := unwrap (table_of 8 ["k0"]).

(** Two documents and no index; a database over them with the cache on. *)
Definition two_documents : QueryEngine.t :=
  QueryEngine.mk
    [("C", MemoryEngine.mkCollection "C" (VObj [])
             [(VStr "a", VObj [("id", VStr "a")]); (VStr "b", VObj [("id", VStr "b")])])]
    [].

Definition cached_db : GhostDB.t :=
  GhostDB.mk (Some (CacheLayer.new 100)) (QueryEngine.storage two_documents) [] true.

Definition cached_db_after_find : GhostDB.t :=
  settled cached_db (GhostDB.find 10 "C" (VObj []) (VObj []) cached_db).

Definition shape (h : HashIndex.t) : Z * Z * Z :=
  (HashIndex.capacity h, HashIndex.size h, HashIndex.resizes h).

End Scenarios.

(** ** The landing place of a key that displaces nothing *)

Module Probe.
Import JS HashIndex.

(** The bucket reached after [d] steps of linear probing from [idx]. *)
Fixpoint landing (h : t) (d : nat) (idx : Z) : Z :=
  match d with
  | O => idx
  | S d' => landing h d' (mask h (idx + 1))
  end.

(** A bucket that [insert] and [delete] both walk past when they carry
    probe length [p] for key [k]: free lock, occupied, no entry with key
    [k], no entry poorer than the probe. *)
Definition passes (k : jsv) (p : Z) (b : HashBucket) : bool :=
  negb (locked b)
  && match entries b with [] => false | _ :: _ => true end
  && forallb (fun e => negb (strict_eq (key e) k) && negb (psl e <? p)) (entries b).

Definition vacant (b : HashBucket) : bool :=
  negb (locked b) && match entries b with [] => true | _ :: _ => false end.

(** What [_backwardShift] stops at: an empty bucket or an entry at its
    ideal position. *)
Definition shift_stops (b : HashBucket) : bool :=
  match entries b with
  | [] => true
  | e :: _ => psl e =? 0
  end.

(** The probe for [k], started at [idx] with probe length [p], walks past
    [d] buckets and then finds a vacant one whose successor stops the
    backward shift. *)
Fixpoint lands (h : t) (k : jsv) (d : nat) (p idx : Z) : bool :=
  match d with
  | O =>
      match bucket_at h idx, bucket_at h (mask h (idx + 1)) with
      | Some b, Some b' => vacant b && shift_stops b'
      | _, _ => false
      end
  | S d' =>
      match bucket_at h idx with
      | Some b => passes k p b && lands h k d' (p + 1) (mask h (idx + 1))
      | None => false
      end
  end.

(** The table once [entry] has been put, with probe length [p], into the
    vacant bucket [idx]. *)
Definition place (h : t) (idx p : Z) (entry : Entry) : t :=
  let h1 := set_bucket idx (mkBucket [set_psl p entry] false) h in
  let h2 := set_size (size h1 + 1) h1 in
  if maxProbeLength h2 <? p then set_maxProbeLength p h2 else h2.

(** The table [delete] returns once it has found [k] where it landed. *)
Definition removed (h : t) (L pp : Z) (entry : Entry) : t :=
  let h1 := place h L pp entry in
  mk (capacity h1) (size h1 - 1) (buckets h) (resizeLocked h1) (maxProbeLength h1) (resizes h1).

(** Tables as the constructor and [insert] build them: a power-of-two
    number of buckets, no lock held, at most one entry per bucket, and
    [size] counting the occupied buckets. *)
Definition occupied (b : HashBucket) : bool :=
  match entries b with
  | [] => false
  | _ :: _ => true
  end.

Fixpoint occupancy (bs : list HashBucket) : nat :=
  match bs with
  | [] => 0
  | b :: rest => ((if occupied b then 1 else 0) + occupancy rest)%nat
  end.

Definition tidy (b : HashBucket) : Prop :=
  locked b = false /\ (length (entries b) <= 1)%nat.

Definition sound (h : t) : Prop :=
  (exists n : nat, capacity h = 2 ^ Z.of_nat n)
  /\ Z.of_nat (length (buckets h)) = capacity h
  /\ Forall tidy (buckets h)
  /\ size h = Z.of_nat (occupancy (buckets h)).

(** What an operation leaves of the table parameters. *)
Definition same_shape (h h' : t) : Prop :=
  capacity h' = capacity h /\ resizes h' = resizes h /\ resizeLocked h' = resizeLocked h.

Definition leaves {A} (P : t -> Prop) (r : run t A) : Prop :=
  match r with
  | Done _ s | Threw _ s | Blocked s => P s
  | OutOfFuel => True
  end.

(** What one run of the probing loop keeps. *)
Definition kept (h h' : t) : Prop :=
  same_shape h h' /\ sound h'
  /\ (occupancy (buckets h') <= occupancy (buckets h) + 1)%nat.

End Probe.

(** ** What a split leaves in place *)

Module Split.
Import JS BPlusTree.

(** Every leaf of [tr] is still there in [tr'] with the same keys, values
    and [next]. *)
Definition leaf_kept (tr tr' : t) : Prop :=
  forall id n,
    node_at tr id = Some n -> isLeaf n = true ->
    exists n', node_at tr' id = Some n'
               /\ keys n' = keys n /\ data n' = data n /\ next n' = next n.

(** [x] is a key of some internal node. *)
Definition separator (x : jsv) (tr : t) : Prop :=
  exists id n, node_at tr id = Some n /\ isLeaf n = false /\ In x (keys n).

Definition grows (tr tr' : t) : Prop :=
  leaf_kept tr tr' /\ (forall x, separator x tr -> separator x tr').


End Split.

(** ** Vocabulary of the further properties *)

(** *** Hash tables *)

Module Table.
Import JS HashIndex Probe.

(** The probe for [k], started at [idx] with probe length [p], walks past
    [d] buckets and then finds a vacant one. *)
Fixpoint arrives (h : t) (k : jsv) (d : nat) (p idx : Z) : bool :=
  match d with
  | O =>
      match bucket_at h idx with
      | Some b => vacant b
      | None => false
      end
  | S d' =>
      match bucket_at h idx with
      | Some b => passes k p b && arrives h k d' (p + 1) (mask h (idx + 1))
      | None => false
      end
  end.

(** The number of entries a table holds, bucket by bucket. *)
Definition entry_count (h : t) : nat := length (all_entries (buckets h)).

(** What the backward shift and the unlocking keep of a table. *)
Definition steady (h h' : t) : Prop :=
  capacity h' = capacity h /\ size h' = size h
  /\ maxProbeLength h' = maxProbeLength h
  /\ length (buckets h') = length (buckets h)
  /\ entry_count h' = entry_count h.

End Table.

(** *** Leaves of the B+ tree *)

Module Leaf.
Import JS BPlusTree.

(** The keys below [k] come first: once a key is not below [k], no later
    key is.  Every array in ascending order is of this kind. *)
Definition partitioned (ks : list jsv) (k : jsv) : Prop :=
  forall i j a b,
    (i < j)%nat -> ks !! i = Some a -> ks !! j = Some b ->
    lt a k = false -> lt b k = false.

(** Numbers in strictly ascending order. *)
Definition ascending (zs : list Z) : Prop :=
  forall i j a b, (i < j)%nat -> zs !! i = Some a -> zs !! j = Some b -> a < b.

(** The pair [(k, v)] sits in some leaf of [tr], [v] at the position of
    [k]. *)
Definition held (tr : t) (kv : jsv * jsv) : Prop :=
  exists id l vs i,
    node_at tr id = Some l /\ data l = LeafData vs
    /\ keys l !! i = Some (fst kv) /\ snd kv = elem vs i.

(** The key of the pair lies between the bounds, as [rangeQuery] compares
    them. *)
Definition within (startKey endKey : jsv) (kv : jsv * jsv) : Prop :=
  ge (fst kv) startKey = true /\ gt (fst kv) endKey = false.

(** A tree that has not split yet: its root is a leaf and its only node.
    [new BPlusTree(order)] is [single order [] [] 0]. *)
Definition single (ord : Z) (ks vs : list jsv) (sz : Z) : t :=
  mk ord [mkNode ord ks (LeafData vs) None None false] 0%nat 0%nat sz false.

(** The test [pos < leaf.keys.length && leaf.keys[pos] === key]. *)
Definition present (ks : list jsv) (k : jsv) : bool :=
  (findKeyPosition ks k <? length ks)%nat && strict_eq (elem ks (findKeyPosition ks k)) k.

(** What [search] reads in one leaf. *)
Definition leaf_lookup (ks vs : list jsv) (k : jsv) : jsv :=
  if present ks k then elem vs (findKeyPosition ks k) else VNull.

(** The tree after its first split: the two halves of the leaf that held
    [ks] and [vs], under a new root. *)
Definition split_root (ord : Z) (ks vs : list jsv) (sz : Z) : t :=
  let mid := (length ks / 2)%nat in
  mk ord
     [mkNode ord (firstn mid ks) (LeafData (firstn mid vs)) (Some 1%nat) (Some 2%nat) false;
      mkNode ord (skipn mid ks) (LeafData (skipn mid vs)) None (Some 2%nat) false;
      mkNode ord [elem (skipn mid ks) 0] (InternalData [0%nat; 1%nat]) None None false]
     2%nat 0%nat sz false.

(** The keys and the values of a leaf once [z] and [v] have entered it at
    the lower bound of [z]. *)
Definition with_key (zs : list Z) (z : Z) : list Z :=
  splice_in (findKeyPosition (List.map VNum zs) (VNum z)) z zs.

Definition with_value (zs : list Z) (z : Z) (v : jsv) (vs : list jsv) : list jsv :=
  splice_in (findKeyPosition (List.map VNum zs) (VNum z)) v vs.

(** A list without its element at position [i]. *)
Definition without {A} (i : nat) (l : list A) : list A := firstn i l ++ skipn (S i) l.

End Leaf.

(** *** The cache *)

Module Lru.
Import JS CacheLayer.

Definition keys (c : t) : list string := List.map fst (cache c).

(** The cache as the operations keep it: a [Map] holds a key once, and
    [accessOrder] lists exactly the keys of the map, each once. *)
Definition wf (c : t) : Prop :=
  List.NoDup (keys c) /\ List.NoDup (accessOrder c)
  /\ (forall k, In k (accessOrder c) <-> In k (keys c)).

(** [size()] *)
Definition size (c : t) : Z := Z.of_nat (length (cache c)).

End Lru.

(** *** Queries *)

Module Page.
Import JS.


End Page.

Module Ordering.
Import JS.

(** The number a document holds under [f] (0 when it holds none). *)
Definition field_number (f : string) (d : jsv) : Z :=
  match prop d f with
  | VNum n => n
  | _ => 0
  end.

Definition has_number (f : string) (d : jsv) : Prop := exists n, prop d f = VNum n.

(** The order [_applySort] produces for the direction [dir]: ascending for
    the number 1, descending for anything else. *)
Definition in_order (f : string) (dir : jsv) (a b : jsv) : Prop :=
  if strict_eq dir (VNum 1) then field_number f a <= field_number f b
  else field_number f b <= field_number f a.

(** [a] goes strictly before [b]. *)
Definition before (f : string) (dir : jsv) (a b : jsv) : bool :=
  if strict_eq dir (VNum 1) then field_number f a <? field_number f b
  else field_number f b <? field_number f a.


End Ordering.

(** *** The database *)

Module Db.
Import JS.



(** The document [insert] stores and returns: the given one with its
    identifier, the [_id] alias and the two time stamps. *)
Definition stamped (now : Z) (freshId : string) (document : list (string * jsv))
  : list (string * jsv) :=
  let d1 := if truthy (prop (VObj document) "id") then document
            else Obj.set "id" (VStr freshId) document in
  let d2 := Obj.set "_id" (prop (VObj d1) "id") d1 in
  let d3 := Obj.set "_createdAt" (VNum now) d2 in
  Obj.set "_updatedAt" (VNum now) d3.

(** A database without cache over the two documents of
    [Scenarios.two_documents]. *)
Definition plain_db : GhostDB.t :=
  GhostDB.mk None (QueryEngine.storage Scenarios.two_documents) [] true.

(** An initialised database without collections. *)
Definition empty_db : GhostDB.t := GhostDB.mk (Some (CacheLayer.new 100)) [] [] true.

End Db.

(** *** Transactions over a counter *)

Module Ledger.

Definition bump (w : Z) : run Z unit := Done tt (w + 1).

Definition boom (w : Z) : run Z unit := Threw "boom" (w + 10).

(** A manager with one transaction, id 1, holding the given operations. *)
Definition manager_with (ops : list (Z -> run Z unit)) : TransactionManager.t Z :=
  TransactionManager.mk [(1, Transaction.mk 1 ops Transaction.Active)] [1] 2.

End Ledger.

(** * Properties *)

Section ConcreteRuns.
Import JS Scenarios.

(** C1.  The index entries are not the (value, id) pairs of the live
    documents when two documents share a value: after inserting [id1] and
    [id2], both with [u = "a"], the hash index and the B+ tree each hold the
    single pair [("a", id2)]; deleting [id1] then removes that pair, so the
    live document [id2] has no entry at all. *)
Theorem shared_value_loses_index_entries :
  observe shared_two (live_pairs "u") = Some [(VStr "a", VStr "id1"); (VStr "a", VStr "id2")]
  /\ observe shared_two (index_pairs "u") = Some [(VStr "a", VStr "id2")]
  /\ observe shared_two (tree_pairs "u") = Some (Some [(VStr "a", VStr "id2")])
  /\ observe shared_deleted (live_pairs "u") = Some [(VStr "a", VStr "id2")]
  /\ observe shared_deleted (index_pairs "u") = Some []
  /\ observe shared_deleted (tree_pairs "u") = Some (Some []).
Proof. repeat split; vm_compute; reflexivity. Qed.

(** C2.  With an index created with [unique: true], the second insert of
    [{u: "a"}] returns its document like the first one, and the count with
    the empty filter is then 2. *)
Theorem unique_index_accepts_duplicate :
  result_of unique_first
  = Some (VObj [("u", VStr "a"); ("id", VStr "id1"); ("_id", VStr "id1");
                ("_createdAt", VNum 1000); ("_updatedAt", VNum 1000)])
  /\ result_of unique_second
     = Some (VObj [("u", VStr "a"); ("id", VStr "id2"); ("_id", VStr "id2");
                   ("_createdAt", VNum 1001); ("_updatedAt", VNum 1001)])
  /\ observe (after unique_second) (GhostDB.count 10 "C" (VObj [])) = Some (QueryEngine.Ok 2).
Proof. repeat split; vm_compute; reflexivity. Qed.

(** C3.  With the cache enabled, [find(C, {x: 1})] run before and after a
    successful insert of a matching document returns the empty list both
    times, although the query engine, asked directly on the same state,
    returns the new document. *)
Theorem find_after_insert_is_stale :
  result_of stale_first = Some (VArr [])
  /\ result_of stale_second = Some (VArr [])
  /\ observe stale_inserted
       (fun db => QueryEngine.execute 10 (GhostDB.queryEngine db) "C" stale_query (VObj []))
     = Some (QueryEngine.Ok
               [VObj [("x", VNum 1); ("id", VStr "id1"); ("_id", VStr "id1");
                      ("_createdAt", VNum 1000); ("_updatedAt", VNum 1000)]]).
Proof. repeat split; vm_compute; reflexivity. Qed.

(** C4.  With an ordered index on [t] and one document [{t: 5}], the plan
    for [{t: {$gt: 1}}] is an equality lookup on [t] and [find] returns the
    empty list, although the document satisfies the filter; the plan for
    [{t: {$gte: 1}}] ends in a [TypeError]. *)
Theorem gt_filter_planned_as_equality :
  observe range_db (fun db => QueryEngine._createQueryPlan (GhostDB.queryEngine db) "C" gt_filter)
  = Some (QueryEngine.Ok (QueryEngine.IndexEquality "t" (VObj [("$gt", VNum 1)])))
  /\ ask range_db (GhostDB.find 10 "C" gt_filter (VObj [])) = Some (VArr [])
  /\ observe range_db
       (fun db => QueryEngine._applyFilter (MemoryEngine.scan "C" (GhostDB.collections db)) gt_filter)
     = Some (QueryEngine.Ok
               [VObj [("t", VNum 5); ("id", VStr "id1"); ("_id", VStr "id1");
                      ("_createdAt", VNum 1000); ("_updatedAt", VNum 1000)]])
  /\ observe range_db (fun db => QueryEngine._createQueryPlan (GhostDB.queryEngine db) "C" gte_filter)
     = Some (QueryEngine.Err "TypeError").
Proof. repeat split; vm_compute; reflexivity. Qed.

(** C8.  On a tree holding nine keys, the range scan with both bounds
    [undefined] returns the empty list. *)
Theorem range_scan_without_bounds_is_empty :
  (match tree9 with Some tr => BPlusTree.stored 20 tr | None => None end)
  = Some [(VNum 100, VStr "x"); (VNum 200, VStr "x"); (VNum 300, VStr "x");
          (VNum 400, VStr "x"); (VNum 500, VStr "x"); (VNum 600, VStr "x");
          (VNum 700, VStr "x"); (VNum 800, VStr "x"); (VNum 900, VStr "x")]
  /\ ask tree9 (BPlusTree.rangeQuery 20 VUndefined VUndefined) = Some [].
Proof. repeat split; vm_compute; reflexivity. Qed.


(** C6, as stated, fails.  The table holds [k0] in bucket 6, [k7] in bucket
    7 and [k14], which shares the ideal bucket of [k7], in bucket 0; [k8] is
    absent and its ideal bucket is 6.  Inserting [k8] steals bucket 7 from
    [k7], which moves past [k14] into bucket 1.  The delete that follows
    empties bucket 7 and then hangs in the backward shift, on the lock of
    that very bucket; [k7] is left in bucket 1. *)
Lemma insert_delete_does_not_restore :
  exists s s1 s2,
    table_k0_k7_k14 = Some s
    /\ layout s
       = [[(VStr "k14", 1)]; []; []; []; []; []; [(VStr "k0", 0)]; [(VStr "k7", 0)]]
    /\ HashIndex.get (VStr "k8") s = Some VNull
    /\ HashIndex.insert 20 (VStr "k8") (VStr "x") s = Done tt s1
    /\ layout s1
       = [[(VStr "k14", 1)]; [(VStr "k7", 2)]; []; []; []; [];
          [(VStr "k0", 0)]; [(VStr "k8", 0)]]
    /\ HashIndex.delete 20 (VStr "k8") s1 = Blocked s2
    /\ layout s2
       = [[(VStr "k14", 0)]; [(VStr "k7", 2)]; []; []; []; []; [(VStr "k0", 0)]; []]
    /\ HashIndex.buckets s2 <> HashIndex.buckets s.
Proof.
  do 3 eexists.
  split; [vm_compute; reflexivity|].
  split; [vm_compute; reflexivity|].
  split; [vm_compute; reflexivity|].
  split; [vm_compute; reflexivity|].
  split; [vm_compute; reflexivity|].
  split; [vm_compute; reflexivity|].
  split; [vm_compute; reflexivity|].
  vm_compute. discriminate.
Qed.

(** C7, as stated, fails: a table of capacity 16 holding 12 entries takes a
    thirteenth without rehashing, although 13/16 exceeds 0.75. *)
Lemma thirteenth_insert_does_not_rehash :
  observe table12 shape = Some (16, 12, 0)
  /\ observe (and_then table12 (HashIndex.insert 20 (VStr "k12") (VStr "x"))) shape
     = Some (16, 13, 0)
  /\ (3 * 16 < 4 * 13)%Z.
Proof. repeat split; vm_compute; reflexivity. Qed.

End ConcreteRuns.

(** ** The result cache and the query options *)

Section CacheFacts.
Import JS Scenarios.

Lemma smap_get_set_same {V} (k : string) (v : V) (m : list (string * V)) :
  SMap.get k (SMap.set k v m) = Some v.
Proof.
  induction m as [|[k' v'] m IH]; simpl.
  - now rewrite String.eqb_refl.
  - destruct (String.eqb k' k) eqn:E; simpl; rewrite E; [reflexivity | exact IH].
Qed.

Lemma cache_get_after_set (k : string) (v : jsv) (c : CacheLayer.t) :
  fst (CacheLayer.get k (CacheLayer.set k v c)) = v.
Proof.
  unfold CacheLayer.get, CacheLayer.set, CacheLayer._updateAccessOrder; simpl.
  now rewrite smap_get_set_same.
Qed.

Lemma cache_get_twice (k : string) (c : CacheLayer.t) :
  fst (CacheLayer.get k (snd (CacheLayer.get k c))) = fst (CacheLayer.get k c).
Proof.
  unfold CacheLayer.get.
  destruct (SMap.get k (CacheLayer.cache c)) eqn:E; simpl; now rewrite E.
Qed.

(** C9.  With the cache enabled, a [find] that returns [r] is followed, for
    the same collection and filter and whatever the options, by a [find]
    that returns the same [r]. *)
Theorem find_ignores_options_on_repeat
  (fuel1 fuel2 : nat) (collectionName : string) (query options1 options2 r : jsv)
  (db db1 : GhostDB.t)
  (Hcache : GhostDB.cache db <> None)
  (Hfirst : GhostDB.find fuel1 collectionName query options1 db = Done r db1) :
  exists db2, GhostDB.find fuel2 collectionName query options2 db1 = Done r db2.
Proof.
  unfold GhostDB.find in *.
  destruct (GhostDB.isInitialized db) eqn:Hinit; simpl in Hfirst; [|discriminate].
  destruct (GhostDB.cache db) as [c|] eqn:Hc; [|contradiction].
  destruct (CacheLayer.get (GhostDB.find_key collectionName query) c) as [v c'] eqn:Hget.
  destruct (truthy v) eqn:Hv.
  - (* served from the cache *)
    inversion Hfirst; subst r db1; clear Hfirst. simpl. rewrite Hinit. simpl.
    pose proof (cache_get_twice (GhostDB.find_key collectionName query) c) as H2.
    rewrite Hget in H2. simpl in H2.
    destruct (CacheLayer.get (GhostDB.find_key collectionName query) c') as [v2 c2] eqn:Hget2.
    simpl in H2. subst v2. rewrite Hv. eexists; reflexivity.
  - (* computed, then stored *)
    simpl in Hfirst.
    destruct (MemoryEngine.getCollection collectionName (GhostDB.collections db));
      [|discriminate].
    destruct (QueryEngine.execute fuel1 _ collectionName query options1) as [results| | |];
      try discriminate.
    inversion Hfirst; subst r db1; clear Hfirst. simpl. rewrite Hinit. simpl.
    pose proof (cache_get_after_set (GhostDB.find_key collectionName query) (VArr results) c') as H2.
    destruct (CacheLayer.get (GhostDB.find_key collectionName query)
                (CacheLayer.set (GhostDB.find_key collectionName query) (VArr results) c'))
      as [v2 c2] eqn:Hget2.
    simpl in H2. subst v2. simpl. eexists; reflexivity.
Qed.



Lemma find_ignores_options_on_repeat_witness :
  exists db2,
    GhostDB.find 10 "C" (VObj []) (VObj [("limit", VNum 1)]) cached_db_after_find
    = Done (VArr [VObj [("id", VStr "a")]; VObj [("id", VStr "b")]]) db2.
Proof.
  apply (find_ignores_options_on_repeat 10 10 "C" (VObj []) (VObj [])
           (VObj [("limit", VNum 1)]) _ cached_db).
  - discriminate.
  - vm_compute. reflexivity.
Defined.

End CacheFacts.

(** ** The cache: find results and later inserts *)

Section StaleFacts.
Import JS.

Lemma smap_get_remove_other {V} (k k' : string) (m : list (string * V)) :
  k <> k' -> SMap.get k (SMap.remove k' m) = SMap.get k m.
Proof.
  intros Hne. induction m as [|[k0 v0] m IH]; simpl; [reflexivity|].
  destruct (String.eqb k0 k') eqn:E'.
  - apply String.eqb_eq in E'. subst k0.
    destruct (String.eqb k' k) eqn:E; [|reflexivity].
    apply String.eqb_eq in E. congruence.
  - simpl. destruct (String.eqb k0 k); [reflexivity | exact IH].
Qed.

Lemma cache_of_fired (fuel : nat) (collectionName : string) (document oldDocument : jsv)
  (op : IndexManager.operation) (db db' : GhostDB.t) :
  GhostDB.fire_updateIndexes fuel collectionName document op oldDocument db = Some db' ->
  GhostDB.cache db' = GhostDB.cache db /\ GhostDB.isInitialized db' = GhostDB.isInitialized db.
Proof.
  unfold GhostDB.fire_updateIndexes.
  destruct (IndexManager.updateIndexes _ _ _ _ _ _); intros H; inversion H; now split.
Qed.

(** Whatever the collection and the index hold: a result list that [find]
    has cached survives every [insert] whose document key differs from the
    cache key, and the next [find] returns it again. *)
Lemma cached_find_survives_insert
  (fuel fuel' : nat) (now : Z) (freshId collectionName into : string)
  (query options r doc : jsv) (document : list (string * jsv))
  (c : CacheLayer.t) (db db' : GhostDB.t) :
  GhostDB.cache db = Some c ->
  SMap.get (GhostDB.find_key collectionName query) (CacheLayer.cache c) = Some r ->
  truthy r = true ->
  GhostDB.insert fuel now freshId into document db = Done doc db' ->
  GhostDB.find_key collectionName query <> GhostDB.doc_key into (prop doc "id") ->
  exists db'', GhostDB.find fuel' collectionName query options db' = Done r db''.
Proof.
  intros Hc Hr Ht Hins Hne.
  unfold GhostDB.insert in Hins.
  destruct (GhostDB.isInitialized db) eqn:Hinit; simpl in Hins; [|discriminate].
  destruct (MemoryEngine.getCollection into (GhostDB.collections db)); [|discriminate].
  destruct (GhostDB._validateDocument _ _); [discriminate|].
  destruct (GhostDB.fire_updateIndexes _ _ _ _ _ _) as [db2|] eqn:Hfire; [|discriminate].
  apply cache_of_fired in Hfire. destruct Hfire as [Hc2 Hi2]. simpl in Hc2, Hi2.
  injection Hins as Hdoc Hdb. subst db' doc.
  unfold GhostDB.find, GhostDB.invalidate. rewrite Hc2, Hc. simpl. rewrite Hi2, Hinit. simpl.
  unfold CacheLayer.get, CacheLayer.invalidate. simpl.
  rewrite smap_get_remove_other by exact Hne. rewrite Hr, Ht. eexists; reflexivity.
Qed.

End StaleFacts.

(** ** The planner: operator objects on an indexed field *)

Section PlannerFacts.
Import JS.

Lemma strict_eq_compound (a b : jsv) : is_primitive b = false -> strict_eq a b = false.
Proof. destruct a, b; simpl; intros H; try discriminate; reflexivity. Qed.

Lemma get_scan_compound (h0 : Z) (k : jsv) (p : Z) (es : list HashIndex.Entry) :
  is_primitive k = false ->
  forall i, HashIndex.get_scan h0 k p es i = HashIndex.Stop
            \/ HashIndex.get_scan h0 k p es i = HashIndex.Next.
Proof.
  intros Hk. induction es as [|e es IH]; intros i; simpl; [now right|].
  rewrite (strict_eq_compound _ k Hk), andb_false_r.
  destruct (HashIndex.psl e <? p); [now left | apply IH].
Qed.

Lemma get_loop_compound (k : jsv) (h : HashIndex.t) (h0 : Z) (n : nat) :
  is_primitive k = false ->
  forall p idx, HashIndex.get_loop n h0 k p idx h = Some VNull
                \/ HashIndex.get_loop n h0 k p idx h = None.
Proof.
  intros Hk. induction n as [|n IH]; intros p idx; simpl; [now left|].
  destruct (HashIndex.bucket_at h idx) as [b|]; [|now right].
  destruct (get_scan_compound h0 k p (HashIndex.entries b) Hk 0) as [E|E]; rewrite E;
    [now left | apply IH].
Qed.

(** No entry of a hash index is found under a key that is an object. *)
Lemma hash_get_compound (k : jsv) (h : IndexManager.HashKind) :
  is_primitive k = false ->
  IndexManager.hash_get k h = Some VNull \/ IndexManager.hash_get k h = None.
Proof.
  intros Hk. destruct h as [s|p]; simpl.
  - unfold ShardedHashIndex.get. destruct (ShardedHashIndex._getShard k s); [|now right].
    now apply get_loop_compound.
  - now apply get_loop_compound.
Qed.

Lemma slice_nil {A} (a : Z) (b : option Z) : slice (@nil A) a b = [].
Proof. unfold slice. now rewrite skipn_nil, firstn_nil. Qed.

(** Whatever the collection holds: on an indexed field, a criterion that is
    an operator object without [$gte] and [$lte], such as [{$gt: v}] or
    [{$lt: v}], is planned as an equality lookup, and the query yields no
    document. *)
Lemma operator_object_on_indexed_field
  (fuel : nat) (q : QueryEngine.t) (collectionName field : string)
  (ops : list (string * jsv)) (options : jsv) :
  IndexManager.hasIndex collectionName field (QueryEngine.indexes q) = true ->
  Obj.starts_with_dollar field = false ->
  assoc "$gte" ops = None ->
  assoc "$lte" ops = None ->
  QueryEngine._createQueryPlan q collectionName (VObj [(field, VObj ops)])
  = QueryEngine.Ok (QueryEngine.IndexEquality field (VObj ops))
  /\ (QueryEngine.execute fuel q collectionName (VObj [(field, VObj ops)]) options
      = QueryEngine.Ok []
      \/ QueryEngine.execute fuel q collectionName (VObj [(field, VObj ops)]) options
         = QueryEngine.Err "TypeError").
Proof.
  intros Hix Hd Hgte Hlte.
  assert (Hplan : QueryEngine._createQueryPlan q collectionName (VObj [(field, VObj ops)])
                  = QueryEngine.Ok (QueryEngine.IndexEquality field (VObj ops))).
  { unfold QueryEngine._createQueryPlan. simpl. rewrite Hd, Hix, Hgte, Hlte. reflexivity. }
  split; [exact Hplan|].
  unfold QueryEngine.execute. rewrite Hplan. cbn [QueryEngine.bind].
  assert (Hexec : QueryEngine._executePlan fuel q collectionName
                    (QueryEngine.IndexEquality field (VObj ops)) = QueryEngine.Ok []
                  \/ QueryEngine._executePlan fuel q collectionName
                       (QueryEngine.IndexEquality field (VObj ops)) = QueryEngine.Err "TypeError").
  { unfold QueryEngine._executePlan, IndexManager.lookup_equality.
    destruct (IndexManager.find_index collectionName field (QueryEngine.indexes q)) as [ix|];
      [|now left].
    destruct (IndexManager.hash ix) as [h|]; [|now left].
    destruct (hash_get_compound (VObj ops) h eq_refl) as [E|E]; rewrite E; simpl; auto. }
  destruct Hexec as [E|E]; rewrite E; cbn [QueryEngine.bind]; [|now right].
  cbn [QueryEngine._applyFilter QueryEngine.bind].
  destruct (truthy (prop options "sort")) eqn:Hsort.
  - unfold QueryEngine._applySort.
    destruct (Obj.entries (prop options "sort")) as [fs|] eqn:Hfs.
    + cbn [QueryEngine.bind Obj.sort fold_right]. rewrite !slice_nil.
      destruct (truthy (prop options "skip")), (truthy (prop options "limit")),
        (truthy (prop options "select")); simpl; rewrite ?slice_nil; auto.
    + cbn [QueryEngine.bind]. now right.
  - cbn [QueryEngine.bind]. rewrite !slice_nil.
    destruct (truthy (prop options "skip")), (truthy (prop options "limit")),
      (truthy (prop options "select")); simpl; rewrite ?slice_nil; auto.
Qed.

End PlannerFacts.

(** ** The hash index: when it rehashes *)

Section RehashFacts.
Import JS HashIndex Probe.

Lemma same_shape_refl (h : t) : same_shape h h.
Proof. repeat split. Qed.

Lemma same_shape_trans (h1 h2 h3 : t) :
  same_shape h1 h2 -> same_shape h2 h3 -> same_shape h1 h3.
Proof.
  intros (A1 & A2 & A3) (B1 & B2 & B3). repeat split; congruence.
Qed.

Lemma insert_loop_shape (fuel : nat) (k v : jsv) :
  forall (entry : Entry) (p idx : Z) (h : t),
    leaves (same_shape h) (insert_loop fuel k v entry p idx h).
Proof.
  induction fuel as [|fuel IH]; intros entry p idx h; simpl; [exact I|].
  destruct (bucket_at h idx) as [b|]; simpl; [|apply same_shape_refl].
  destruct (locked b); simpl; [apply same_shape_refl|].
  destruct (entries b) as [|e es] eqn:Hes.
  - simpl. destruct (_ <? p); repeat split.
  - destruct (find_key k (e :: es) 0); simpl; [repeat split|].
    destruct (psl e <? p).
    + specialize (IH e (psl e + 1) (mask h (idx + 1))
                    (set_bucket idx (set_entries (<[0%nat:=entry]> (e :: es)) b) h)).
      destruct (insert_loop _ _ _ _ _ _ _); simpl in *; try exact I;
        (eapply same_shape_trans; [|exact IH]); repeat split.
    + apply IH.
Qed.

Lemma insert_shape_when_locked (fuel : nat) (k v : jsv) (h : t) :
  resizeLocked h = true -> leaves (same_shape h) (insert fuel k v h).
Proof.
  intros Hl. destruct fuel as [|fuel]; simpl; [exact I|].
  rewrite Hl.
  destruct (3 * capacity h <? 4 * size h); simpl; apply insert_loop_shape.
Qed.

Lemma for_each_shape (f : Entry -> t -> run t unit) (xs : list Entry) :
  (forall e h, resizeLocked h = true -> leaves (same_shape h) (f e h)) ->
  forall h, resizeLocked h = true -> leaves (same_shape h) (for_each f xs h).
Proof.
  intros Hf. induction xs as [|x xs IH]; intros h Hl; simpl; [apply same_shape_refl|].
  specialize (Hf x h Hl).
  destruct (f x h) as [[] s|e s|s|]; simpl in *; try exact Hf.
  assert (Hs : resizeLocked s = true) by (destruct Hf as (_ & _ & E); congruence).
  specialize (IH s Hs).
  destruct (for_each f xs s); simpl in *; try exact I;
    eapply same_shape_trans; eauto.
Qed.

(** The capacity after an insert that returns. *)
Lemma insert_capacity
  (fuel : nat) (k v : jsv) (h h' : t)
  (Hfree : resizeLocked h = false)
  (Hdone : insert fuel k v h = Done tt h') :
  capacity h' = (if 3 * capacity h <? 4 * size h then 2 * capacity h else capacity h)
  /\ resizes h' = (if 3 * capacity h <? 4 * size h then resizes h + 1 else resizes h).
Proof.
  destruct fuel as [|fuel]; simpl in Hdone; [discriminate|].
  rewrite Hfree in Hdone.
  destruct (3 * capacity h <? 4 * size h).
  - set (h0 := mk (capacity h * 2) 0 (repeat emptyBucket (Z.to_nat (capacity h * 2)))
                  true 0 (resizes h + 1)) in *.
    pose proof (for_each_shape (fun e => insert fuel (key e) (value e))
                  (all_entries (buckets h))
                  (fun e s Hs => insert_shape_when_locked fuel (key e) (value e) s Hs)
                  h0 eq_refl) as Hfe.
    destruct (for_each _ _ h0) as [[] s|e s|s|]; simpl in Hdone; try discriminate.
    simpl in Hfe. destruct Hfe as (Hc & Hr & _).
    pose proof (insert_loop_shape fuel k v (mkEntry k v (_hash k) 0) 0
                  (_getBucketIndex (set_resizeLocked false s) (_hash k))
                  (set_resizeLocked false s)) as Hl.
    rewrite Hdone in Hl. simpl in Hl. destruct Hl as (Hc' & Hr' & _).
    simpl in Hc', Hr'. subst h0. simpl in Hc, Hr. split; lia.
  - simpl in Hdone.
    pose proof (insert_loop_shape fuel k v (mkEntry k v (_hash k) 0) 0
                  (_getBucketIndex h (_hash k)) h) as Hl.
    rewrite Hdone in Hl. simpl in Hl. destruct Hl as (Hc' & Hr' & _). split; assumption.
Qed.

End RehashFacts.

(** ** The hash index: every insert into a sound table returns *)

Section TotalFacts.
Import JS HashIndex Probe.

Lemma occupancy_insert (l : list HashBucket) :
  forall (i : nat) (b b' : HashBucket),
    l !! i = Some b ->
    (occupancy (<[i := b']> l) + (if occupied b then 1 else 0)
     = occupancy l + (if occupied b' then 1 else 0))%nat.
Proof.
  induction l as [|x l IH]; intros i b b' H; [discriminate|].
  destruct i as [|i]; simpl in *.
  - inversion H; subst x. lia.
  - specialize (IH i b b' H). lia.
Qed.

Lemma occupancy_le_length (l : list HashBucket) : (occupancy l <= length l)%nat.
Proof. induction l as [|x l IH]; simpl; [lia|]. destruct (occupied x); lia. Qed.

Lemma vacancy_exists (l : list HashBucket) :
  (occupancy l < length l)%nat -> exists i b, l !! i = Some b /\ occupied b = false.
Proof.
  induction l as [|x l IH]; simpl; intros H; [lia|].
  destruct (occupied x) eqn:E.
  - destruct IH as (i & b & Hi & Hb); [lia|]. now exists (S i), b.
  - now exists 0%nat, x.
Qed.

Lemma occupancy_repeat (n : nat) : occupancy (repeat emptyBucket n) = 0%nat.
Proof. induction n; simpl; auto. Qed.

Lemma mask_next (h : t) (n : nat) (i : Z) :
  capacity h = 2 ^ Z.of_nat n -> mask h (i + 1) = (i + 1) mod capacity h.
Proof.
  intros Hc. unfold mask. rewrite Hc.
  replace (2 ^ Z.of_nat n - 1) with (Z.ones (Z.of_nat n)) by (rewrite Z.ones_equiv; lia).
  apply Z.land_ones. lia.
Qed.

Lemma sound_set_bucket (h : t) (i : Z) (b b' : HashBucket) :
  sound h -> bucket_at h i = Some b -> tidy b' -> occupied b' = occupied b ->
  sound (set_bucket i b' h)
  /\ occupancy (buckets (set_bucket i b' h)) = occupancy (buckets h).
Proof.
  intros (Hpow & Hlen & Htidy & Hsize) Hb Hb' Hocc. unfold bucket_at in Hb.
  pose proof (occupancy_insert (buckets h) (Z.to_nat i) b b' Hb) as Ho.
  rewrite Hocc in Ho.
  assert (Heq : occupancy (<[Z.to_nat i := b']> (buckets h)) = occupancy (buckets h)) by lia.
  split; [|exact Heq].
  repeat split; simpl.
  - exact Hpow.
  - now rewrite length_insert.
  - now apply Forall_insert.
  - now rewrite Heq.
Qed.

Lemma kept_placement (h : t) (idx p : Z) (entry : Entry) (b : HashBucket) :
  sound h -> bucket_at h idx = Some b -> entries b = [] ->
  kept h (let h1 := set_bucket idx (set_entries [set_psl p entry] b) h in
          let h2 := set_size (size h1 + 1) h1 in
          if maxProbeLength h2 <? p then set_maxProbeLength p h2 else h2).
Proof.
  intros (Hpow & Hlen & Htidy & Hsize) Hb Hes. unfold bucket_at in Hb.
  assert (Ht : tidy b) by (eapply Forall_lookup_1 in Htidy; eauto).
  destruct Ht as (Hl & _).
  pose proof (occupancy_insert (buckets h) (Z.to_nat idx) b
                (set_entries [set_psl p entry] b) Hb) as Ho.
  unfold occupied in Ho at 1 2. rewrite Hes in Ho. simpl in Ho.
  assert (Htidy' : Forall tidy (<[Z.to_nat idx := set_entries [set_psl p entry] b]> (buckets h))).
  { apply Forall_insert; [exact Htidy|]. split; simpl; [exact Hl|lia]. }
  cbv zeta.
  assert (K : forall m,
             kept h (mk (capacity h) (size h + 1)
                       (<[Z.to_nat idx := set_entries [set_psl p entry] b]> (buckets h))
                       (resizeLocked h) m (resizes h))).
  { intros m. split; [repeat split|split; [|simpl; lia]].
    split; [exact Hpow|]. split; [simpl; now rewrite length_insert|].
    split; [exact Htidy'|]. simpl. lia. }
  destruct (_ <? p); apply K.
Qed.

Lemma insert_loop_reaches (k v : jsv) (d : nat) :
  forall (fuel : nat) (entry : Entry) (p idx : Z) (h : t) (e : HashBucket),
    sound h ->
    0 <= idx < capacity h ->
    bucket_at h ((idx + Z.of_nat d) mod capacity h) = Some e ->
    occupied e = false ->
    (d < fuel)%nat ->
    exists h', insert_loop fuel k v entry p idx h = Done tt h' /\ kept h h'.
Proof.
  induction d as [|d IH]; intros fuel entry p idx h e Hs Hidx He Hocc Hfuel;
    (destruct fuel as [|fuel]; [lia|]); cbn [insert_loop].
  - rewrite Z.add_0_r, Z.mod_small in He by lia. rewrite He.
    pose proof Hs as (Hpow & Hlen & Htidy & Hsize).
    assert (Ht : tidy e).
    { unfold bucket_at in He. eapply Forall_lookup_1 in Htidy; eauto. }
    destruct Ht as (Hl & _). rewrite Hl.
    unfold occupied in Hocc. destruct (entries e) eqn:Hes; [|discriminate].
    eexists. split; [reflexivity|]. now apply kept_placement.
  - assert (Hb : exists b, bucket_at h idx = Some b).
    { destruct Hs as (_ & Hlen & _). unfold bucket_at.
      apply lookup_lt_is_Some_2. lia. }
    destruct Hb as (b & Hb). rewrite Hb.
    pose proof Hs as (Hpow & Hlen & Htidy & Hsize).
    assert (Ht : tidy b).
    { unfold bucket_at in Hb. eapply Forall_lookup_1 in Htidy; eauto. }
    destruct Ht as (Hl & Hone). rewrite Hl.
    destruct (entries b) as [|x xs] eqn:Hes.
    + (* an empty bucket comes first *)
      eexists. split; [reflexivity|]. now apply kept_placement.
    + destruct xs as [|y ys]; [|simpl in Hone; lia].
      destruct Hpow as (n & Hpow).
      assert (Hnext : 0 <= mask h (idx + 1) < capacity h).
      { rewrite (mask_next h n idx Hpow). apply Z.mod_pos_bound. lia. }
      assert (Hsame : (mask h (idx + 1) + Z.of_nat d) mod capacity h
                      = (idx + Z.of_nat (S d)) mod capacity h).
      { rewrite (mask_next h n idx Hpow). rewrite Z.add_mod_idemp_l by lia.
        f_equal. lia. }
      assert (Hne : Z.to_nat ((idx + Z.of_nat (S d)) mod capacity h) <> Z.to_nat idx).
      { intros E. unfold bucket_at in He, Hb. rewrite E, Hb in He.
        inversion He; subst e. unfold occupied in Hocc. now rewrite Hes in Hocc. }
      destruct (find_key k [x] 0) as [i|] eqn:Hfk.
      * (* the key is there: its value is replaced *)
        eexists. split; [reflexivity|].
        assert (Hi : i = 0%nat).
        { simpl in Hfk. destruct (strict_eq (key x) k); inversion Hfk; reflexivity. }
        subst i. simpl.
        destruct (sound_set_bucket h idx b (set_entries [set_value v x] b) Hs Hb) as (S1 & O1).
        { split; simpl; [exact Hl|lia]. }
        { unfold occupied. simpl. now rewrite Hes. }
        split; [repeat split|split; [exact S1|]]. rewrite O1. lia.
      * destruct (psl x <? p).
        -- (* steal *)
           set (h1 := set_bucket idx (set_entries (<[0%nat:=entry]> [x]) b) h).
           destruct (sound_set_bucket h idx b (set_entries (<[0%nat:=entry]> [x]) b) Hs Hb)
             as (S1 & O1).
           { split; simpl; [exact Hl|lia]. }
           { unfold occupied. simpl. now rewrite Hes. }
           fold h1 in S1, O1.
           destruct (IH fuel x (psl x + 1) (mask h (idx + 1)) h1 e S1) as (h' & Hrun & K).
           { exact Hnext. }
           { change (capacity h1) with (capacity h). rewrite Hsame.
             unfold bucket_at, h1. simpl. rewrite list_lookup_insert_ne by congruence.
             exact He. }
           { exact Hocc. }
           { lia. }
           exists h'. split; [exact Hrun|].
           destruct K as (Sh & Sd & Oc). split; [|split; [exact Sd|]].
           ++ eapply same_shape_trans; [|exact Sh]. repeat split.
           ++ rewrite O1 in Oc. exact Oc.
        -- destruct (IH fuel entry (p + 1) (mask h (idx + 1)) h e Hs) as (h' & Hrun & K).
           { exact Hnext. }
           { rewrite Hsame. exact He. }
           { exact Hocc. }
           { lia. }
           exists h'. split; [exact Hrun|exact K].
Qed.


Lemma mask_range (h : t) (n : nat) (i : Z) :
  capacity h = 2 ^ Z.of_nat n -> 0 <= mask h i < capacity h.
Proof.
  intros Hc. unfold mask. rewrite Hc.
  replace (2 ^ Z.of_nat n - 1) with (Z.ones (Z.of_nat n)) by (rewrite Z.ones_equiv; lia).
  rewrite Z.land_ones by lia. apply Z.mod_pos_bound. lia.
Qed.

Lemma insert_loop_returns (k v : jsv) (fuel : nat) (entry : Entry) (p idx : Z) (h : t) :
  sound h ->
  (occupancy (buckets h) < length (buckets h))%nat ->
  0 <= idx < capacity h ->
  capacity h <= Z.of_nat fuel ->
  exists h', insert_loop fuel k v entry p idx h = Done tt h' /\ kept h h'.
Proof.
  intros Hs Hvac Hidx Hfuel.
  destruct (vacancy_exists _ Hvac) as (i & e & Hi & He).
  pose proof Hs as (_ & Hlen & _).
  pose proof (lookup_lt_Some _ _ _ Hi) as Hilt.
  set (d := Z.to_nat ((Z.of_nat i - idx) mod capacity h)).
  assert (Hd : 0 <= (Z.of_nat i - idx) mod capacity h < capacity h)
    by (apply Z.mod_pos_bound; lia).
  apply (insert_loop_reaches k v d fuel entry p idx h e Hs Hidx); [|exact He|lia].
  unfold bucket_at. subst d. rewrite Z2Nat.id by lia.
  rewrite Z.add_mod_idemp_r by lia.
  replace (idx + (Z.of_nat i - idx)) with (Z.of_nat i) by lia.
  rewrite Z.mod_small by lia. now rewrite Nat2Z.id.
Qed.

Lemma entries_le_occupancy (bs : list HashBucket) :
  Forall tidy bs -> (length (all_entries bs) <= occupancy bs)%nat.
Proof.
  unfold all_entries. induction 1 as [|b bs (Hl & Hone) _ IH]; simpl; [lia|].
  rewrite length_app. unfold occupied. destruct (entries b) as [|x xs]; simpl in *; lia.
Qed.

(** An insert made while the table is being rebuilt: no resize check
    applies. *)
Lemma insert_returns_when_locked (k v : jsv) (fuel : nat) (h : t) :
  sound h -> resizeLocked h = true ->
  (occupancy (buckets h) < length (buckets h))%nat ->
  capacity h < Z.of_nat fuel ->
  exists h', insert fuel k v h = Done tt h' /\ kept h h'.
Proof.
  intros Hs Hl Hvac Hfuel. destruct fuel as [|fuel]; [pose proof Hs as ((n & Hn) & _); lia|].
  cbn [insert]. rewrite Hl.
  pose proof Hs as ((n & Hn) & _).
  destruct (3 * capacity h <? 4 * size h); cbn [rbind];
    apply insert_loop_returns; auto; try (apply (mask_range h n); exact Hn); lia.
Qed.

Lemma reinsert_returns (fuel : nat) (xs : list Entry) :
  forall s,
    sound s -> resizeLocked s = true ->
    (occupancy (buckets s) + length xs < length (buckets s) + 1)%nat ->
    capacity s < Z.of_nat fuel ->
    exists s', for_each (fun e => insert fuel (key e) (value e)) xs s = Done tt s'
               /\ sound s' /\ same_shape s s'
               /\ (occupancy (buckets s') <= occupancy (buckets s) + length xs)%nat.
Proof.
  induction xs as [|x xs IH]; intros s Hs Hl Hroom Hfuel; cbn [for_each].
  - exists s. split; [reflexivity|]. split; [exact Hs|]. split; [apply same_shape_refl|lia].
  - simpl in Hroom.
    destruct (insert_returns_when_locked (key x) (value x) fuel s Hs Hl) as (s1 & Hrun & K);
      [lia|exact Hfuel|].
    rewrite Hrun. cbn [rbind].
    destruct K as (Sh & Sd & Oc).
    pose proof Sh as (Hc & _ & Hl1).
    assert (Hlen : length (buckets s1) = length (buckets s)).
    { destruct Hs as (_ & L0 & _). destruct Sd as (_ & L1 & _). lia. }
    destruct (IH s1 Sd) as (s' & Hrun' & Sd' & Sh' & Oc'); [congruence|lia|lia|].
    exists s'. split; [exact Hrun'|]. split; [exact Sd'|].
    split; [eapply same_shape_trans; eauto|]. simpl. lia.
Qed.

(** A sound table with no resize in progress takes any insert. *)
Lemma insert_returns (k v : jsv) (fuel : nat) (h : t) :
  sound h -> resizeLocked h = false ->
  2 * capacity h + 2 <= Z.of_nat fuel ->
  exists h', insert fuel k v h = Done tt h' /\ sound h'.
Proof.
  intros Hs Hl Hfuel.
  pose proof Hs as ((n & Hn) & Hlen & Htidy & Hsize).
  assert (Hpos : 0 < capacity h) by (rewrite Hn; lia).
  destruct fuel as [|fuel]; [lia|]. cbn [insert]. rewrite Hl.
  destruct (3 * capacity h <? 4 * size h) eqn:Hload.
  - set (h0 := mk (capacity h * 2) 0 (repeat emptyBucket (Z.to_nat (capacity h * 2)))
                  true 0 (resizes h + 1)).
    assert (S0 : sound h0).
    { split; [exists (S n); simpl capacity; rewrite Hn, Nat2Z.inj_succ, Z.pow_succ_r; lia|].
      split; [simpl; rewrite repeat_length; lia|].
      split; [simpl; apply Forall_forall; intros b Hb;
              apply list_elem_of_In, repeat_spec in Hb; subst b; split; simpl; auto|].
      simpl. now rewrite occupancy_repeat. }
    pose proof (entries_le_occupancy _ Htidy) as Hm.
    pose proof (occupancy_le_length (buckets h)) as Ho.
    destruct (reinsert_returns fuel (all_entries (buckets h)) h0 S0 eq_refl)
      as (s' & Hrun & Sd & Sh & Oc).
    { simpl. rewrite occupancy_repeat, repeat_length. lia. }
    { simpl. lia. }
    rewrite Hrun. cbn [finally_ rbind].
    simpl in Oc. rewrite occupancy_repeat in Oc.
    destruct Sh as (Hc & _ & _). simpl in Hc.
    assert (S1 : sound (set_resizeLocked false s')) by exact Sd.
    destruct (insert_loop_returns k v fuel (mkEntry k v (_hash k) 0) 0
                (_getBucketIndex (set_resizeLocked false s') (_hash k))
                (set_resizeLocked false s') S1) as (h' & Hrun' & K).
    { destruct Sd as (_ & L1 & _). simpl. lia. }
    { destruct Sd as ((n1 & Hn1) & _). apply (mask_range _ n1). exact Hn1. }
    { simpl. lia. }
    exists h'. split; [exact Hrun'|apply K].
  - cbn [rbind].
    destruct (insert_loop_returns k v fuel (mkEntry k v (_hash k) 0) 0
                (_getBucketIndex h (_hash k)) h Hs) as (h' & Hrun' & K).
    { apply Z.ltb_ge in Hload. lia. }
    { apply (mask_range h n). exact Hn. }
    { lia. }
    exists h'. split; [exact Hrun'|apply K].
Qed.

(** C7, amended.  An insert that returns has doubled the capacity exactly
    when the load factor it found, [size / capacity] before the new entry
    is counted, exceeded 0.75; otherwise the capacity is unchanged.  On a
    sound table the insert does return. *)
Theorem insert_rehashes_on_prior_load
  (fuel : nat) (k v : jsv) (h : t)
  (Hfree : resizeLocked h = false) :
  (forall h',
      insert fuel k v h = Done tt h' ->
      capacity h' = (if 3 * capacity h <? 4 * size h then 2 * capacity h else capacity h)
      /\ resizes h' = (if 3 * capacity h <? 4 * size h then resizes h + 1 else resizes h))
  /\ (sound h -> 2 * capacity h + 2 <= Z.of_nat fuel ->
      exists h', insert fuel k v h = Done tt h' /\ sound h').
Proof.
  split.
  - intros h' Hdone. exact (insert_capacity fuel k v h h' Hfree Hdone).
  - intros Hs Hfuel. exact (insert_returns k v fuel h Hs Hfree Hfuel).
Qed.

Lemma insert_rehashes_on_prior_load_witness :
  (capacity Scenarios.table14
   = (if 3 * capacity Scenarios.table13 <? 4 * size Scenarios.table13
      then 2 * capacity Scenarios.table13 else capacity Scenarios.table13)
   /\ resizes Scenarios.table14
      = (if 3 * capacity Scenarios.table13 <? 4 * size Scenarios.table13
         then resizes Scenarios.table13 + 1 else resizes Scenarios.table13))
  /\ (exists h', insert 40 (VStr "k13") (VStr "x") Scenarios.table13 = Done tt h' /\ sound h')
  /\ Scenarios.shape Scenarios.table13 = (16, 13, 0)
  /\ Scenarios.shape Scenarios.table14 = (32, 14, 1).
Proof.
  destruct (insert_rehashes_on_prior_load 40 (VStr "k13") (VStr "x") Scenarios.table13 eq_refl)
    as [Hshape Hreturns].
  split; [apply Hshape; vm_compute; reflexivity|].
  split; [|split; vm_compute; reflexivity].
  apply Hreturns; [|vm_compute; discriminate].
  split; [exists 4%nat; reflexivity|].
  split; [reflexivity|].
  split; [|reflexivity].
  vm_compute. repeat (constructor; [split; [reflexivity|repeat constructor]|]). constructor.
Defined.

End TotalFacts.

(** ** The hash index: insert followed by delete *)

Section RoundTripFacts.
Import JS HashIndex Probe.

Variable k : jsv.
Hypothesis k_eq : strict_eq k k = true.

Lemma passes_find_key (p : Z) (es : list Entry) (i : nat) :
  forallb (fun e => negb (strict_eq (key e) k) && negb (psl e <? p)) es = true ->
  find_key k es i = None.
Proof.
  revert i. induction es as [|e es IH]; intros i H; simpl in *; [reflexivity|].
  apply andb_prop in H as [He Hes]. apply andb_prop in He as [Hk _].
  apply negb_true_iff in Hk. rewrite Hk. now apply IH.
Qed.

Lemma passes_delete_scan (p : Z) (es : list Entry) (i : nat) :
  forallb (fun e => negb (strict_eq (key e) k) && negb (psl e <? p)) es = true ->
  delete_scan k p es i = Next.
Proof.
  revert i. induction es as [|e es IH]; intros i H; simpl in *; [reflexivity|].
  apply andb_prop in H as [He Hes]. apply andb_prop in He as [Hk Hp].
  apply negb_true_iff in Hk, Hp. rewrite Hk, Hp. now apply IH.
Qed.

Lemma vacant_inv (b : HashBucket) : vacant b = true -> b = mkBucket [] false.
Proof.
  destruct b as [es l]. unfold vacant; simpl.
  destruct l, es; simpl; intros H; try discriminate; reflexivity.
Qed.

(** Where the probe lands, the bucket is vacant and its successor stops the
    backward shift. *)
Lemma lands_landing (h : t) (d : nat) :
  forall p idx,
    lands h k d p idx = true ->
    bucket_at h (landing h d idx) = Some (mkBucket [] false)
    /\ exists b', bucket_at h (mask h (landing h d idx + 1)) = Some b'
                  /\ shift_stops b' = true.
Proof.
  induction d as [|d IH]; intros p idx H; simpl in *.
  - destruct (bucket_at h idx) as [b|]; [|discriminate].
    destruct (bucket_at h (mask h (idx + 1))) as [b'|]; [|discriminate].
    apply andb_prop in H as [Hv Hs]. apply vacant_inv in Hv. subst b.
    split; [reflexivity|]. now exists b'.
  - destruct (bucket_at h idx) as [b|]; [|discriminate].
    apply andb_prop in H as [_ H]. now apply (IH (p + 1)).
Qed.

(** [insert]'s loop walks the path and puts the entry where it lands. *)
Lemma insert_loop_lands (v : jsv) (entry : Entry) (h : t) (d : nat) :
  forall fuel p idx,
    lands h k d p idx = true ->
    (d < fuel)%nat ->
    insert_loop fuel k v entry p idx h
    = Done tt (place h (landing h d idx) (p + Z.of_nat d) entry).
Proof.
  induction d as [|d IH]; intros fuel p idx H Hfuel;
    (destruct fuel as [|fuel]; [lia|]); simpl in *.
  - destruct (bucket_at h idx) as [b|]; [|discriminate].
    destruct (bucket_at h (mask h (idx + 1))) as [b'|]; [|discriminate].
    apply andb_prop in H as [Hv _]. apply vacant_inv in Hv. subst b. simpl.
    unfold place. now rewrite Z.add_0_r.
  - destruct (bucket_at h idx) as [b|]; [|discriminate].
    apply andb_prop in H as [Hp H]. unfold passes in Hp.
    apply andb_prop in Hp as [Hp Hall]. apply andb_prop in Hp as [Hl Hne].
    apply negb_true_iff in Hl. rewrite Hl.
    destruct (entries b) as [|e es] eqn:Hes; [discriminate|].
    rewrite (passes_find_key p (e :: es) 0 Hall).
    simpl in Hall. apply andb_prop in Hall as [He _]. apply andb_prop in He as [_ He].
    apply negb_true_iff in He. rewrite He.
    rewrite (IH fuel (p + 1) (mask h (idx + 1)) H) by lia.
    f_equal. f_equal. lia.
Qed.

Lemma bucket_at_place_other (h : t) (L pp idx : Z) (entry : Entry) :
  Z.to_nat idx <> Z.to_nat L ->
  bucket_at (place h L pp entry) idx = bucket_at h idx.
Proof.
  intros Hne. unfold place, bucket_at.
  destruct (_ <? pp); simpl; apply list_lookup_insert_ne; congruence.
Qed.

Lemma bucket_at_place_same (h : t) (L pp : Z) (entry : Entry) (b : HashBucket) :
  bucket_at h L = Some b ->
  bucket_at (place h L pp entry) L = Some (mkBucket [set_psl pp entry] false).
Proof.
  intros Hb. unfold place, bucket_at in *.
  apply lookup_lt_Some in Hb.
  destruct (_ <? pp); simpl; now apply list_lookup_insert_eq.
Qed.

Lemma mask_place (h : t) (L pp i : Z) (entry : Entry) :
  mask (place h L pp entry) i = mask h i.
Proof. unfold place, mask. destruct (_ <? pp); reflexivity. Qed.

(** [delete]'s loop walks the same path, finds the entry, removes it, and
    the backward shift stops at once. *)
Lemma delete_loop_lands (h : t) (entry : Entry) (L pp : Z) (fuel : nat) :
  key entry = k ->
  (0 < fuel)%nat ->
  bucket_at h L = Some (mkBucket [] false) ->
  (exists b', bucket_at h (mask h (L + 1)) = Some b' /\ shift_stops b' = true) ->
  forall d n p idx,
    lands h k d p idx = true ->
    landing h d idx = L ->
    p + Z.of_nat d = pp ->
    (d < n)%nat ->
    delete_loop n fuel k p idx (place h L pp entry) = Done true (removed h L pp entry).
Proof.
  intros Hkey Hfuel HL (b' & Hb' & Hstop).
  induction d as [|d IH]; intros n p idx H Hland Hpp Hn;
    (destruct n as [|n]; [lia|]); simpl in *.
  - subst idx. assert (p = pp) by lia. subst p.
    rewrite (bucket_at_place_same h L pp entry _ HL). simpl.
    rewrite Hkey, k_eq. simpl.
    destruct fuel as [|fuel]; [lia|].
    unfold _backwardShift.
    set (h2 := set_size _ _).
    assert (Hmask : mask h2 (L + 1) = mask h (L + 1)).
    { subst h2. unfold mask, place; simpl. destruct (_ <? pp); reflexivity. }
    assert (Hlen : (Z.to_nat L < length (buckets h))%nat).
    { unfold bucket_at in HL. now apply lookup_lt_Some in HL. }
    assert (Hbk : buckets h2 = <[Z.to_nat L := mkBucket [] true]> (buckets h)).
    { subst h2. unfold place; simpl.
      destruct (_ <? pp); simpl; now rewrite list_insert_insert_eq. }
    assert (Hshift : backward_loop (S fuel) (mask h2 (L + 1)) h2 = Done tt h2).
    { simpl. rewrite Hmask. unfold bucket_at at 1. rewrite Hbk.
      destruct (decide (Z.to_nat (mask h (L + 1)) = Z.to_nat L)) as [E|E].
      - rewrite E, list_lookup_insert_eq by exact Hlen. reflexivity.
      - rewrite list_lookup_insert_ne by congruence.
        unfold bucket_at in Hb'. rewrite Hb'.
        unfold shift_stops in Hstop. destruct (entries b'); [reflexivity|].
        now rewrite Hstop. }
    rewrite Hshift. simpl. unfold unlock, bucket_at. rewrite Hbk.
    rewrite list_lookup_insert_eq by exact Hlen.
    unfold set_bucket, removed. rewrite Hbk. simpl.
    rewrite list_insert_insert_eq.
    change (set_locked false (mkBucket [] true)) with (mkBucket [] false).
    rewrite (list_insert_id (buckets h) (Z.to_nat L) (mkBucket [] false)) by exact HL.
    reflexivity.
  - destruct (bucket_at h idx) as [b|] eqn:Hb; [|discriminate].
    apply andb_prop in H as [Hp H]. unfold passes in Hp.
    apply andb_prop in Hp as [Hp Hall]. apply andb_prop in Hp as [Hl Hne].
    assert (Hidx : Z.to_nat idx <> Z.to_nat L).
    { intros E. unfold bucket_at in Hb, HL. rewrite E, HL in Hb.
      inversion Hb; subst b. discriminate. }
    rewrite (bucket_at_place_other h L pp idx entry Hidx), Hb.
    apply negb_true_iff in Hl. rewrite Hl.
    rewrite (passes_delete_scan p (entries b) 0 Hall).
    rewrite mask_place.
    apply (IH n (p + 1) (mask h (idx + 1)) H Hland); lia.
Qed.

Lemma insert_without_rehash (fuel : nat) (v : jsv) (h : t) :
  (3 * capacity h <? 4 * size h) = false ->
  insert (S fuel) k v h
  = insert_loop fuel k v (mkEntry k v (_hash k) 0) 0 (mask h (_hash k)) h.
Proof. intros H. simpl. rewrite H. reflexivity. Qed.

(** C6, amended.  When inserting [k] triggers no rehash and the probe
    walks past [d] occupied buckets without stealing any and puts [k] into
    a vacant one, and the bucket after that one is empty or holds an entry
    at its ideal position, then [insert] followed by [delete] returns
    [true] and leaves every bucket as it was. *)
Theorem insert_then_delete_restores_buckets
  (fuel fuel' d : nat) (v : jsv) (h : t)
  (Hload : (3 * capacity h <? 4 * size h) = false)
  (Hpath : lands h k d 0 (mask h (_hash k)) = true)
  (Hfuel : (S d < fuel)%nat)
  (Hfuel' : (0 < fuel')%nat) :
  exists h1 h2,
    insert fuel k v h = Done tt h1
    /\ delete fuel' k h1 = Done true h2
    /\ buckets h2 = buckets h
    /\ size h2 = size h
    /\ capacity h2 = capacity h.
Proof.
  set (entry := mkEntry k v (_hash k) 0).
  set (L := landing h d (mask h (_hash k))).
  exists (place h L (Z.of_nat d) entry), (removed h L (Z.of_nat d) entry).
  destruct (lands_landing h d 0 _ Hpath) as (HL & Hnext).
  split.
  - destruct fuel as [|fuel]; [lia|].
    rewrite (insert_without_rehash fuel v h Hload).
    rewrite (insert_loop_lands v (mkEntry k v (_hash k) 0) h d fuel 0 _ Hpath) by lia.
    reflexivity.
  - split.
    + unfold delete. rewrite mask_place.
      apply (delete_loop_lands h entry L (Z.of_nat d) fuel' eq_refl Hfuel' HL Hnext
               d _ 0 _ Hpath eq_refl); [lia|].
      unfold place; simpl. destruct (maxProbeLength h <? Z.of_nat d) eqn:E; simpl; lia.
    + unfold removed, place. destruct (_ <? Z.of_nat d); simpl; repeat split; lia.
Qed.

End RoundTripFacts.

Section RoundTripWitness.
Import JS HashIndex.

Lemma insert_then_delete_restores_buckets_witness :
  exists h1 h2,
    insert 20 (VStr "k8") (VStr "x") Scenarios.table_k0 = Done tt h1
    /\ delete 20 (VStr "k8") h1 = Done true h2
    /\ buckets h2 = buckets Scenarios.table_k0
    /\ size h2 = size Scenarios.table_k0
    /\ capacity h2 = capacity Scenarios.table_k0.
Proof.
  apply (insert_then_delete_restores_buckets (VStr "k8") eq_refl 20 20 1).
  - vm_compute. reflexivity.
  - vm_compute. reflexivity.
  - lia.
  - lia.
Defined.

End RoundTripWitness.

(** ** The B+ tree: when and how a leaf is split *)

Section SplitFacts.
Import JS BPlusTree Split.









Lemma grows_set_size (z : Z) (tr : t) : grows tr (set_size z tr).
Proof. split; [intros id n H _; now exists n | auto]. Qed.







Lemma elem_In (l : list jsv) (i : nat) : (i < length l)%nat -> In (elem l i) l.
Proof.
  intros H. unfold elem. destruct (l !! i) eqn:E.
  - apply list_elem_of_In. now apply list_elem_of_lookup_2 in E.
  - apply lookup_ge_None in E. lia.
Qed.








Lemma splice_in_length {A} (pos : nat) (x : A) (l : list A) :
  length (splice_in pos x l) = S (length l).
Proof.
  unfold splice_in. rewrite length_app. simpl.
  rewrite <- (firstn_skipn pos l) at 3. rewrite length_app. lia.
Qed.

Local Arguments attach : simpl never.
Local Arguments halve : simpl never.
Local Arguments grow_root : simpl never.
Local Arguments halve_leaf : simpl never.
Local Arguments put : simpl never.





Lemma order_upd (id : nat) (f : Node -> Node) (tr : t) : order (upd id f tr) = order tr.
Proof. unfold upd. now destruct (node_at tr id). Qed.









End SplitFacts.

Section SplitWitness.
Import JS BPlusTree Split Scenarios.


End SplitWitness.

(** ** The B+ tree: a range scan without bounds *)

Section RangeFacts.
Import JS BPlusTree.

Lemma gt_undefined (k : jsv) : gt k VUndefined = false.
Proof. reflexivity. Qed.

Lemma ge_undefined (k : jsv) : ge k VUndefined = false.
Proof. reflexivity. Qed.

Lemma range_leaf_undefined (ks vs : list jsv) (results : list (jsv * jsv)) :
  range_leaf VUndefined VUndefined ks vs results = inr results.
Proof.
  revert vs. induction ks as [|k ks IH]; intros vs; cbn [range_leaf]; [reflexivity|].
  rewrite gt_undefined, ge_undefined. apply IH.
Qed.

Lemma range_loop_undefined (fuel : nat) (tr : t) :
  forall leaf pos results r tr',
    range_loop fuel VUndefined VUndefined leaf pos results tr = Done r tr' ->
    r = results.
Proof.
  induction fuel as [|fuel IH]; intros leaf pos results r tr' H; [discriminate|].
  cbn [range_loop] in H. destruct leaf as [id|]; [|now inversion H].
  destruct (node_at tr id) as [l|]; [|discriminate].
  destruct (data l) as [vs|cs]; rewrite range_leaf_undefined in H.
  - now apply IH in H.
  - rewrite Nat.eqb_refl in H. now apply IH in H.
Qed.

(** Whatever the tree holds, a range scan whose two bounds are [undefined]
    returns nothing. *)
Lemma rangeQuery_undefined_bounds (fuel : nat) (tr tr' : t) (r : list (jsv * jsv)) :
  rangeQuery fuel VUndefined VUndefined tr = Done r tr' -> r = [].
Proof.
  unfold rangeQuery. destruct (_findLeaf fuel VUndefined tr) as [leaf s| | |]; try discriminate.
  simpl. destruct (node_at s leaf); [|discriminate].
  apply range_loop_undefined.
Qed.

End RangeFacts.

(** * Further properties of the code *)

(** ** Hash index: sizing, deletion and lookup *)

Section PowerOfTwoFacts.
Import JS HashIndex.

(** One round [n |= n >> s] of the bit smearing. *)
Lemma smear_high (n s L : Z) :
  0 <= s -> 0 <= L ->
  (forall i, L < i -> Z.testbit n i = false) ->
  forall i, L < i -> Z.testbit (Z.lor n (Z.shiftr n s)) i = false.
Proof.
  intros Hs HL Hn i Hi.
  rewrite Z.lor_spec, Z.shiftr_spec by lia.
  rewrite (Hn i Hi), (Hn (i + s)) by lia. reflexivity.
Qed.

Lemma smear_low (n s w L : Z) :
  0 <= s <= w ->
  (forall i, 0 <= i -> L - w < i <= L -> Z.testbit n i = true) ->
  forall i, 0 <= i -> L - (w + s) < i <= L -> Z.testbit (Z.lor n (Z.shiftr n s)) i = true.
Proof.
  intros Hs Hn i Hi0 Hi.
  rewrite Z.lor_spec, Z.shiftr_spec by lia.
  destruct (Z_lt_le_dec (L - w) i) as [H|H].
  - rewrite (Hn i) by lia. reflexivity.
  - rewrite (Hn (i + s)) by lia. apply orb_true_r.
Qed.

Lemma nextPowerOfTwo_log2_up (n : Z) :
  1 <= n <= 2 ^ 31 -> _nextPowerOfTwo n = 2 ^ Z.log2_up n.
Proof.
  intros Hn. unfold _nextPowerOfTwo.
  assert (E : to_int32 (n - 1) = n - 1).
  { unfold to_int32. rewrite Z.mod_small by lia. lia. }
  rewrite E. clear E.
  destruct (Z.eq_dec n 1) as [->|Hne]; [reflexivity|].
  set (m := n - 1). assert (Hm : 0 < m < 2 ^ 31) by (subst m; lia).
  set (L := Z.log2 m).
  assert (HL : 0 <= L < 31).
  { subst L. split; [apply Z.log2_nonneg|]. apply Z.log2_lt_pow2; lia. }
  assert (Hhi : forall i, L < i -> Z.testbit m i = false).
  { intros i Hi. apply Z.bits_above_log2; lia. }
  assert (Hlo : forall i, 0 <= i -> L - 1 < i <= L -> Z.testbit m i = true).
  { intros i _ Hi. replace i with L by lia. apply Z.bit_log2. lia. }
  set (n1 := Z.lor m (Z.shiftr m 1)).
  set (n2 := Z.lor n1 (Z.shiftr n1 2)).
  set (n3 := Z.lor n2 (Z.shiftr n2 4)).
  set (n4 := Z.lor n3 (Z.shiftr n3 8)).
  set (n5 := Z.lor n4 (Z.shiftr n4 16)).
  assert (H5 : n5 = Z.ones (L + 1)).
  { apply Z.bits_inj'. intros i Hi.
    destruct (Z_lt_le_dec L i) as [H|H].
    - rewrite Z.ones_spec_high by lia.
      subst n5 n4 n3 n2 n1.
      apply (smear_high _ 16 L); [lia|lia| |exact H].
      apply (smear_high _ 8 L); [lia|lia|].
      apply (smear_high _ 4 L); [lia|lia|].
      apply (smear_high _ 2 L); [lia|lia|].
      apply (smear_high _ 1 L); [lia|lia|]. exact Hhi.
    - rewrite Z.ones_spec_low by lia.
      subst n5 n4 n3 n2 n1.
      apply (smear_low _ 16 16 L); [lia| |lia|lia].
      apply (smear_low _ 8 8 L); [lia|].
      apply (smear_low _ 4 4 L); [lia|].
      apply (smear_low _ 2 2 L); [lia|].
      apply (smear_low _ 1 1 L); [lia|]. exact Hlo. }
  rewrite H5, Z.ones_equiv.
  replace (Z.log2_up n) with (L + 1).
  - lia.
  - subst L m. unfold Z.log2_up. destruct (1 ?= n) eqn:C.
    + apply Z.compare_eq in C. lia.
    + unfold Z.pred, Z.succ. replace (n + -1) with (n - 1) by lia. reflexivity.
    + apply Z.compare_gt_iff in C. lia.
Qed.

(** X1.  For a requested capacity between 1 and 2^31, [_nextPowerOfTwo]
    returns the least power of two that is not below it. *)
Theorem nextPowerOfTwo_is_least_power
  (n : Z) (Hn : 1 <= n <= 2 ^ 31) :
  _nextPowerOfTwo n = 2 ^ Z.log2_up n
  /\ n <= _nextPowerOfTwo n < 2 * n
  /\ (forall e, 0 <= e -> n <= 2 ^ e -> _nextPowerOfTwo n <= 2 ^ e).
Proof.
  pose proof (nextPowerOfTwo_log2_up n Hn) as E. rewrite E.
  split; [reflexivity|].
  destruct (Z.eq_dec n 1) as [->|Hne].
  - change (2 ^ Z.log2_up 1) with 1.
    split; [lia|]. intros e He _. pose proof (Z.pow_pos_nonneg 2 e). lia.
  - assert (H1 : 1 < n) by lia.
    pose proof (Z.log2_up_spec n H1) as [Hlow Hup].
    split.
    + split; [exact Hup|].
      replace (2 ^ Z.log2_up n) with (2 * 2 ^ Z.pred (Z.log2_up n)); [lia|].
      rewrite <- Z.pow_succ_r.
      * f_equal. lia.
      * pose proof (Z.log2_up_pos n H1). lia.
    + intros e He Hle. apply Z.pow_le_mono_r; [lia|].
      apply Z.log2_up_le_pow2; lia.
Qed.

Lemma nextPowerOfTwo_is_least_power_witness :
  _nextPowerOfTwo 1000 = 2 ^ Z.log2_up 1000
  /\ 1000 <= _nextPowerOfTwo 1000 < 2 * 1000
  /\ (forall e, 0 <= e -> 1000 <= 2 ^ e -> _nextPowerOfTwo 1000 <= 2 ^ e).
Proof. apply (nextPowerOfTwo_is_least_power 1000). lia. Defined.

End PowerOfTwoFacts.

Section DeleteFacts.
Import JS HashIndex Probe Table.

Lemma delete_loop_false (fuel : nat) (k : jsv) (n : nat) :
  forall p idx h h',
    delete_loop n fuel k p idx h = Done false h' -> h' = h.
Proof.
  induction n as [|n IH]; intros p idx h h' H; simpl in H.
  - now inversion H.
  - destruct (bucket_at h idx) as [b|]; [|discriminate].
    destruct (locked b); [discriminate|].
    destruct (delete_scan k p (entries b) 0) as [i e| |].
    + destruct (_backwardShift fuel idx _) as [[] s|e' s|s|]; simpl in H; discriminate.
    + now inversion H.
    + now apply IH in H.
Qed.

Lemma stored_insert (bs : list HashBucket) (i : nat) (b b' : HashBucket) :
  bs !! i = Some b ->
  (length (all_entries (<[i := b']> bs)) + length (entries b)
   = length (all_entries bs) + length (entries b'))%nat.
Proof.
  revert i. induction bs as [|x bs IH]; intros i H; [discriminate|].
  destruct i as [|i]; simpl in *.
  - inversion H; subst x. unfold all_entries; simpl. rewrite !length_app. lia.
  - specialize (IH i H). unfold all_entries in *; simpl. rewrite !length_app. lia.
Qed.

Lemma steady_refl (h : t) : steady h h.
Proof. repeat split. Qed.

Lemma steady_trans (a b c : t) : steady a b -> steady b c -> steady a c.
Proof.
  intros (A1 & A2 & A3 & A4 & A5) (B1 & B2 & B3 & B4 & B5).
  repeat split; congruence.
Qed.

Lemma steady_set_bucket (h : t) (i : Z) (b b' : HashBucket) :
  bucket_at h i = Some b -> length (entries b') = length (entries b) ->
  steady h (set_bucket i b' h).
Proof.
  intros Hb Hlen. repeat split; simpl.
  - apply length_insert.
  - unfold entry_count; simpl. pose proof (stored_insert _ _ _ b' Hb). lia.
Qed.

Lemma backward_loop_steady (fuel : nat) :
  forall idx h h', backward_loop fuel idx h = Done tt h' -> steady h h'.
Proof.
  induction fuel as [|fuel IH]; intros idx h h' H; simpl in H; [discriminate|].
  destruct (bucket_at h idx) as [b|] eqn:Hb; [|discriminate].
  destruct (entries b) as [|e rest] eqn:Hes; [inversion H; apply steady_refl|].
  destruct (psl e =? 0); [inversion H; apply steady_refl|].
  destruct (locked b); [discriminate|].
  set (e' := set_psl (psl e - 1) e) in *.
  set (h1 := set_bucket idx (mkBucket (e' :: rest) true) h) in *.
  destruct (bucket_at h1 (mask h (idx - 1 + capacity h))) as [pb|] eqn:Hpb; [|discriminate].
  destruct (locked pb) eqn:Hl; [discriminate|].
  apply IH in H. eapply steady_trans; [|exact H]. clear H IH.
  assert (Hlen : (Z.to_nat idx < length (buckets h))%nat)
    by (unfold bucket_at in Hb; now apply lookup_lt_Some in Hb).
  assert (Hne : Z.to_nat (mask h (idx - 1 + capacity h)) <> Z.to_nat idx).
  { intros E. unfold bucket_at, h1 in Hpb; simpl in Hpb.
    rewrite E, list_lookup_insert_eq in Hpb by exact Hlen.
    inversion Hpb; subst pb. discriminate. }
  assert (Hpb0 : bucket_at h (mask h (idx - 1 + capacity h)) = Some pb).
  { unfold bucket_at, h1 in *; simpl in Hpb.
    now rewrite list_lookup_insert_ne in Hpb by congruence. }
  set (j := mask h (idx - 1 + capacity h)) in *.
  unfold steady, entry_count, h1; simpl.
  rewrite !length_insert.
  repeat split.
  pose proof (stored_insert (buckets h) (Z.to_nat idx) b (mkBucket (e' :: rest) true) Hb) as S1.
  assert (Hpb1 : <[Z.to_nat idx := mkBucket (e' :: rest) true]> (buckets h) !! Z.to_nat j = Some pb).
  { rewrite list_lookup_insert_ne by congruence. exact Hpb0. }
  pose proof (stored_insert _ (Z.to_nat j) pb (set_entries (entries pb ++ [e']) pb) Hpb1) as S2.
  assert (Hcur : <[Z.to_nat j := set_entries (entries pb ++ [e']) pb]>
                   (<[Z.to_nat idx := mkBucket (e' :: rest) true]> (buckets h)) !! Z.to_nat idx
                 = Some (mkBucket (e' :: rest) true)).
  { rewrite list_lookup_insert_ne by congruence. now apply list_lookup_insert_eq. }
  pose proof (stored_insert _ (Z.to_nat idx) _ (mkBucket rest false) Hcur) as S3.
  simpl in S1, S2, S3. rewrite Hes in S1. rewrite length_app in S2. simpl in S1, S2. lia.
Qed.

Lemma unlock_steady (i : Z) (h : t) : steady h (unlock i h).
Proof.
  unfold unlock. destruct (bucket_at h i) as [b|] eqn:Hb; [|apply steady_refl].
  now apply (steady_set_bucket h i b).
Qed.

Lemma delete_scan_found (k : jsv) (p : Z) (es : list Entry) :
  forall i0 i e, delete_scan k p es i0 = Found i e ->
                 (i0 <= i < i0 + length es)%nat.
Proof.
  induction es as [|x es IH]; intros i0 i e H; simpl in H; [discriminate|].
  destruct (strict_eq (key x) k).
  - inversion H; subst. simpl. lia.
  - destruct (psl x <? p); [discriminate|]. apply IH in H. simpl. lia.
Qed.

Lemma delete_loop_true (fuel : nat) (k : jsv) (n : nat) :
  forall p idx h h',
    delete_loop n fuel k p idx h = Done true h' ->
    capacity h' = capacity h /\ size h' = size h - 1
    /\ maxProbeLength h' = maxProbeLength h
    /\ length (buckets h') = length (buckets h)
    /\ (entry_count h' + 1 = entry_count h)%nat.
Proof.
  induction n as [|n IH]; intros p idx h h' H; simpl in H; [discriminate|].
  destruct (bucket_at h idx) as [b|] eqn:Hb; [|discriminate].
  destruct (locked b); [discriminate|].
  destruct (delete_scan k p (entries b) 0) as [i e| |] eqn:Hscan.
  - apply delete_scan_found in Hscan.
    set (h2 := set_size _ _) in H.
    unfold _backwardShift in H.
    destruct (backward_loop fuel (mask h2 (idx + 1)) h2) as [[] s|e' s|s|] eqn:Hshift;
      simpl in H; try discriminate.
    inversion H; subst h'; clear H.
    apply backward_loop_steady in Hshift.
    pose proof (unlock_steady idx s) as Hu.
    destruct (steady_trans _ _ _ Hshift Hu) as (C & S & M & Lb & St).
    rewrite C, S, M, Lb, St. subst h2. unfold entry_count; simpl.
    rewrite length_insert. repeat split.
    pose proof (stored_insert (buckets h) (Z.to_nat idx) b
                  (mkBucket (base.delete i (entries b)) true) Hb) as S1.
    simpl in S1.
    assert (length (base.delete i (entries b)) = (length (entries b) - 1)%nat).
    { apply length_delete. apply lookup_lt_is_Some. lia. }
    lia.
  - discriminate.
  - now apply IH in H.
Qed.

(** X2.  A [delete] that answers [false] leaves the table exactly as it
    was; one that answers [true] has removed exactly one entry, lowered
    [size] by one and kept the capacity, the number of buckets and the
    probe bound. *)
Theorem delete_removes_one_or_nothing (fuel : nat) (k : jsv) (h : t) :
  (forall h', delete fuel k h = Done false h' -> h' = h)
  /\ (forall h', delete fuel k h = Done true h' ->
        capacity h' = capacity h /\ size h' = size h - 1
        /\ maxProbeLength h' = maxProbeLength h
        /\ length (buckets h') = length (buckets h)
        /\ (entry_count h' + 1 = entry_count h)%nat).
Proof.
  split; intros h' H.
  - exact (delete_loop_false _ _ _ _ _ _ _ H).
  - exact (delete_loop_true _ _ _ _ _ _ _ H).
Qed.

End DeleteFacts.

Section LookupFacts.
Import JS HashIndex Probe Table.

Variable k : jsv.
Hypothesis k_eq : strict_eq k k = true.

Lemma arrives_landing (h : t) (d : nat) :
  forall p idx,
    arrives h k d p idx = true ->
    bucket_at h (landing h d idx) = Some (mkBucket [] false).
Proof.
  induction d as [|d IH]; intros p idx H; simpl in *.
  - destruct (bucket_at h idx) as [b|]; [|discriminate].
    apply vacant_inv in H. now subst b.
  - destruct (bucket_at h idx) as [b|]; [|discriminate].
    apply andb_prop in H as [_ H]. now apply (IH (p + 1)).
Qed.

Lemma insert_loop_arrives (v : jsv) (entry : Entry) (h : t) (d : nat) :
  forall fuel p idx,
    arrives h k d p idx = true ->
    (d < fuel)%nat ->
    insert_loop fuel k v entry p idx h
    = Done tt (place h (landing h d idx) (p + Z.of_nat d) entry).
Proof.
  induction d as [|d IH]; intros fuel p idx H Hfuel;
    (destruct fuel as [|fuel]; [lia|]); simpl in *.
  - destruct (bucket_at h idx) as [b|]; [|discriminate].
    apply vacant_inv in H. subst b. simpl.
    unfold place. now rewrite Z.add_0_r.
  - destruct (bucket_at h idx) as [b|]; [|discriminate].
    apply andb_prop in H as [Hp H]. unfold passes in Hp.
    apply andb_prop in Hp as [Hp Hall]. apply andb_prop in Hp as [Hl Hne].
    apply negb_true_iff in Hl. rewrite Hl.
    destruct (entries b) as [|e es] eqn:Hes; [discriminate|].
    rewrite (passes_find_key k p (e :: es) 0 Hall).
    simpl in Hall. apply andb_prop in Hall as [He _]. apply andb_prop in He as [_ He].
    apply negb_true_iff in He. rewrite He.
    rewrite (IH fuel (p + 1) (mask h (idx + 1)) H) by lia.
    f_equal. f_equal. lia.
Qed.

Lemma passes_get_scan (hash0 p : Z) (es : list Entry) (i : nat) :
  forallb (fun e => negb (strict_eq (key e) k) && negb (psl e <? p)) es = true ->
  get_scan hash0 k p es i = Next.
Proof.
  revert i. induction es as [|e es IH]; intros i H; simpl in *; [reflexivity|].
  apply andb_prop in H as [He Hes]. apply andb_prop in He as [Hk Hp].
  apply negb_true_iff in Hk, Hp. rewrite Hk, Hp, andb_false_r. now apply IH.
Qed.

(** [get]'s loop walks the path of the insert and finds the entry where
    it was put. *)
Lemma get_loop_arrives (h : t) (entry : Entry) (L pp : Z) :
  key entry = k ->
  bucket_at h L = Some (mkBucket [] false) ->
  forall d n p idx,
    arrives h k d p idx = true ->
    landing h d idx = L ->
    (d < n)%nat ->
    get_loop n (hash entry) k p idx (place h L pp entry) = Some (value entry).
Proof.
  intros Hkey HL.
  induction d as [|d IH]; intros n p idx H Hland Hn;
    (destruct n as [|n]; [lia|]); simpl in *.
  - subst idx.
    rewrite (bucket_at_place_same h L pp entry _ HL). simpl.
    now rewrite Z.eqb_refl, Hkey, k_eq.
  - destruct (bucket_at h idx) as [b|] eqn:Hb; [|discriminate].
    apply andb_prop in H as [Hp H]. unfold passes in Hp.
    apply andb_prop in Hp as [Hp Hall]. apply andb_prop in Hp as [Hl Hne].
    assert (Hidx : Z.to_nat idx <> Z.to_nat L).
    { intros E. unfold bucket_at in Hb, HL. rewrite E, HL in Hb.
      inversion Hb; subst b. discriminate. }
    rewrite (bucket_at_place_other h L pp idx entry Hidx), Hb.
    rewrite (passes_get_scan (hash entry) p (entries b) 0 Hall).
    rewrite mask_place.
    apply (IH n (p + 1) (mask h (idx + 1)) H Hland). lia.
Qed.

Lemma maxProbeLength_place (h : t) (L pp : Z) (entry : Entry) :
  pp <= maxProbeLength (place h L pp entry).
Proof.
  unfold place. destruct (_ <? pp) eqn:E; simpl in *.
  - lia.
  - apply Z.ltb_ge in E. exact E.
Qed.

Lemma insert_get_at_vacancy
  (fuel : nat) (v : jsv) (h : t) (d : nat)
  (Hload : (3 * capacity h <? 4 * size h) = false)
  (Hpath : arrives h k d 0 (mask h (_hash k)) = true)
  (Hfuel : (d + 1 < fuel)%nat) :
  exists h',
    insert fuel k v h = Done tt h'
    /\ get k h' = Some v
    /\ has k h' = Some (negb (strict_eq v VNull))
    /\ size h' = size h + 1
    /\ capacity h' = capacity h.
Proof.
  destruct fuel as [|fuel]; [lia|].
  set (entry := mkEntry k v (_hash k) 0).
  set (L := landing h d (mask h (_hash k))).
  exists (place h L (0 + Z.of_nat d) entry).
  assert (Hget : get k (place h L (0 + Z.of_nat d) entry) = Some v).
  { unfold get. rewrite mask_place.
    apply (get_loop_arrives h entry L (0 + Z.of_nat d) eq_refl
             (arrives_landing h d 0 _ Hpath) d _ 0 _ Hpath eq_refl).
    pose proof (maxProbeLength_place h L (0 + Z.of_nat d) entry). lia. }
  split; [|split; [exact Hget|split]].
  - rewrite (insert_without_rehash k fuel v h Hload).
    apply insert_loop_arrives; [exact Hpath|lia].
  - unfold has. now rewrite Hget.
  - unfold place. destruct (maxProbeLength _ <? _); simpl; split; reflexivity.
Qed.

(** X3.  When inserting [k] triggers no rehash and the probe walks past
    [d] occupied buckets without stealing any and reaches a vacant one,
    [insert(k, v)] returns, [size] grows by one, and [get(k)] then returns
    [v]; [has(k)] is [true] unless [v] is [null]. *)
Theorem insert_then_get_returns_value
  (fuel : nat) (v : jsv) (h : t) (d : nat)
  (Hload : (3 * capacity h <? 4 * size h) = false)
  (Hpath : arrives h k d 0 (mask h (_hash k)) = true)
  (Hfuel : (d + 1 < fuel)%nat) :
  exists h',
    insert fuel k v h = Done tt h'
    /\ get k h' = Some v
    /\ has k h' = Some (negb (strict_eq v VNull))
    /\ size h' = size h + 1
    /\ capacity h' = capacity h.
Proof. exact (insert_get_at_vacancy fuel v h d Hload Hpath Hfuel). Qed.

End LookupFacts.

Section LookupWitness.
Import JS HashIndex Probe Table.

Lemma insert_then_get_returns_value_witness :
  exists h',
    insert 10 (VStr "k8") (VNum 1) Scenarios.table_k0 = Done tt h'
    /\ get (VStr "k8") h' = Some (VNum 1)
    /\ has (VStr "k8") h' = Some (negb (strict_eq (VNum 1) VNull))
    /\ size h' = size Scenarios.table_k0 + 1
    /\ capacity h' = capacity Scenarios.table_k0.
Proof.
  apply (insert_then_get_returns_value (VStr "k8") eq_refl 10 (VNum 1) Scenarios.table_k0 1);
    [reflexivity | vm_compute; reflexivity | lia].
Defined.

End LookupWitness.

Section FreshFacts.
Import JS HashIndex Probe Table.

Lemma lookup_repeat {A} (x : A) (n i : nat) : (i < n)%nat -> repeat x n !! i = Some x.
Proof.
  revert i. induction n as [|n IH]; intros i Hi; [lia|].
  destruct i as [|i]; simpl; [reflexivity|]. apply IH. lia.
Qed.

Lemma Forall_repeat {A} (P : A -> Prop) (x : A) (n : nat) : P x -> Forall P (repeat x n).
Proof. intros Hx. induction n; simpl; constructor; auto. Qed.

Lemma capacity_new (c : Z) :
  1 <= c <= 2 ^ 31 -> capacity (new c) = 2 ^ Z.log2_up c.
Proof. intros Hc. unfold new; simpl. now apply nextPowerOfTwo_log2_up. Qed.

Lemma new_sound (c : Z) : 1 <= c <= 2 ^ 31 -> sound (new c).
Proof.
  intros Hc. pose proof (capacity_new c Hc) as E.
  assert (H0 : 0 <= Z.log2_up c) by apply Z.log2_up_nonneg.
  split; [exists (Z.to_nat (Z.log2_up c)); rewrite E; f_equal; lia|].
  unfold new in *; simpl in *.
  split; [rewrite repeat_length; pose proof (Z.pow_pos_nonneg 2 (Z.log2_up c)); lia|].
  split; [apply Forall_repeat; split; simpl; [reflexivity|lia]|].
  now rewrite occupancy_repeat.
Qed.

Lemma bucket_at_new (c i : Z) :
  1 <= c <= 2 ^ 31 -> bucket_at (new c) (mask (new c) i) = Some emptyBucket.
Proof.
  intros Hc. pose proof (capacity_new c Hc) as E.
  assert (H0 : 0 <= Z.log2_up c) by apply Z.log2_up_nonneg.
  pose proof (mask_range (new c) (Z.to_nat (Z.log2_up c)) i) as R.
  rewrite Z2Nat.id in R by lia. specialize (R E).
  unfold bucket_at. unfold new at 1; simpl.
  apply lookup_repeat. unfold new in R; simpl in R. lia.
Qed.

(** What a table answers before anything was inserted, and after the
    first insert. *)
Lemma fresh_table_answers (c : Z) (k : jsv) (Hc : 1 <= c <= 2 ^ 31) :
  sound (new c)
  /\ get k (new c) = Some VNull
  /\ has k (new c) = Some false
  /\ (forall fuel, delete fuel k (new c) = Done false (new c))
  /\ (forall v fuel, strict_eq k k = true -> (1 < fuel)%nat ->
        exists h', insert fuel k v (new c) = Done tt h'
                   /\ get k h' = Some v /\ size h' = 1).
Proof.
  pose proof (bucket_at_new c (_hash k) Hc) as Hb.
  assert (Hget : get k (new c) = Some VNull).
  { unfold get. change (maxProbeLength (new c)) with 0. simpl. now rewrite Hb. }
  split; [now apply new_sound|].
  split; [exact Hget|].
  split; [unfold has; now rewrite Hget|].
  split.
  - intros fuel. unfold delete. change (maxProbeLength (new c)) with 0. simpl.
    now rewrite Hb.
  - intros v fuel Hk Hfuel.
    destruct (insert_get_at_vacancy k Hk fuel v (new c) 0) as (h' & Hi & Hg & _ & Hs & _).
    + pose proof (capacity_new c Hc) as E.
      pose proof (Z.pow_pos_nonneg 2 (Z.log2_up c)) as P.
      pose proof (Z.log2_up_nonneg c).
      apply Z.ltb_ge. change (size (new c)) with 0. lia.
    + simpl. now rewrite Hb.
    + lia.
    + exists h'. split; [exact Hi|]. split; [exact Hg|]. exact Hs.
Qed.

(** X4.  A table built for a capacity between 1 and 2^31 has a power-of-two
    number of empty, unlocked buckets.  Before anything is inserted every
    [get] answers [null], every [has] answers [false] and every [delete]
    answers [false] and changes nothing; after a first [insert(k, v)] of a
    primitive key, [get(k)] answers [v]. *)
Theorem new_table_is_empty_and_sound (c : Z) (k : jsv) (Hc : 1 <= c <= 2 ^ 31) :
  sound (new c)
  /\ get k (new c) = Some VNull
  /\ has k (new c) = Some false
  /\ (forall fuel, delete fuel k (new c) = Done false (new c))
  /\ (forall v fuel, strict_eq k k = true -> (1 < fuel)%nat ->
        exists h', insert fuel k v (new c) = Done tt h'
                   /\ get k h' = Some v /\ size h' = 1).
Proof. exact (fresh_table_answers c k Hc). Qed.

Lemma new_table_is_empty_and_sound_witness :
  sound (new 16)
  /\ get (VStr "a") (new 16) = Some VNull
  /\ has (VStr "a") (new 16) = Some false
  /\ (forall fuel, delete fuel (VStr "a") (new 16) = Done false (new 16))
  /\ (forall v fuel, strict_eq (VStr "a") (VStr "a") = true -> (1 < fuel)%nat ->
        exists h', insert fuel (VStr "a") v (new 16) = Done tt h'
                   /\ get (VStr "a") h' = Some v /\ size h' = 1).
Proof. apply (new_table_is_empty_and_sound 16 (VStr "a")). lia. Defined.

End FreshFacts.

Section ShardFacts.
Import JS.

Lemma shard_in_range (k : jsv) (n : nat) (h : HashIndex.t) (c : Z) :
  0 < c -> Z.of_nat n = c ->
  ShardedHashIndex._getShard k (ShardedHashIndex.mk c (repeat h n)) = Some h.
Proof.
  intros Hc Hn. unfold ShardedHashIndex._getShard, ShardedHashIndex.shardIndex; simpl.
  apply lookup_repeat. pose proof (Z.mod_pos_bound (ShardedHashIndex._hash k) c Hc). lia.
Qed.

(** An operation on a sharded index works on the shard of its key and on
    no other. *)
Lemma insert_in_shard (fuel : nat) (k v : jsv) (s s' : ShardedHashIndex.t) :
  ShardedHashIndex.insert fuel k v s = Done tt s' ->
  exists h h',
    ShardedHashIndex._getShard k s = Some h
    /\ HashIndex.insert fuel k v h = Done tt h'
    /\ s' = ShardedHashIndex.set_shard k s h'.
Proof.
  unfold ShardedHashIndex.insert.
  destruct (ShardedHashIndex._getShard k s) as [h|] eqn:Hs; [|discriminate].
  destruct (HashIndex.insert fuel k v h) as [[] h'|e h'|h'|] eqn:Hi; simpl; try discriminate.
  intros H. inversion H. now exists h, h'.
Qed.

Lemma delete_in_shard (fuel : nat) (k : jsv) (b : bool) (s s' : ShardedHashIndex.t) :
  ShardedHashIndex.delete fuel k s = Done b s' ->
  exists h h',
    ShardedHashIndex._getShard k s = Some h
    /\ HashIndex.delete fuel k h = Done b h'
    /\ s' = ShardedHashIndex.set_shard k s h'.
Proof.
  unfold ShardedHashIndex.delete.
  destruct (ShardedHashIndex._getShard k s) as [h|] eqn:Hs; [|discriminate].
  destruct (HashIndex.delete fuel k h) as [b' h'|e h'|h'|] eqn:Hi; simpl; try discriminate.
  intros H. inversion H. subst. now exists h, h'.
Qed.

Lemma get_set_shard (k k2 : jsv) (s : ShardedHashIndex.t) (h h' : HashIndex.t) :
  ShardedHashIndex._getShard k s = Some h ->
  ShardedHashIndex.get k2 (ShardedHashIndex.set_shard k s h')
  = if decide (Z.to_nat (ShardedHashIndex.shardIndex k2 s)
               = Z.to_nat (ShardedHashIndex.shardIndex k s))
    then HashIndex.get k2 h'
    else ShardedHashIndex.get k2 s.
Proof.
  intros Hs. unfold ShardedHashIndex.get, ShardedHashIndex._getShard in *.
  unfold ShardedHashIndex.set_shard, ShardedHashIndex.shardIndex in *; simpl.
  destruct (decide _) as [E|E].
  - rewrite E, list_lookup_insert_eq; [reflexivity|]. now apply lookup_lt_Some in Hs.
  - now rewrite list_lookup_insert_ne by congruence.
Qed.

(** X5.  On a sharded index, [insert] and [delete] run on the one shard
    that the hash of the key selects: afterwards a key of the same shard
    is looked up in the shard as the operation left it, and the lookup of
    a key of any other shard is what it was before. *)
Theorem sharded_operations_stay_in_their_shard
  (fuel : nat) (k v k2 : jsv) (s : ShardedHashIndex.t) :
  (forall s',
      ShardedHashIndex.insert fuel k v s = Done tt s' ->
      exists h h',
        ShardedHashIndex._getShard k s = Some h
        /\ HashIndex.insert fuel k v h = Done tt h'
        /\ ShardedHashIndex.get k2 s'
           = if decide (Z.to_nat (ShardedHashIndex.shardIndex k2 s)
                        = Z.to_nat (ShardedHashIndex.shardIndex k s))
             then HashIndex.get k2 h'
             else ShardedHashIndex.get k2 s)
  /\ (forall b s',
      ShardedHashIndex.delete fuel k s = Done b s' ->
      exists h h',
        ShardedHashIndex._getShard k s = Some h
        /\ HashIndex.delete fuel k h = Done b h'
        /\ ShardedHashIndex.get k2 s'
           = if decide (Z.to_nat (ShardedHashIndex.shardIndex k2 s)
                        = Z.to_nat (ShardedHashIndex.shardIndex k s))
             then HashIndex.get k2 h'
             else ShardedHashIndex.get k2 s).
Proof.
  split.
  - intros s' H. apply insert_in_shard in H as (h & h' & Hs & Hi & ->).
    exists h, h'. split; [exact Hs|]. split; [exact Hi|]. exact (get_set_shard k k2 s h h' Hs).
  - intros b s' H. apply delete_in_shard in H as (h & h' & Hs & Hi & ->).
    exists h, h'. split; [exact Hs|]. split; [exact Hi|]. exact (get_set_shard k k2 s h h' Hs).
Qed.

(** X6.  The sharded index that [createIndex] builds, [new
    ShardedHashIndex(16)], answers [null] to every [get] while it is
    empty, and after [insert(k, v)] of a primitive key it answers [v] to
    [get(k)]. *)
Theorem fresh_sharded_index_round_trip (k v : jsv) (fuel : nat)
  (Hk : strict_eq k k = true) (Hfuel : (1 < fuel)%nat) :
  ShardedHashIndex.get k (ShardedHashIndex.new 16) = Some VNull
  /\ exists s', ShardedHashIndex.insert fuel k v (ShardedHashIndex.new 16) = Done tt s'
                /\ ShardedHashIndex.get k s' = Some v.
Proof.
  assert (Hc : 1 <= HashIndex.INITIAL_CAPACITY <= 2 ^ 31) by (unfold HashIndex.INITIAL_CAPACITY; lia).
  destruct (fresh_table_answers HashIndex.INITIAL_CAPACITY k Hc) as (_ & Hg & _ & _ & Hins).
  assert (Hs : ShardedHashIndex._getShard k (ShardedHashIndex.new 16)
               = Some (HashIndex.new HashIndex.INITIAL_CAPACITY)).
  { apply shard_in_range; [lia|reflexivity]. }
  split.
  - unfold ShardedHashIndex.get. now rewrite Hs.
  - destruct (Hins v fuel Hk Hfuel) as (h' & Hi & Hg' & _).
    exists (ShardedHashIndex.set_shard k (ShardedHashIndex.new 16) h').
    split.
    + unfold ShardedHashIndex.insert. rewrite Hs, Hi. reflexivity.
    + rewrite (get_set_shard k k (ShardedHashIndex.new 16) _ h' Hs).
      destruct (decide _) as [_|N]; [exact Hg'|contradiction].
Qed.

Lemma fresh_sharded_index_round_trip_witness :
  ShardedHashIndex.get (VStr "a") (ShardedHashIndex.new 16) = Some VNull
  /\ exists s', ShardedHashIndex.insert 2 (VStr "a") (VNum 7) (ShardedHashIndex.new 16) = Done tt s'
                /\ ShardedHashIndex.get (VStr "a") s' = Some (VNum 7).
Proof. apply (fresh_sharded_index_round_trip (VStr "a") (VNum 7) 2); [reflexivity|lia]. Defined.

End ShardFacts.

(** ** B+ tree: positions, leaves, the first split, ranges and deletion *)

Section SearchFacts.
Import JS BPlusTree Leaf.

Lemma fkp_loop_bounds (ks : list jsv) (k : jsv) (Hpart : partitioned ks k) (fuel : nat) :
  forall left right,
    (left <= right <= length ks)%nat ->
    (right - left <= fuel)%nat ->
    (forall i a, (i < left)%nat -> ks !! i = Some a -> lt a k = true) ->
    (forall i a, (right <= i)%nat -> ks !! i = Some a -> lt a k = false) ->
    (left <= fkp_loop fuel ks k left right <= right)%nat
    /\ (forall i a, (i < fkp_loop fuel ks k left right)%nat -> ks !! i = Some a -> lt a k = true)
    /\ (forall i a, (fkp_loop fuel ks k left right <= i)%nat -> ks !! i = Some a -> lt a k = false).
Proof.
  induction fuel as [|fuel IH]; intros left right Hlr Hfuel Hlo Hhi; cbn [fkp_loop].
  - assert (left = right) by lia. subst. split; [lia|]. split; assumption.
  - destruct (left <? right)%nat eqn:E.
    + apply Nat.ltb_lt in E.
      assert (Hmid : (left <= (left + right) / 2 < right)%nat).
      { split; [apply Nat.div_le_lower_bound; lia|apply Nat.Div0.div_lt_upper_bound; lia]. }
      set (mid := ((left + right) / 2)%nat) in *.
      destruct (ks !! mid) as [km|] eqn:Hkm.
      * destruct (lt km k) eqn:Hlt.
        -- destruct (IH (mid + 1)%nat right) as (B & L & H); try lia.
           ++ intros i a Hi Ha. destruct (lt a k) eqn:Ha'; [reflexivity|].
              destruct (decide (i = mid)) as [->|Hne]; [congruence|].
              assert (Hc : lt km k = false) by (apply (Hpart i mid a km); auto; lia).
              congruence.
           ++ exact Hhi.
           ++ split; [lia|]. split; assumption.
        -- destruct (IH left mid) as (B & L & H); try lia.
           ++ exact Hlo.
           ++ intros i a Hi Ha.
              destruct (decide (i = mid)) as [->|Hne]; [congruence|].
              apply (Hpart mid i km a); auto; lia.
           ++ split; [lia|]. split; assumption.
      * apply lookup_ge_None in Hkm. lia.
    + apply Nat.ltb_ge in E. assert (left = right) by lia. subst.
      split; [lia|]. split; assumption.
Qed.

(** The binary search returns the lower bound of [k]. *)
Lemma findKeyPosition_bounds (ks : list jsv) (k : jsv) :
  partitioned ks k ->
  (findKeyPosition ks k <= length ks)%nat
  /\ (forall i a, (i < findKeyPosition ks k)%nat -> ks !! i = Some a -> lt a k = true)
  /\ (forall i a, (findKeyPosition ks k <= i)%nat -> ks !! i = Some a -> lt a k = false).
Proof.
  intros Hpart. unfold findKeyPosition.
  destruct (fkp_loop_bounds ks k Hpart (length ks) 0 (length ks)) as (B & L & H); try lia.
  - intros i a Hi Ha. apply lookup_lt_Some in Ha. exfalso. lia.
  - split; [lia|]. split; assumption.
Qed.

(** The lower bound is the only position with that property. *)
Lemma findKeyPosition_unique (ks : list jsv) (k : jsv) (n : nat) :
  (n <= length ks)%nat ->
  (forall i a, (i < n)%nat -> ks !! i = Some a -> lt a k = true) ->
  (forall i a, (n <= i)%nat -> ks !! i = Some a -> lt a k = false) ->
  findKeyPosition ks k = n.
Proof.
  intros Hn Hlo Hhi.
  assert (Hpart : partitioned ks k).
  { intros i j a b Hij Ha Hb Hf. apply (Hhi j b); [|exact Hb].
    destruct (Nat.le_gt_cases n i) as [?|Hlt]; [lia|].
    rewrite (Hlo i a Hlt Ha) in Hf. discriminate. }
  destruct (findKeyPosition_bounds ks k Hpart) as (B & L & H).
  set (pos := findKeyPosition ks k) in *.
  destruct (Nat.lt_trichotomy pos n) as [Hlt|[E|Hgt]]; [|exact E|].
  - destruct (lookup_lt_is_Some_2 ks pos) as [a Ha]; [lia|].
    specialize (H pos a (Nat.le_refl _) Ha). rewrite (Hlo pos a Hlt Ha) in H. discriminate.
  - destruct (lookup_lt_is_Some_2 ks n) as [a Ha]; [lia|].
    specialize (L n a Hgt Ha). rewrite (Hhi n a (Nat.le_refl _) Ha) in L. discriminate.
Qed.

(** X7.  On keys among which those below [k] come first (every ascending
    array), [findKeyPosition(k)] is the lower bound of [k]: a position
    within the array such that exactly the keys before it are below [k]. *)
Theorem findKeyPosition_is_lower_bound (ks : list jsv) (k : jsv)
  (Hpart : partitioned ks k) :
  (findKeyPosition ks k <= length ks)%nat
  /\ (forall i a, (i < findKeyPosition ks k)%nat -> ks !! i = Some a -> lt a k = true)
  /\ (forall i a, (findKeyPosition ks k <= i)%nat -> ks !! i = Some a -> lt a k = false).
Proof. exact (findKeyPosition_bounds ks k Hpart). Qed.

(** Ascending numbers are partitioned by every number. *)
Lemma sorted_partitioned (zs : list Z) (z : Z) :
  StronglySorted Z.lt zs -> partitioned (List.map VNum zs) (VNum z).
Proof.
  intros Hs i j a b Hij Ha Hb Hf.
  rewrite list_lookup_fmap in Ha, Hb.
  destruct (zs !! i) as [x|] eqn:Hx; [|discriminate].
  destruct (zs !! j) as [y|] eqn:Hy; [|discriminate].
  inversion Ha; inversion Hb; subst a b. simpl in *.
  apply Z.ltb_ge in Hf. apply Z.ltb_ge.
  assert (x < y); [|lia].
  clear Hf. revert i j Hij Hx Hy. induction Hs as [|h t Hs IH Hall]; intros i j Hij Hx Hy.
  - discriminate.
  - destruct i as [|i], j as [|j]; try lia; simpl in *.
    + inversion Hx; subst h. rewrite Forall_forall in Hall. apply Hall.
      eapply list_elem_of_lookup_2. exact Hy.
    + apply (IH i j); auto; lia.
Qed.

Lemma findKeyPosition_is_lower_bound_witness :
  (findKeyPosition (List.map VNum [10; 20; 30]%Z) (VNum 20) <= length (List.map VNum [10; 20; 30]%Z))%nat
  /\ (forall i a, (i < findKeyPosition (List.map VNum [10; 20; 30]%Z) (VNum 20))%nat ->
        List.map VNum [10; 20; 30]%Z !! i = Some a -> lt a (VNum 20) = true)
  /\ (forall i a, (findKeyPosition (List.map VNum [10; 20; 30]%Z) (VNum 20) <= i)%nat ->
        List.map VNum [10; 20; 30]%Z !! i = Some a -> lt a (VNum 20) = false).
Proof.
  apply (findKeyPosition_is_lower_bound (List.map VNum [10; 20; 30]%Z) (VNum 20)).
  apply sorted_partitioned. repeat constructor.
Defined.

End SearchFacts.

Section LeafFacts.
Import JS BPlusTree Leaf.

Local Arguments findKeyPosition : simpl never.
Local Arguments splice_in : simpl never.
Local Arguments array_set : simpl never.
Local Arguments elem : simpl never.
Local Arguments _splitLeaf : simpl never.
Local Arguments put : simpl never.

Lemma lt_irrefl (a : jsv) : lt a a = false.
Proof.
  assert (S : forall s, string_ltb s s = false).
  { induction s as [|c s IH]; simpl; [reflexivity|]. now rewrite Nat.ltb_irrefl. }
  unfold lt. destruct a as [| |b|n|s|xs|kvs]; simpl; rewrite ?S, ?Z.ltb_irrefl; reflexivity.
Qed.

Lemma splice_in_lookup_lt {A} (pos i : nat) (x : A) (l : list A) :
  (i < pos <= length l)%nat -> splice_in pos x l !! i = l !! i.
Proof.
  intros H. unfold splice_in. change (firstn pos l) with (take pos l).
  rewrite lookup_app_l by (rewrite length_take; lia). apply lookup_take_lt. lia.
Qed.

Lemma splice_in_lookup_eq {A} (pos : nat) (x : A) (l : list A) :
  (pos <= length l)%nat -> splice_in pos x l !! pos = Some x.
Proof.
  intros H. unfold splice_in. change (firstn pos l) with (take pos l).
  rewrite lookup_app_r by (rewrite length_take; lia).
  rewrite length_take. replace (pos - pos `min` length l)%nat with 0%nat by lia. reflexivity.
Qed.

Lemma splice_in_lookup_gt {A} (pos i : nat) (x : A) (l : list A) :
  (pos < i)%nat -> (pos <= length l)%nat -> splice_in pos x l !! i = l !! (i - 1)%nat.
Proof.
  intros Hi H. unfold splice_in. change (firstn pos l) with (take pos l).
  change (skipn pos l) with (drop pos l).
  rewrite lookup_app_r by (rewrite length_take; lia).
  rewrite length_take. replace (i - pos `min` length l)%nat with (S (i - pos - 1)) by lia.
  simpl. rewrite lookup_drop. f_equal. lia.
Qed.

(** The position of a key that has just been spliced in at its lower
    bound is that lower bound. *)
Lemma findKeyPosition_splice (ks : list jsv) (k : jsv) :
  partitioned ks k ->
  findKeyPosition (splice_in (findKeyPosition ks k) k ks) k = findKeyPosition ks k.
Proof.
  intros Hpart. destruct (findKeyPosition_bounds ks k Hpart) as (B & L & H).
  set (pos := findKeyPosition ks k) in *.
  apply findKeyPosition_unique.
  - rewrite splice_in_length. lia.
  - intros i a Hi Ha. rewrite splice_in_lookup_lt in Ha by lia. now apply (L i).
  - intros i a Hi Ha. destruct (decide (i = pos)) as [->|Hne].
    + rewrite splice_in_lookup_eq in Ha by lia. inversion Ha. apply lt_irrefl.
    + rewrite splice_in_lookup_gt in Ha by lia. apply (H (i - 1)%nat); [lia|exact Ha].
Qed.

Lemma elem_splice_in (l : list jsv) (pos : nat) (x : jsv) :
  (pos <= length l)%nat -> elem (splice_in pos x l) pos = x.
Proof. intros H. unfold elem. now rewrite splice_in_lookup_eq. Qed.

Lemma single_insert (fuel : nat) (ord : Z) (ks vs : list jsv) (sz : Z) (k v : jsv) :
  (0 < fuel)%nat ->
  insert fuel k v (single ord ks vs sz)
  = if present ks k
    then Done tt (single ord ks (array_set (Z.of_nat (findKeyPosition ks k)) v vs) sz)
    else if ord - 1 <=? Z.of_nat (length (splice_in (findKeyPosition ks k) k ks))
         then finally_
                (finally_
                   (_splitLeaf fuel 0
                      (put 0 (findKeyPosition ks k) k v vs
                         (mk ord [mkNode ord ks (LeafData vs) None None true] 0%nat 0%nat sz true)))
                   (upd 0 (set_locked false)))
                (set_structureLocked false)
         else Done tt (single ord (splice_in (findKeyPosition ks k) k ks)
                         (splice_in (findKeyPosition ks k) v vs) (sz + 1)).
Proof.
  intros Hfuel. destruct fuel as [|fuel]; [lia|].
  unfold insert, with_structure_lock, _findLeaf, with_lock, single, present. simpl.
  destruct ((findKeyPosition ks k <? length ks)%nat
            && strict_eq (elem ks (findKeyPosition ks k)) k); [reflexivity|].
  destruct (ord - 1 <=? Z.of_nat (length (splice_in (findKeyPosition ks k) k ks)));
    reflexivity.
Qed.

Lemma single_search (fuel : nat) (ord : Z) (ks vs : list jsv) (sz : Z) (k : jsv) :
  (0 < fuel)%nat ->
  search fuel k (single ord ks vs sz)
  = Done (if present ks k then elem vs (findKeyPosition ks k) else VNull)
         (single ord ks vs sz).
Proof.
  intros Hfuel. destruct fuel as [|fuel]; [lia|].
  unfold search, _findLeaf, single, present. simpl.
  destruct ((findKeyPosition ks k <? length ks)%nat
            && strict_eq (elem ks (findKeyPosition ks k)) k); reflexivity.
Qed.

Lemma leaf_round_trip
  (fuel : nat) (ord : Z) (ks vs : list jsv) (sz : Z) (k v : jsv)
  (Hfuel : (0 < fuel)%nat)
  (Hpart : partitioned ks k)
  (Hk : strict_eq k k = true)
  (Hvs : length vs = length ks)
  (Hroom : present ks k = false -> Z.of_nat (length ks) + 1 < ord - 1) :
  exists ks' vs',
    insert fuel k v (single ord ks vs sz)
    = Done tt (single ord ks' vs' (if present ks k then sz else sz + 1))
    /\ search fuel k (single ord ks' vs' (if present ks k then sz else sz + 1))
       = Done v (single ord ks' vs' (if present ks k then sz else sz + 1))
    /\ length vs' = length ks'
    /\ (length ks' = if present ks k then length ks else S (length ks)).
Proof.
  destruct (findKeyPosition_bounds ks k Hpart) as (B & _ & _).
  rewrite single_insert by exact Hfuel.
  destruct (present ks k) eqn:Hp.
  - exists ks, (array_set (Z.of_nat (findKeyPosition ks k)) v vs).
    split; [reflexivity|].
    unfold present in Hp. apply andb_prop in Hp as [Hlt Heq].
    assert (Hlt' := Hlt). apply Nat.ltb_lt in Hlt'.
    assert (Hset : array_set (Z.of_nat (findKeyPosition ks k)) v vs
                   = <[findKeyPosition ks k := v]> vs).
    { unfold array_set. destruct (Z.of_nat _ <? 0) eqn:E; [apply Z.ltb_lt in E; lia|].
      rewrite Nat2Z.id. destruct (_ <? length vs)%nat eqn:E2; [reflexivity|].
      apply Nat.ltb_ge in E2. lia. }
    rewrite Hset. split; [|split; [now rewrite length_insert|reflexivity]].
    rewrite single_search by exact Hfuel.
    unfold present. rewrite Hlt, Heq. simpl.
    unfold elem. rewrite list_lookup_insert_eq by lia. reflexivity.
  - specialize (Hroom eq_refl).
    rewrite splice_in_length.
    destruct (ord - 1 <=? Z.of_nat (S (length ks))) eqn:E; [apply Z.leb_le in E; lia|].
    exists (splice_in (findKeyPosition ks k) k ks), (splice_in (findKeyPosition ks k) v vs).
    split; [reflexivity|].
    split; [|split; [now rewrite !splice_in_length, Hvs|apply splice_in_length]].
    rewrite single_search by exact Hfuel.
    unfold present. rewrite (findKeyPosition_splice ks k Hpart), splice_in_length.
    rewrite elem_splice_in by exact B. rewrite Hk.
    replace ((findKeyPosition ks k <? S (length ks))%nat) with true
      by (symmetry; apply Nat.ltb_lt; lia).
    simpl. rewrite elem_splice_in by lia. reflexivity.
Qed.

(** X8.  In a tree that has not split, with the keys of its leaf in
    order, [insert] followed by [search] of the same key returns the value
    inserted, whether the key was new (and then the leaf has room for it)
    or already there (and then its value is replaced and the size stays);
    keys and values stay aligned. *)
Theorem leaf_insert_then_search_returns_value
  (fuel : nat) (ord : Z) (ks vs : list jsv) (sz : Z) (k v : jsv)
  (Hfuel : (0 < fuel)%nat)
  (Hpart : partitioned ks k)
  (Hk : strict_eq k k = true)
  (Hvs : length vs = length ks)
  (Hroom : present ks k = false -> Z.of_nat (length ks) + 1 < ord - 1) :
  exists ks' vs',
    insert fuel k v (single ord ks vs sz)
    = Done tt (single ord ks' vs' (if present ks k then sz else sz + 1))
    /\ search fuel k (single ord ks' vs' (if present ks k then sz else sz + 1))
       = Done v (single ord ks' vs' (if present ks k then sz else sz + 1))
    /\ length vs' = length ks'
    /\ (length ks' = if present ks k then length ks else S (length ks)).
Proof. exact (leaf_round_trip fuel ord ks vs sz k v Hfuel Hpart Hk Hvs Hroom). Qed.

End LeafFacts.

Section LeafWitness.
Import JS.

Lemma partitioned_1_3 : Leaf.partitioned [VNum 1; VNum 3] (VNum 2).
Proof.
  intros i j a b Hij Ha Hb Hlt.
  destruct i as [|[|i]], j as [|[|j]]; simpl in *; try lia; try discriminate;
    inversion Ha; inversion Hb; subst; simpl in *; try discriminate; reflexivity.
Qed.

Lemma leaf_insert_then_search_returns_value_witness :
  exists ks' vs',
    BPlusTree.insert 1 (VNum 2) (VStr "b")
      (Leaf.single 8 [VNum 1; VNum 3] [VStr "a"; VStr "c"] 2)
    = Done tt (Leaf.single 8 ks' vs'
                 (if Leaf.present [VNum 1; VNum 3] (VNum 2) then 2 else 2 + 1))
    /\ BPlusTree.search 1 (VNum 2)
         (Leaf.single 8 ks' vs'
            (if Leaf.present [VNum 1; VNum 3] (VNum 2) then 2 else 2 + 1))
       = Done (VStr "b")
           (Leaf.single 8 ks' vs'
              (if Leaf.present [VNum 1; VNum 3] (VNum 2) then 2 else 2 + 1))
    /\ length vs' = length ks'
    /\ (length ks' = if Leaf.present [VNum 1; VNum 3] (VNum 2)
                     then length [VNum 1; VNum 3] else S (length [VNum 1; VNum 3])).
Proof.
  apply (leaf_insert_then_search_returns_value 1 8 [VNum 1; VNum 3] [VStr "a"; VStr "c"] 2
           (VNum 2) (VStr "b"));
    [lia | exact partitioned_1_3 | reflexivity | reflexivity | intros _; simpl; lia].
Defined.

End LeafWitness.

Section FirstSplitFacts.
Import JS BPlusTree Leaf.

Local Arguments findKeyPosition : simpl never.
Local Arguments splice_in : simpl never.
Local Arguments array_set : simpl never.
Local Arguments elem : simpl never.
Local Arguments Nat.div : simpl never.
Local Arguments firstn : simpl never.
Local Arguments skipn : simpl never.

Lemma single_insert_split (fuel : nat) (ord : Z) (ks vs : list jsv) (sz : Z) (k v : jsv) :
  (0 < fuel)%nat ->
  present ks k = false ->
  ord - 1 <= Z.of_nat (length ks) + 1 ->
  insert fuel k v (single ord ks vs sz)
  = Done tt (split_root ord (splice_in (findKeyPosition ks k) k ks)
                            (splice_in (findKeyPosition ks k) v vs) (sz + 1)).
Proof.
  intros Hfuel Hp Hfull. rewrite single_insert by exact Hfuel. rewrite Hp.
  rewrite splice_in_length.
  destruct (ord - 1 <=? Z.of_nat (S (length ks))) eqn:E; [|apply Z.leb_gt in E; lia].
  unfold _splitLeaf, put, halve_leaf, grow_root, split_root. simpl.
  rewrite splice_in_length. reflexivity.
Qed.

Lemma split_search (fuel : nat) (ord : Z) (ks vs : list jsv) (sz : Z) (x : jsv) :
  (1 < fuel)%nat ->
  search fuel x (split_root ord ks vs sz)
  = Done (if lt (elem (skipn (length ks / 2) ks) 0) x
          then leaf_lookup (skipn (length ks / 2) ks) (skipn (length ks / 2) vs) x
          else leaf_lookup (firstn (length ks / 2) ks) (firstn (length ks / 2) vs) x)
         (split_root ord ks vs sz).
Proof.
  intros Hfuel. destruct fuel as [|[|fuel]]; try lia.
  unfold search, _findLeaf, split_root, leaf_lookup, present. simpl.
  unfold findKeyPosition at 1. simpl.
  destruct (lt (elem (skipn (length ks / 2) ks) 0) x); simpl.
  - destruct (_ && _); reflexivity.
  - destruct (_ && _); reflexivity.
Qed.

End FirstSplitFacts.

Section FirstSplitNumbers.
Import JS BPlusTree Leaf.

Lemma ascending_partitioned (zs : list Z) (z : Z) :
  ascending zs -> partitioned (List.map VNum zs) (VNum z).
Proof.
  intros Hs i j a b Hij Ha Hb Hf.
  rewrite list_lookup_fmap in Ha, Hb.
  destruct (zs !! i) as [x|] eqn:Hx; [|discriminate].
  destruct (zs !! j) as [y|] eqn:Hy; [|discriminate].
  inversion Ha; inversion Hb; subst a b. simpl in *.
  apply Z.ltb_ge in Hf. apply Z.ltb_ge.
  pose proof (Hs i j x y Hij Hx Hy). lia.
Qed.

(** The lower bound among ascending numbers. *)
Lemma rank_unique (zs : list Z) (z : Z) (n : nat) :
  (n <= length zs)%nat ->
  (forall i a, (i < n)%nat -> zs !! i = Some a -> a < z) ->
  (forall i a, (n <= i)%nat -> zs !! i = Some a -> z <= a) ->
  findKeyPosition (List.map VNum zs) (VNum z) = n.
Proof.
  intros Hn Hlo Hhi. apply findKeyPosition_unique.
  - now rewrite length_map.
  - intros i a Hi Ha. rewrite list_lookup_fmap in Ha.
    destruct (zs !! i) as [x|] eqn:Hx; [|discriminate]. inversion Ha; subst a.
    simpl. apply Z.ltb_lt. now apply (Hlo i).
  - intros i a Hi Ha. rewrite list_lookup_fmap in Ha.
    destruct (zs !! i) as [x|] eqn:Hx; [|discriminate]. inversion Ha; subst a.
    simpl. apply Z.ltb_ge. now apply (Hhi i).
Qed.

Lemma rank_bounds (zs : list Z) (z : Z) :
  ascending zs ->
  (findKeyPosition (List.map VNum zs) (VNum z) <= length zs)%nat
  /\ (forall i a, (i < findKeyPosition (List.map VNum zs) (VNum z))%nat ->
        zs !! i = Some a -> a < z)
  /\ (forall i a, (findKeyPosition (List.map VNum zs) (VNum z) <= i)%nat ->
        zs !! i = Some a -> z <= a).
Proof.
  intros Hs.
  destruct (findKeyPosition_bounds _ _ (ascending_partitioned zs z Hs)) as (B & L & H).
  rewrite length_map in B. split; [exact B|]. split.
  - intros i a Hi Ha. specialize (L i (VNum a) Hi).
    rewrite list_lookup_fmap, Ha in L. specialize (L eq_refl). simpl in L.
    now apply Z.ltb_lt in L.
  - intros i a Hi Ha. specialize (H i (VNum a) Hi).
    rewrite list_lookup_fmap, Ha in H. specialize (H eq_refl). simpl in H.
    now apply Z.ltb_ge in H.
Qed.

Lemma rank_of_member (zs : list Z) (i : nat) (x : Z) :
  ascending zs -> zs !! i = Some x ->
  findKeyPosition (List.map VNum zs) (VNum x) = i.
Proof.
  intros Hs Hx. apply rank_unique.
  - apply lookup_lt_Some in Hx. lia.
  - intros j a Hj Ha. exact (Hs j i a x Hj Ha Hx).
  - intros j a Hj Ha. destruct (decide (j = i)) as [->|Hne].
    + rewrite Hx in Ha. inversion Ha. lia.
    + pose proof (Hs i j x a ltac:(lia) Hx Ha). lia.
Qed.

Lemma lookup_of_member (zs : list Z) (vs : list jsv) (i : nat) (x : Z) :
  ascending zs -> zs !! i = Some x ->
  leaf_lookup (List.map VNum zs) vs (VNum x) = elem vs i.
Proof.
  intros Hs Hx. unfold leaf_lookup, present.
  rewrite (rank_of_member zs i x Hs Hx), length_map.
  replace (i <? length zs)%nat with true
    by (symmetry; apply Nat.ltb_lt; now apply lookup_lt_Some in Hx).
  unfold elem at 1. rewrite list_lookup_fmap, Hx. simpl. now rewrite Z.eqb_refl.
Qed.

Lemma lookup_of_greater (zs : list Z) (vs : list jsv) (x : Z) :
  (forall i a, zs !! i = Some a -> a < x) ->
  leaf_lookup (List.map VNum zs) vs (VNum x) = VNull.
Proof.
  intros Hall. unfold leaf_lookup, present.
  rewrite (rank_unique zs x (length zs)).
  - rewrite length_map, Nat.ltb_irrefl. reflexivity.
  - lia.
  - intros i a _ Ha. now apply (Hall i).
  - intros i a Hi Ha. apply lookup_lt_Some in Ha. lia.
Qed.

Lemma ascending_take (zs : list Z) (n : nat) : ascending zs -> ascending (take n zs).
Proof.
  intros Hs i j a b Hij Ha Hb.
  apply lookup_take_Some in Ha as [Ha _]. apply lookup_take_Some in Hb as [Hb _].
  exact (Hs i j a b Hij Ha Hb).
Qed.

Lemma ascending_drop (zs : list Z) (n : nat) : ascending zs -> ascending (drop n zs).
Proof.
  intros Hs i j a b Hij Ha Hb. rewrite lookup_drop in Ha, Hb.
  apply (Hs (n + i)%nat (n + j)%nat a b); auto. lia.
Qed.

(** Splicing a new number in at its lower bound keeps the order. *)
Lemma ascending_splice (zs : list Z) (z : Z) :
  ascending zs ->
  present (List.map VNum zs) (VNum z) = false ->
  ascending (splice_in (findKeyPosition (List.map VNum zs) (VNum z)) z zs).
Proof.
  intros Hs Hp. destruct (rank_bounds zs z Hs) as (B & L & H).
  set (pos := findKeyPosition (List.map VNum zs) (VNum z)) in *.
  assert (H' : forall i a, (pos <= i)%nat -> zs !! i = Some a -> z < a).
  { intros i a Hi Ha. pose proof (H i a Hi Ha) as Hle.
    destruct (Z.eq_dec a z) as [->|Hne]; [|lia]. exfalso.
    destruct (decide (i = pos)) as [->|Hip].
    - unfold present in Hp. fold pos in Hp. rewrite length_map in Hp.
      replace (pos <? length zs)%nat with true in Hp
        by (symmetry; apply Nat.ltb_lt; now apply lookup_lt_Some in Ha).
      unfold elem in Hp. rewrite list_lookup_fmap, Ha in Hp. simpl in Hp.
      now rewrite Z.eqb_refl in Hp.
    - destruct (lookup_lt_is_Some_2 zs pos) as [c Hc];
        [apply lookup_lt_Some in Ha; lia|].
      pose proof (Hs pos i c z ltac:(lia) Hc Ha). pose proof (H pos c (Nat.le_refl _) Hc). lia. }
  intros i j a b Hij Ha Hb.
  destruct (Nat.lt_trichotomy i pos) as [Hi|[Hi|Hi]];
    destruct (Nat.lt_trichotomy j pos) as [Hj|[Hj|Hj]]; try lia.
  - rewrite splice_in_lookup_lt in Ha, Hb by lia. exact (Hs i j a b Hij Ha Hb).
  - subst j. rewrite splice_in_lookup_lt in Ha by lia.
    rewrite splice_in_lookup_eq in Hb by lia. inversion Hb; subst b. exact (L i a Hi Ha).
  - rewrite splice_in_lookup_lt in Ha by lia. rewrite splice_in_lookup_gt in Hb by lia.
    pose proof (L i a Hi Ha). pose proof (H' (j - 1)%nat b ltac:(lia) Hb). lia.
  - subst i. rewrite splice_in_lookup_eq in Ha by lia. inversion Ha; subst a.
    rewrite splice_in_lookup_gt in Hb by lia. exact (H' (j - 1)%nat b ltac:(lia) Hb).
  - rewrite splice_in_lookup_gt in Ha, Hb by lia.
    apply (Hs (i - 1)%nat (j - 1)%nat a b); auto. lia.
Qed.

Lemma splice_in_map (pos : nat) (z : Z) (zs : list Z) :
  splice_in pos (VNum z) (List.map VNum zs) = List.map VNum (splice_in pos z zs).
Proof. unfold splice_in. now rewrite map_app, firstn_map, skipn_map. Qed.

(** What [search] answers after the first split, for the keys the two
    leaves hold. *)
Lemma split_search_member (fuel : nat) (ord : Z) (zs : list Z) (vs : list jsv) (sz : Z)
  (i : nat) (x : Z) :
  (1 < fuel)%nat -> ascending zs -> zs !! i = Some x ->
  search fuel (VNum x) (split_root ord (List.map VNum zs) vs sz)
  = Done (if (i =? length zs / 2)%nat then VNull else elem vs i)
         (split_root ord (List.map VNum zs) vs sz).
Proof.
  intros Hfuel Hs Hx. rewrite split_search by exact Hfuel. f_equal.
  rewrite length_map. set (mid := (length zs / 2)%nat).
  assert (Hlen : (i < length zs)%nat) by (now apply lookup_lt_Some in Hx).
  assert (Hmid : (mid < length zs)%nat) by (apply Nat.div_lt; lia).
  destruct (lookup_lt_is_Some_2 zs mid Hmid) as [s Hsep].
  rewrite skipn_map, firstn_map.
  change (skipn mid zs) with (drop mid zs). change (firstn mid zs) with (take mid zs).
  change (skipn mid vs) with (drop mid vs). change (firstn mid vs) with (take mid vs).
  assert (Hs0 : elem (List.map VNum (drop mid zs)) 0 = VNum s).
  { unfold elem. rewrite list_lookup_fmap, lookup_drop, Nat.add_0_r, Hsep. reflexivity. }
  rewrite Hs0. change (lt (VNum s) (VNum x)) with (s <? x).
  destruct (Nat.lt_trichotomy i mid) as [Hi|[Hi|Hi]].
  - pose proof (Hs i mid x s Hi Hx Hsep).
    replace (s <? x) with false by (symmetry; apply Z.ltb_ge; lia).
    replace (i =? mid)%nat with false by (symmetry; apply Nat.eqb_neq; lia).
    rewrite (lookup_of_member (take mid zs) (take mid vs) i x).
    + unfold elem. rewrite lookup_take_lt by lia. reflexivity.
    + now apply ascending_take.
    + rewrite lookup_take_lt by lia. exact Hx.
  - subst i. rewrite Hx in Hsep. inversion Hsep; subst s.
    rewrite Z.ltb_irrefl, Nat.eqb_refl.
    apply lookup_of_greater. intros j a Ha.
    apply lookup_take_Some in Ha as [Ha Hj]. exact (Hs j mid a x Hj Ha Hx).
  - pose proof (Hs mid i s x Hi Hsep Hx).
    replace (s <? x) with true by (symmetry; apply Z.ltb_lt; lia).
    replace (i =? mid)%nat with false by (symmetry; apply Nat.eqb_neq; lia).
    rewrite (lookup_of_member (drop mid zs) (drop mid vs) (i - mid) x).
    + unfold elem. rewrite lookup_drop.
      replace (mid + (i - mid))%nat with i by lia. reflexivity.
    + now apply ascending_drop.
    + rewrite lookup_drop. replace (mid + (i - mid))%nat with i by lia. exact Hx.
Qed.

End FirstSplitNumbers.

Section FirstSplitRange.
Import JS BPlusTree Leaf.

Local Arguments findKeyPosition : simpl never.
Local Arguments elem : simpl never.
Local Arguments Nat.div : simpl never.
Local Arguments firstn : simpl never.
Local Arguments skipn : simpl never.
Local Arguments range_leaf : simpl never.

Lemma split_range_at_separator (fuel : nat) (ord : Z) (zs : list Z) (vs : list jsv) (sz : Z)
  (s : Z) :
  (2 < fuel)%nat -> ascending zs -> zs !! (length zs / 2)%nat = Some s ->
  rangeQuery fuel (VNum s) (VNum s) (split_root ord (List.map VNum zs) vs sz)
  = Done [(VNum s, elem vs (length zs / 2))] (split_root ord (List.map VNum zs) vs sz).
Proof.
  intros Hfuel Hs Hsep. destruct fuel as [|[|[|fuel]]]; try lia.
  set (mid := (length zs / 2)%nat) in *.
  assert (Hmid : (mid < length zs)%nat) by (now apply lookup_lt_Some in Hsep).
  assert (Hs0 : elem (skipn mid (List.map VNum zs)) 0 = VNum s).
  { rewrite skipn_map. unfold elem. change (skipn mid zs) with (drop mid zs).
    rewrite list_lookup_fmap, lookup_drop, Nat.add_0_r, Hsep. reflexivity. }
  assert (Hpos : findKeyPosition (firstn mid (List.map VNum zs)) (VNum s) = mid).
  { rewrite firstn_map. change (firstn mid zs) with (take mid zs).
    rewrite (rank_unique (take mid zs) s (length (take mid zs))).
    - rewrite length_take. lia.
    - lia.
    - intros j a _ Ha. apply lookup_take_Some in Ha as [Ha Hj]. exact (Hs j mid a s Hj Ha Hsep).
    - intros j a Hj Ha. apply lookup_lt_Some in Ha. lia. }
  assert (Hleft : skipn mid (firstn mid (List.map VNum zs)) = []).
  { apply skipn_all2. rewrite length_firstn. lia. }
  assert (Hright : exists rest, skipn mid (List.map VNum zs) = VNum s :: List.map VNum rest
                                /\ forall y, In y rest -> s < y).
  { exists (drop (S mid) zs). split.
    - rewrite skipn_map. change (skipn mid zs) with (drop mid zs).
      now rewrite (drop_S zs s mid Hsep).
    - intros y Hy. apply list_elem_of_In, list_elem_of_lookup in Hy as [j Hj].
      rewrite lookup_drop in Hj. apply (Hs mid (S mid + j)%nat s y); auto. lia. }
  destruct Hright as (rest & Hr & Hgt).
  unfold rangeQuery, _findLeaf, split_root. rewrite length_map. fold mid. simpl.
  rewrite Hs0. unfold findKeyPosition at 1. simpl.
  change (lt (VNum s) (VNum s)) with (s <? s). rewrite Z.ltb_irrefl. simpl.
  rewrite Hpos, Hleft. unfold range_leaf at 1. simpl.
  rewrite skipn_O, Hr. unfold range_leaf. 
  change (gt (VNum s) (VNum s)) with (s <? s). rewrite Z.ltb_irrefl.
  change (ge (VNum s) (VNum s)) with (s <=? s). rewrite Z.leb_refl.
  rewrite skipn_O. simpl.
  assert (He : elem (skipn mid vs) 0 = elem vs mid).
  { unfold elem. change (skipn mid vs) with (drop mid vs).
    now rewrite lookup_drop, Nat.add_0_r. }
  rewrite He.
  destruct rest as [|y rest]; simpl.
  - reflexivity.
  - change (gt (VNum y) (VNum s)) with (s <? y).
    replace (s <? y) with true by (symmetry; apply Z.ltb_lt, Hgt; now left).
    reflexivity.
Qed.

End FirstSplitRange.

Section FirstSplit.
Import JS BPlusTree Leaf.

Lemma combine_halves {A B} (n : nat) (a : list A) (b : list B) :
  combine (firstn n a) (firstn n b) ++ combine (skipn n a) (skipn n b) = combine a b.
Proof.
  revert a b. induction n as [|n IH]; intros a b; [reflexivity|].
  destruct a as [|x a], b as [|y b]; simpl; try reflexivity.
  - now destruct (skipn n a).
  - now rewrite IH.
Qed.

(** The leaf chain after the first split holds the pairs of the split
    leaf, in their order. *)
Lemma split_root_stored (fuel : nat) (ord : Z) (ks vs : list jsv) (sz : Z) :
  (2 < fuel)%nat ->
  stored fuel (split_root ord ks vs sz) = Some (combine ks vs).
Proof.
  intros Hfuel. destruct fuel as [|[|[|fuel]]]; try lia.
  unfold stored, split_root. cbn [chain firstLeaf node_at nodes lookup list_lookup data keys next
                                    option_map].
  now rewrite app_nil_r, combine_halves.
Qed.


Lemma first_split_behaviour
  (fuel : nat) (ord : Z) (zs : list Z) (vs : list jsv) (sz z : Z) (v : jsv)
  (Hfuel : (2 < fuel)%nat)
  (Hs : ascending zs)
  (Hnew : present (List.map VNum zs) (VNum z) = false)
  (Hfull : ord - 1 <= Z.of_nat (length zs) + 1) :
  exists tr',
    insert fuel (VNum z) v (single ord (List.map VNum zs) vs sz) = Done tt tr'
    /\ (forall i x,
          with_key zs z !! i = Some x ->
          search fuel (VNum x) tr'
          = Done (if (i =? length (with_key zs z) / 2)%nat then VNull
                  else elem (with_value zs z v vs) i) tr')
    /\ (exists s,
          with_key zs z !! (length (with_key zs z) / 2)%nat = Some s
          /\ rangeQuery fuel (VNum s) (VNum s) tr'
             = Done [(VNum s, elem (with_value zs z v vs) (length (with_key zs z) / 2))] tr')
    /\ stored fuel tr'
       = Some (combine (List.map VNum (with_key zs z)) (with_value zs z v vs)).
Proof.
  pose proof (ascending_splice zs z Hs Hnew) as Hs1. fold (with_key zs z) in Hs1.
  exists (split_root ord (List.map VNum (with_key zs z)) (with_value zs z v vs) (sz + 1)).
  split; [|split; [|split]].
  - rewrite single_insert_split; [|lia|exact Hnew|rewrite length_map; exact Hfull].
    unfold with_key, with_value. now rewrite splice_in_map.
  - intros i x Hx. apply split_search_member; [lia|exact Hs1|exact Hx].
  - assert (Hmid : (length (with_key zs z) / 2 < length (with_key zs z))%nat).
    { apply Nat.div_lt; [|lia]. unfold with_key. rewrite splice_in_length. lia. }
    destruct (lookup_lt_is_Some_2 _ _ Hmid) as [s Hsep].
    exists s. split; [exact Hsep|].
    apply split_range_at_separator; [lia|exact Hs1|exact Hsep].
  - apply split_root_stored. lia.
Qed.

(** X9.  The first split.  A tree whose only node is a leaf with ascending
    numeric keys receives a new key that fills the leaf.  [insert] returns
    and the leaf is split under a new root.  From then on [search] finds
    every key of the two halves except the first key of the right half,
    the one promoted as separator: for it [search] answers [null],
    although [rangeQuery] from that key to itself returns its pair and the
    chain of leaves still holds every pair, in key order. *)
Theorem first_split_hides_separator
  (fuel : nat) (ord : Z) (zs : list Z) (vs : list jsv) (sz z : Z) (v : jsv)
  (Hfuel : (2 < fuel)%nat)
  (Hs : ascending zs)
  (Hnew : present (List.map VNum zs) (VNum z) = false)
  (Hfull : ord - 1 <= Z.of_nat (length zs) + 1) :
  exists tr',
    insert fuel (VNum z) v (single ord (List.map VNum zs) vs sz) = Done tt tr'
    /\ (forall i x,
          with_key zs z !! i = Some x ->
          search fuel (VNum x) tr'
          = Done (if (i =? length (with_key zs z) / 2)%nat then VNull
                  else elem (with_value zs z v vs) i) tr')
    /\ (exists s,
          with_key zs z !! (length (with_key zs z) / 2)%nat = Some s
          /\ rangeQuery fuel (VNum s) (VNum s) tr'
             = Done [(VNum s, elem (with_value zs z v vs) (length (with_key zs z) / 2))] tr')
    /\ stored fuel tr'
       = Some (combine (List.map VNum (with_key zs z)) (with_value zs z v vs)).
Proof. exact (first_split_behaviour fuel ord zs vs sz z v Hfuel Hs Hnew Hfull). Qed.

Lemma ascending_1_2 : ascending [1; 2].
Proof.
  intros i j a b Hij Ha Hb.
  destruct i as [|[|i]], j as [|[|j]]; simpl in *; try lia; try discriminate;
    inversion Ha; inversion Hb; lia.
Qed.

Lemma first_split_hides_separator_witness :
  exists tr',
    insert 3 (VNum 3) (VStr "c") (single 4 (List.map VNum [1; 2]) [VStr "a"; VStr "b"] 2)
    = Done tt tr'
    /\ (forall i x,
          with_key [1; 2]%Z 3%Z !! i = Some x ->
          search 3 (VNum x) tr'
          = Done (if (i =? length (with_key [1; 2]%Z 3%Z) / 2)%nat then VNull
                  else elem (with_value [1; 2]%Z 3%Z (VStr "c") [VStr "a"; VStr "b"]) i) tr')
    /\ (exists s,
          with_key [1; 2]%Z 3%Z !! (length (with_key [1; 2]%Z 3%Z) / 2)%nat = Some s
          /\ rangeQuery 3 (VNum s) (VNum s) tr'
             = Done [(VNum s, elem (with_value [1; 2]%Z 3%Z (VStr "c") [VStr "a"; VStr "b"])
                                   (length (with_key [1; 2]%Z 3%Z) / 2))] tr')
    /\ stored 3 tr'
       = Some (combine (List.map VNum (with_key [1; 2]%Z 3%Z))
                       (with_value [1; 2]%Z 3%Z (VStr "c") [VStr "a"; VStr "b"])).
Proof.
  apply (first_split_hides_separator 3 4 [1; 2] [VStr "a"; VStr "b"] 2 3 (VStr "c"));
    [lia | exact ascending_1_2 | reflexivity | simpl; lia].
Defined.

End FirstSplit.

Section RangeScanFacts.
Import JS BPlusTree Leaf.

Lemma descend_same (fuel : nat) (k : jsv) :
  forall id tr leaf tr', descend fuel k id tr = Done leaf tr' -> tr' = tr.
Proof.
  induction fuel as [|fuel IH]; intros id tr leaf tr' H; simpl in H; [discriminate|].
  destruct (node_at tr id) as [n|]; [|discriminate].
  destruct (data n) as [vs|cs]; [now inversion H|].
  destruct (cs !! findKeyPosition (keys n) k); [|discriminate].
  now apply IH in H.
Qed.

Lemma elem_drop (vs : list jsv) (j : nat) : elem (drop j vs) 0 = elem vs j.
Proof. unfold elem. rewrite lookup_drop. now rewrite Nat.add_0_r. Qed.

Lemma tl_drop {A} (l : list A) (j : nat) : tl (drop j l) = drop (S j) l.
Proof.
  revert j. induction l as [|x l IH]; intros j; [now destruct j|].
  destruct j as [|j]; simpl; [now rewrite drop_0|]. apply IH.
Qed.

(** One leaf of the scan: what is appended lies within the bounds and is
    read off the leaf position by position. *)
Lemma range_leaf_appends (startKey endKey : jsv) (keys_l vs_l : list jsv) :
  forall ks j results,
    ks = drop j keys_l ->
    exists extra,
      (range_leaf startKey endKey ks (drop j vs_l) results = inl (results ++ extra)
       \/ range_leaf startKey endKey ks (drop j vs_l) results = inr (results ++ extra))
      /\ Forall (fun kv => within startKey endKey kv
                           /\ exists i, keys_l !! i = Some (fst kv) /\ snd kv = elem vs_l i)
                extra.
Proof.
  induction ks as [|k ks IH]; intros j results Hks; cbn [range_leaf].
  - exists []. rewrite app_nil_r. split; [now right|constructor].
  - assert (Hk : keys_l !! j = Some k).
    { rewrite <- (Nat.add_0_r j), <- lookup_drop, <- Hks. reflexivity. }
    assert (Hrest : ks = drop (S j) keys_l).
    { rewrite <- tl_drop, <- Hks. reflexivity. }
    destruct (gt k endKey) eqn:Hgt.
    + exists []. rewrite app_nil_r. split; [now left|constructor].
    + rewrite tl_drop.
      destruct (ge k startKey) eqn:Hge.
      * destruct (IH (S j) (results ++ [(k, elem (drop j vs_l) 0)]) Hrest) as (extra & Hr & Hall).
        exists ((k, elem (drop j vs_l) 0) :: extra).
        rewrite <- app_assoc in Hr. simpl in Hr. split; [exact Hr|].
        constructor; [|exact Hall].
        split; [now split|]. exists j. split; [exact Hk|]. simpl. apply elem_drop.
      * destruct (IH (S j) results Hrest) as (extra & Hr & Hall).
        exists extra. split; [exact Hr|exact Hall].
Qed.

Lemma range_loop_results (startKey endKey : jsv) (tr : t) (fuel : nat) :
  forall leaf pos results r tr',
    range_loop fuel startKey endKey leaf pos results tr = Done r tr' ->
    Forall (fun kv => within startKey endKey kv /\ held tr kv) results ->
    tr' = tr /\ Forall (fun kv => within startKey endKey kv /\ held tr kv) r.
Proof.
  induction fuel as [|fuel IH]; intros leaf pos results r tr' H Hres; cbn [range_loop] in H;
    [discriminate|].
  destruct leaf as [id|]; [|inversion H; subst; now split].
  destruct (node_at tr id) as [l|] eqn:Hl; [|discriminate].
  destruct (data l) as [vs|cs] eqn:Hd.
  - destruct (range_leaf_appends startKey endKey (keys l) vs (drop pos (keys l)) pos results eq_refl)
      as (extra & Hr & Hall).
    assert (Hnew : Forall (fun kv => within startKey endKey kv /\ held tr kv) (results ++ extra)).
    { apply Forall_app. split; [exact Hres|].
      eapply Forall_impl; [exact Hall|]. intros kv (Hw & i & Hk & Hv).
      split; [exact Hw|]. now exists id, l, vs, i. }
    change (skipn pos (keys l)) with (drop pos (keys l)) in H.
    change (skipn pos vs) with (drop pos vs) in H.
    destruct Hr as [Hr|Hr]; rewrite Hr in H.
    + inversion H; subst. now split.
    + now apply IH in H.
  - destruct (range_leaf_appends startKey endKey (keys l) [] (drop pos (keys l)) pos results eq_refl)
      as (extra & Hr & Hall).
    change (skipn pos (keys l)) with (drop pos (keys l)) in H.
    rewrite drop_nil in Hr.
    assert (Hsame : forall x, (length (results ++ x) =? length results)%nat = true -> results ++ x = results).
    { intros x Hx. apply Nat.eqb_eq in Hx. rewrite length_app in Hx.
      destruct x; [apply app_nil_r|simpl in Hx; lia]. }
    destruct Hr as [Hr|Hr]; rewrite Hr in H.
    + destruct (length (results ++ extra) =? length results)%nat eqn:E; [|discriminate].
      rewrite (Hsame _ E) in H. inversion H; subst. now split.
    + destruct (length (results ++ extra) =? length results)%nat eqn:E; [|discriminate].
      rewrite (Hsame _ E) in H. now apply IH in H.
Qed.

(** X10.  Whatever the tree and the bounds, a [rangeQuery] that returns
    leaves the tree as it was, and every pair it returns has a key [k] with
    [k >= startKey] and not [k > endKey], and is a key of some leaf together
    with the value at its position. *)
Theorem rangeQuery_returns_held_pairs_within_bounds
  (fuel : nat) (startKey endKey : jsv) (tr : t) :
  forall r tr',
    rangeQuery fuel startKey endKey tr = Done r tr' ->
    tr' = tr /\ Forall (fun kv => within startKey endKey kv /\ held tr kv) r.
Proof.
  intros r tr' H. unfold rangeQuery, _findLeaf in H.
  destruct (descend fuel startKey (root tr) tr) as [leaf tr1|e s|s|] eqn:Hd;
    simpl in H; try discriminate.
  apply descend_same in Hd. subst tr1.
  destruct (node_at tr leaf) as [l|]; [|discriminate].
  apply (range_loop_results startKey endKey tr fuel _ _ _ _ _ H). constructor.
Qed.

End RangeScanFacts.

Section RangeScanWitness.
Import JS.

Lemma rangeQuery_returns_held_pairs_within_bounds_witness :
  Forall (fun kv => Leaf.within (VNum 250) (VNum 650) kv
                    /\ Leaf.held (Scenarios.unwrap_tree Scenarios.tree9) kv)
         [(VNum 300, VStr "x"); (VNum 400, VStr "x"); (VNum 500, VStr "x"); (VNum 600, VStr "x")].
Proof.
  refine (proj2 (rangeQuery_returns_held_pairs_within_bounds 20 (VNum 250) (VNum 650)
                   (Scenarios.unwrap_tree Scenarios.tree9) _
                   (Scenarios.unwrap_tree Scenarios.tree9) _)).
  vm_compute. reflexivity.
Defined.

End RangeScanWitness.

Section TreeDeleteFacts.
Import JS BPlusTree.

Lemma relock_same (id : nat) (tr : t) (n : Node) :
  node_at tr id = Some n -> locked n = false ->
  upd id (set_locked false) (upd id (set_locked true) tr) = tr.
Proof.
  intros Hn Hl. unfold upd at 2. rewrite Hn.
  unfold upd, node_at in *; simpl.
  rewrite list_lookup_insert_eq by (now apply lookup_lt_Some in Hn).
  unfold set_nodes; simpl. rewrite list_insert_insert_eq.
  replace (set_locked false (set_locked true n)) with n
    by (destruct n; simpl in *; subst; reflexivity).
  rewrite list_insert_id by exact Hn. now destruct tr.
Qed.

Lemma restructure_same (tr : t) :
  structureLocked tr = false ->
  set_structureLocked false (set_structureLocked true tr) = tr.
Proof. intros H. destruct tr; simpl in *; subst; reflexivity. Qed.

(** X11.  A [delete] that answers [false] leaves the tree exactly as it
    was: no key, value, link or lock has changed. *)
Theorem tree_delete_false_changes_nothing (fuel : nat) (k : jsv) (tr : t) :
  forall tr', delete fuel k tr = Done false tr' -> tr' = tr.
Proof.
  intros tr' H. unfold delete, with_structure_lock in H.
  destruct (structureLocked tr) eqn:Hsl; [discriminate|].
  unfold _findLeaf in H. cbn [root set_structureLocked] in H.
  destruct (descend fuel k (root tr) (set_structureLocked true tr)) as [leaf tr1|e s|s|] eqn:Hd;
    cbn [rbind finally_] in H; try discriminate.
  apply descend_same in Hd. subst tr1.
  unfold with_lock in H.
  destruct (node_at (set_structureLocked true tr) leaf) as [n|] eqn:Hn;
    [|cbn [finally_] in H; discriminate].
  destruct (locked n) eqn:Hl; [cbn [finally_] in H; discriminate|].
  set (tr2 := upd leaf (set_locked true) (set_structureLocked true tr)) in *.
  destruct (node_at tr2 leaf) as [l|]; [|cbn [finally_] in H; discriminate].
  destruct (data l) as [vs|cs]; [|cbn [finally_] in H; discriminate].
  destruct ((length (keys l) <=? findKeyPosition (keys l) k)%nat
            || negb (strict_eq (elem (keys l) (findKeyPosition (keys l) k)) k)).
  - cbn [finally_] in H. inversion H. subst tr2.
    rewrite (relock_same leaf _ n Hn Hl). now apply restructure_same.
  - match type of H with
    | context [if ?c then _ else _] => destruct c
    end.
    + match type of H with
      | context [_rebalanceLeaf ?a ?b] => destruct (_rebalanceLeaf a b) as [[] s|e s|s|]
      end; cbn [rbind finally_] in H; discriminate.
    + cbn [finally_] in H. discriminate.
Qed.

End TreeDeleteFacts.

Section TreeDeleteWitness.
Import JS.

Lemma tree_delete_false_changes_nothing_witness :
  settled Scenarios.tree3 (BPlusTree.delete 20 (VNum 7) Scenarios.tree3) = Scenarios.tree3.
Proof.
  apply (tree_delete_false_changes_nothing 20 (VNum 7) Scenarios.tree3).
  vm_compute. reflexivity.
Defined.

End TreeDeleteWitness.

Section LeafDeleteFacts.
Import JS BPlusTree Leaf.

Local Arguments findKeyPosition : simpl never.
Local Arguments splice_out : simpl never.
Local Arguments elem : simpl never.

Lemma single_delete (fuel : nat) (ord : Z) (ks vs : list jsv) (sz : Z) (k : jsv) :
  (0 < fuel)%nat ->
  delete fuel k (single ord ks vs sz)
  = if present ks k
    then Done true (single ord (splice_out (Z.of_nat (findKeyPosition ks k)) ks)
                      (splice_out (Z.of_nat (findKeyPosition ks k)) vs) (sz - 1))
    else Done false (single ord ks vs sz).
Proof.
  intros Hfuel. destruct fuel as [|fuel]; [lia|].
  unfold delete, with_structure_lock, _findLeaf, with_lock, single, present. simpl.
  destruct (length ks <=? findKeyPosition ks k)%nat eqn:E.
  - apply Nat.leb_le in E.
    replace (findKeyPosition ks k <? length ks)%nat with false
      by (symmetry; apply Nat.ltb_ge; lia).
    reflexivity.
  - apply Nat.leb_gt in E.
    replace (findKeyPosition ks k <? length ks)%nat with true
      by (symmetry; apply Nat.ltb_lt; lia).
    simpl. destruct (strict_eq (elem ks (findKeyPosition ks k)) k); reflexivity.
Qed.

Lemma splice_out_without {A} (i : nat) (l : list A) :
  splice_out (Z.of_nat i) l = without i l.
Proof.
  unfold splice_out, without.
  destruct (Z.of_nat i <? 0) eqn:E; [apply Z.ltb_lt in E; lia|].
  destruct (Nat.le_gt_cases i (length l)) as [H|H].
  - rewrite Z.min_l by lia. now rewrite Nat2Z.id.
  - rewrite Z.min_r by lia. rewrite Nat2Z.id.
    rewrite !firstn_all2 by lia. rewrite !skipn_all2 by lia. reflexivity.
Qed.

Lemma without_lookup_lt {A} (i j : nat) (l : list A) :
  (j < i)%nat -> (i <= length l)%nat -> without i l !! j = l !! j.
Proof.
  intros Hj Hi. unfold without.
  change (firstn i l) with (take i l). change (skipn (S i) l) with (drop (S i) l).
  rewrite lookup_app_l by (rewrite length_take; lia).
  now apply lookup_take_lt.
Qed.

Lemma without_lookup_ge {A} (i j : nat) (l : list A) :
  (i <= j)%nat -> (i <= length l)%nat -> without i l !! j = l !! S j.
Proof.
  intros Hj Hi. unfold without.
  change (firstn i l) with (take i l). change (skipn (S i) l) with (drop (S i) l).
  rewrite lookup_app_r by (rewrite length_take; lia).
  rewrite length_take, lookup_drop. f_equal. lia.
Qed.

Lemma without_map {A B} (f : A -> B) (i : nat) (l : list A) :
  without i (List.map f l) = List.map f (without i l).
Proof. unfold without. now rewrite List.map_app, firstn_map, skipn_map. Qed.

Lemma ascending_without (zs : list Z) (i : nat) :
  (i <= length zs)%nat -> ascending zs -> ascending (without i zs).
Proof.
  intros Hi Hs a b x y Hab Ha Hb.
  destruct (Nat.lt_ge_cases a i) as [Hai|Hai], (Nat.lt_ge_cases b i) as [Hbi|Hbi].
  - rewrite without_lookup_lt in Ha, Hb by lia. exact (Hs a b x y Hab Ha Hb).
  - rewrite without_lookup_lt in Ha by lia. rewrite without_lookup_ge in Hb by lia.
    apply (Hs a (S b) x y); [lia|exact Ha|exact Hb].
  - lia.
  - rewrite without_lookup_ge in Ha, Hb by lia.
    apply (Hs (S a) (S b) x y); [lia|exact Ha|exact Hb].
Qed.

Lemma leaf_delete_behaviour
  (fuel : nat) (ord : Z) (zs : list Z) (vs : list jsv) (sz : Z) (i : nat) (z : Z)
  (Hfuel : (0 < fuel)%nat)
  (Hs : ascending zs)
  (Hz : zs !! i = Some z) :
  delete fuel (VNum z) (single ord (List.map VNum zs) vs sz)
  = Done true (single ord (List.map VNum (without i zs)) (without i vs) (sz - 1))
  /\ search fuel (VNum z) (single ord (List.map VNum (without i zs)) (without i vs) (sz - 1))
     = Done VNull (single ord (List.map VNum (without i zs)) (without i vs) (sz - 1))
  /\ (forall j x, zs !! j = Some x -> x <> z ->
        search fuel (VNum x) (single ord (List.map VNum (without i zs)) (without i vs) (sz - 1))
        = Done (elem vs j) (single ord (List.map VNum (without i zs)) (without i vs) (sz - 1))).
Proof.
  pose proof (lookup_lt_Some _ _ _ Hz) as Hi.
  assert (Hs' : ascending (without i zs)) by (apply ascending_without; [lia|exact Hs]).
  split; [|split].
  - rewrite single_delete by exact Hfuel.
    pose proof (rank_of_member zs i z Hs Hz) as Hr.
    unfold present. rewrite Hr, length_map.
    replace (i <? length zs)%nat with true by (symmetry; apply Nat.ltb_lt; lia).
    unfold elem. rewrite list_lookup_fmap, Hz.
    simpl. rewrite Z.eqb_refl.
    rewrite !splice_out_without, without_map. reflexivity.
  - rewrite single_search by exact Hfuel.
    change (if present _ _ then _ else _)
      with (leaf_lookup (List.map VNum (without i zs)) (without i vs) (VNum z)).
    unfold leaf_lookup, present.
    rewrite (rank_unique (without i zs) z i).
    + rewrite length_map.
      destruct (i <? length (without i zs))%nat eqn:E; [|reflexivity].
      apply Nat.ltb_lt in E.
      destruct (lookup_lt_is_Some_2 _ _ E) as [y Hy].
      unfold elem. rewrite list_lookup_fmap, Hy. simpl.
      rewrite without_lookup_ge in Hy by lia.
      pose proof (Hs i (S i) z y (Nat.lt_succ_diag_r i) Hz Hy).
      replace (y =? z) with false by (symmetry; apply Z.eqb_neq; lia). reflexivity.
    + unfold without. rewrite length_app, length_firstn. lia.
    + intros a x Ha Hx. rewrite without_lookup_lt in Hx by lia. exact (Hs a i x z Ha Hx Hz).
    + intros a x Ha Hx. rewrite without_lookup_ge in Hx by lia.
      pose proof (Hs i (S a) z x ltac:(lia) Hz Hx). lia.
  - intros j x Hx Hne.
    rewrite single_search by exact Hfuel.
    change (if present _ _ then _ else _)
      with (leaf_lookup (List.map VNum (without i zs)) (without i vs) (VNum x)).
    assert (Hji : j <> i) by (intros ->; congruence).
    destruct (Nat.lt_ge_cases j i) as [Hlt|Hge].
    + rewrite (lookup_of_member (without i zs) (without i vs) j x Hs')
        by (rewrite without_lookup_lt by lia; exact Hx).
      f_equal. unfold elem.
      destruct (Nat.le_gt_cases i (length vs)) as [Hv|Hv].
      * now rewrite without_lookup_lt by lia.
      * unfold without. rewrite firstn_all2, skipn_all2 by lia. now rewrite app_nil_r.
    + destruct j as [|j]; [lia|].
      rewrite (lookup_of_member (without i zs) (without i vs) j x Hs')
        by (rewrite without_lookup_ge by lia; exact Hx).
      f_equal. unfold elem.
      destruct (Nat.le_gt_cases i (length vs)) as [Hv|Hv].
      * now rewrite without_lookup_ge by lia.
      * unfold without. rewrite firstn_all2, skipn_all2 by lia. rewrite app_nil_r.
        rewrite !lookup_ge_None_2 by lia. reflexivity.
Qed.

(** X12.  Deleting from a tree that has not split.  When the single leaf
    holds ascending numeric keys and [z] is the key at position [i],
    [delete(z)] answers [true], removes the key and the value at position
    [i] and lowers [size] by one; afterwards [search(z)] answers [null] and
    every other key is still found with its value. *)
Theorem leaf_delete_then_search_returns_null
  (fuel : nat) (ord : Z) (zs : list Z) (vs : list jsv) (sz : Z) (i : nat) (z : Z)
  (Hfuel : (0 < fuel)%nat)
  (Hs : ascending zs)
  (Hz : zs !! i = Some z) :
  delete fuel (VNum z) (single ord (List.map VNum zs) vs sz)
  = Done true (single ord (List.map VNum (without i zs)) (without i vs) (sz - 1))
  /\ search fuel (VNum z) (single ord (List.map VNum (without i zs)) (without i vs) (sz - 1))
     = Done VNull (single ord (List.map VNum (without i zs)) (without i vs) (sz - 1))
  /\ (forall j x, zs !! j = Some x -> x <> z ->
        search fuel (VNum x) (single ord (List.map VNum (without i zs)) (without i vs) (sz - 1))
        = Done (elem vs j) (single ord (List.map VNum (without i zs)) (without i vs) (sz - 1))).
Proof. exact (leaf_delete_behaviour fuel ord zs vs sz i z Hfuel Hs Hz). Qed.

End LeafDeleteFacts.

Section LeafDeleteWitness.
Import JS.

Lemma ascending_1_2_3 : Leaf.ascending [1; 2; 3].
Proof.
  intros i j a b Hij Ha Hb.
  destruct i as [|[|[|i]]], j as [|[|[|j]]]; simpl in *; try lia; try discriminate;
    inversion Ha; inversion Hb; lia.
Qed.

Lemma leaf_delete_then_search_returns_null_witness :
  BPlusTree.delete 1 (VNum 2)
    (Leaf.single 4 (List.map VNum [1; 2; 3]) [VStr "a"; VStr "b"; VStr "c"] 3)
  = Done true (Leaf.single 4 (List.map VNum (Leaf.without 1 [1; 2; 3]))
                 (Leaf.without 1 [VStr "a"; VStr "b"; VStr "c"]) (3 - 1))
  /\ BPlusTree.search 1 (VNum 2)
       (Leaf.single 4 (List.map VNum (Leaf.without 1 [1; 2; 3]))
          (Leaf.without 1 [VStr "a"; VStr "b"; VStr "c"]) (3 - 1))
     = Done VNull
         (Leaf.single 4 (List.map VNum (Leaf.without 1 [1; 2; 3]))
            (Leaf.without 1 [VStr "a"; VStr "b"; VStr "c"]) (3 - 1))
  /\ (forall j x, [1; 2; 3] !! j = Some x -> x <> 2 ->
        BPlusTree.search 1 (VNum x)
          (Leaf.single 4 (List.map VNum (Leaf.without 1 [1; 2; 3]))
             (Leaf.without 1 [VStr "a"; VStr "b"; VStr "c"]) (3 - 1))
        = Done (BPlusTree.elem [VStr "a"; VStr "b"; VStr "c"] j)
            (Leaf.single 4 (List.map VNum (Leaf.without 1 [1; 2; 3]))
               (Leaf.without 1 [VStr "a"; VStr "b"; VStr "c"]) (3 - 1))).
Proof.
  apply (leaf_delete_then_search_returns_null 1 4 [1; 2; 3] [VStr "a"; VStr "b"; VStr "c"] 3 1 2);
    [lia | exact ascending_1_2_3 | reflexivity].
Defined.

End LeafDeleteWitness.

(** ** The cache *)

Section LruFacts.
Import JS CacheLayer Lru.

Lemma smap_get_None {V} (k : string) (m : list (string * V)) :
  SMap.get k m = None <-> ~ In k (List.map fst m).
Proof.
  induction m as [|[k' v] m IH]; simpl; [tauto|].
  destruct (String.eqb k' k) eqn:E.
  - apply String.eqb_eq in E. split; [discriminate|]. intros H. exfalso. apply H. now left.
  - apply String.eqb_neq in E. rewrite IH. tauto.
Qed.

Lemma smap_keys_set {V} (k : string) (v : V) (m : list (string * V)) :
  List.map fst (SMap.set k v m)
  = match SMap.get k m with
    | Some _ => List.map fst m
    | None => List.map fst m ++ [k]
    end.
Proof.
  induction m as [|[k' v'] m IH]; simpl; [reflexivity|].
  destruct (String.eqb k' k) eqn:E; simpl; [reflexivity|].
  rewrite IH. now destruct (SMap.get k m).
Qed.

Lemma smap_get_set_other {V} (k k' : string) (v : V) (m : list (string * V)) :
  k <> k' -> SMap.get k (SMap.set k' v m) = SMap.get k m.
Proof.
  intros Hne. induction m as [|[k0 v0] m IH]; simpl.
  - destruct (String.eqb k' k) eqn:E; [apply String.eqb_eq in E; congruence|reflexivity].
  - destruct (String.eqb k0 k') eqn:E'; simpl.
    + apply String.eqb_eq in E'. subst k0.
      destruct (String.eqb k' k) eqn:E; [apply String.eqb_eq in E; congruence|reflexivity].
    + destruct (String.eqb k0 k); [reflexivity|exact IH].
Qed.

Lemma smap_keys_remove {V} (k : string) (m : list (string * V)) :
  List.map fst (SMap.remove k m) = remove_first k (List.map fst m).
Proof.
  induction m as [|[k' v'] m IH]; simpl; [reflexivity|].
  destruct (String.eqb k' k); simpl; [reflexivity|]. now rewrite IH.
Qed.

Lemma remove_first_absent (k : string) (l : list string) :
  ~ In k l -> remove_first k l = l.
Proof.
  induction l as [|x l IH]; simpl; intros H; [reflexivity|].
  destruct (String.eqb x k) eqn:E.
  - apply String.eqb_eq in E. exfalso. apply H. now left.
  - rewrite IH; [reflexivity|]. tauto.
Qed.

Lemma remove_first_In (k x : string) (l : list string) :
  List.NoDup l -> (In x (remove_first k l) <-> x <> k /\ In x l).
Proof.
  induction l as [|y l IH]; simpl; intros Hnd; [tauto|].
  apply NoDup_cons_iff in Hnd as [Hy Hnd].
  destruct (String.eqb y k) eqn:E.
  - apply String.eqb_eq in E. subst y. split.
    + intros H. split; [|now right]. intros ->. contradiction.
    + intros [Hne [->|H]]; [congruence|exact H].
  - apply String.eqb_neq in E. simpl. rewrite (IH Hnd). split.
    + intros [->|[Hne H]]; [split; [exact E|now left]|split; [exact Hne|now right]].
    + intros [Hne [->|H]]; [now left|right; split; assumption].
Qed.

Lemma remove_first_NoDup (k : string) (l : list string) :
  List.NoDup l -> List.NoDup (remove_first k l).
Proof.
  induction l as [|y l IH]; simpl; intros Hnd; [constructor|].
  apply NoDup_cons_iff in Hnd as [Hy Hnd].
  destruct (String.eqb y k); [exact Hnd|].
  constructor; [|now apply IH]. rewrite (remove_first_In k y l Hnd). tauto.
Qed.

Lemma remove_first_length (k : string) (l : list string) :
  In k l -> S (length (remove_first k l)) = length l.
Proof.
  induction l as [|y l IH]; simpl; intros H; [contradiction|].
  destruct (String.eqb y k) eqn:E; [reflexivity|].
  apply String.eqb_neq in E. simpl. rewrite IH; [reflexivity|].
  destruct H; [congruence|assumption].
Qed.

Lemma NoDup_snoc (k : string) (l : list string) :
  List.NoDup l -> ~ In k l -> List.NoDup (l ++ [k]).
Proof.
  induction l as [|y l IH]; simpl; intros Hnd Hk; [repeat constructor; tauto|].
  apply NoDup_cons_iff in Hnd as [Hy Hnd].
  constructor; [|apply IH; tauto].
  rewrite in_app_iff. simpl. intros [H|[H|[]]]; [contradiction|]. subst. tauto.
Qed.

(** [_updateAccessOrder] moves the key to the end of the order. *)
Lemma touch_spec (k : string) (l : list string) :
  List.NoDup l ->
  List.NoDup (remove_first k l ++ [k])
  /\ forall x, In x (remove_first k l ++ [k]) <-> x = k \/ In x l.
Proof.
  intros Hnd. split.
  - apply NoDup_snoc; [now apply remove_first_NoDup|].
    rewrite (remove_first_In k k l Hnd). tauto.
  - intros x. rewrite in_app_iff, (remove_first_In k x l Hnd). simpl.
    destruct (String.eqb_spec x k) as [->|Hne]; [tauto|].
    split; [intros [[_ H]|[H|[]]]; [now right|now left]|intros [H|H]; [congruence|left; tauto]].
Qed.

Lemma wf_new (n : Z) : wf (new n).
Proof. repeat split; simpl; try constructor; tauto. Qed.

Lemma wf_get (k : string) (c : t) : wf c -> wf (snd (get k c)).
Proof.
  intros (Hk & Ho & Hiff). unfold get.
  destruct (SMap.get k (cache c)) as [v|] eqn:E; simpl;
    [|exact (conj Hk (conj Ho Hiff))].
  destruct (touch_spec k (accessOrder c) Ho) as (Hnd & Hin).
  split; [exact Hk|]. split; [exact Hnd|].
  intros x. unfold keys in *; simpl. rewrite Hin, Hiff.
  assert (In k (List.map fst (cache c))).
  { destruct (in_dec string_dec k (List.map fst (cache c))) as [H|H]; [exact H|].
    apply smap_get_None in H. congruence. }
  split; [intros [->|H']; assumption|now right].
Qed.

Lemma wf_invalidate (k : string) (c : t) : wf c -> wf (invalidate k c).
Proof.
  intros (Hk & Ho & Hiff). unfold invalidate, wf, keys in *; simpl.
  rewrite smap_keys_remove.
  split; [now apply remove_first_NoDup|]. split; [now apply remove_first_NoDup|].
  intros x. rewrite !remove_first_In by assumption. now rewrite Hiff.
Qed.

Lemma wf_evict (c : t) : wf c -> wf (_evictLRU c).
Proof.
  intros (Hk & Ho & Hiff). unfold _evictLRU.
  destruct (accessOrder c) as [|lru rest] eqn:E;
    [unfold wf; rewrite E; exact (conj Hk (conj Ho Hiff))|].
  unfold wf, keys in *; simpl. rewrite smap_keys_remove.
  apply NoDup_cons_iff in Ho as [Hl Ho].
  split; [now apply remove_first_NoDup|]. split; [exact Ho|].
  intros x. rewrite remove_first_In by assumption. rewrite <- Hiff. simpl.
  split; [intros H; split; [intros ->; contradiction|now right]|].
  intros [Hne [->|H]]; [congruence|exact H].
Qed.

Lemma wf_put (k : string) (v : jsv) (c : t) :
  wf c ->
  wf (_updateAccessOrder k (mk (maxSize c) (SMap.set k v (cache c)) (accessOrder c))).
Proof.
  intros (Hk & Ho & Hiff). unfold wf, keys, _updateAccessOrder in *; simpl.
  destruct (touch_spec k (accessOrder c) Ho) as (Hnd & Hin).
  rewrite smap_keys_set.
  destruct (SMap.get k (cache c)) as [v0|] eqn:E.
  - split; [exact Hk|]. split; [exact Hnd|].
    intros x. rewrite Hin, Hiff.
    assert (In k (List.map fst (cache c))).
    { destruct (in_dec string_dec k (List.map fst (cache c))) as [H|H]; [exact H|].
      apply smap_get_None in H. congruence. }
    split; [intros [->|H']; assumption|now right].
  - apply smap_get_None in E.
    split; [now apply NoDup_snoc|]. split; [exact Hnd|].
    intros x. rewrite Hin, in_app_iff, Hiff. simpl.
    split; [intros [->|H]; [right; now left|now left]|intros [H|[->|[]]]; [now right|now left]].
Qed.

Lemma wf_set (k : string) (v : jsv) (c : t) : wf c -> wf (set k v c).
Proof.
  intros Hwf. unfold set.
  destruct ((maxSize c <=? Z.of_nat (length (cache c))) && negb (has k c)).
  - apply (wf_put k v (_evictLRU c)). now apply wf_evict.
  - now apply wf_put.
Qed.

Lemma length_set {V} (k : string) (v : V) (m : list (string * V)) :
  length (SMap.set k v m)
  = match SMap.get k m with
    | Some _ => length m
    | None => S (length m)
    end.
Proof.
  rewrite <- (length_map fst), smap_keys_set.
  destruct (SMap.get k m); [now rewrite length_map|].
  rewrite length_app, length_map. simpl. lia.
Qed.

Lemma wf_order_length (c : t) : wf c -> length (accessOrder c) = length (cache c).
Proof.
  intros (Hk & Ho & Hiff). rewrite <- (length_map fst (cache c)).
  apply Nat.le_antisymm; apply NoDup_incl_length; auto; intros x; apply Hiff.
Qed.

(** The capacity bound. *)
Lemma size_set (k : string) (v : jsv) (c : t) :
  wf c -> 1 <= maxSize c -> size c <= maxSize c ->
  size (set k v c) <= maxSize c /\ maxSize (set k v c) = maxSize c.
Proof.
  intros Hwf Hmax Hsz. unfold size, set in *.
  destruct (maxSize c <=? Z.of_nat (length (cache c))) eqn:Hfull; simpl.
  - apply Z.leb_le in Hfull. unfold has.
    destruct (SMap.get k (cache c)) as [v0|] eqn:E; simpl.
    + rewrite length_set, E. split; [lia|reflexivity].
    + pose proof (wf_order_length c Hwf) as Hlen.
      unfold _evictLRU. destruct (accessOrder c) as [|lru rest] eqn:Eo; simpl.
      * simpl in Hlen. lia.
      * rewrite length_set.
        assert (Hin : In lru (List.map fst (cache c))).
        { destruct Hwf as (_ & _ & Hiff). apply Hiff. rewrite Eo. now left. }
        pose proof (remove_first_length lru _ Hin) as Hrm.
        rewrite <- smap_keys_remove, !length_map in Hrm.
        destruct (SMap.get k (SMap.remove lru (cache c))); split; try reflexivity; lia.
  - apply Z.leb_gt in Hfull. rewrite length_set.
    destruct (SMap.get k (cache c)); split; try reflexivity; lia.
Qed.

Lemma size_get (k : string) (c : t) : size (snd (get k c)) = size c.
Proof. unfold size, get. now destruct (SMap.get k (cache c)). Qed.

Lemma size_invalidate (k : string) (c : t) : size (invalidate k c) <= size c.
Proof.
  unfold size, invalidate; simpl. apply inj_le.
  induction (cache c) as [|[k' v'] m IH]; simpl; [lia|].
  destruct (String.eqb k' k); simpl; lia.
Qed.

(** X13.  The cache never grows beyond [maxSize] (when that is at least
    1): a new cache and every cache obtained from it by [get], [set] and
    [invalidate] holds each key once, lists in [accessOrder] exactly the
    keys it holds, and has at most [maxSize] entries. *)
Theorem cache_stays_within_maxSize (c : t) (k : string) (v : jsv)
  (Hwf : wf c) (Hmax : 1 <= maxSize c) (Hsize : size c <= maxSize c) :
  (wf (set k v c) /\ size (set k v c) <= maxSize (set k v c))
  /\ (wf (snd (get k c)) /\ size (snd (get k c)) <= maxSize (snd (get k c)))
  /\ (wf (invalidate k c) /\ size (invalidate k c) <= maxSize (invalidate k c))
  /\ (forall n, 0 <= n -> wf (new n) /\ size (new n) <= maxSize (new n)).
Proof.
  split; [|split; [|split]].
  - destruct (size_set k v c Hwf Hmax Hsize) as [H1 H2]. rewrite H2.
    split; [now apply wf_set|exact H1].
  - split; [now apply wf_get|]. rewrite size_get.
    unfold get. now destruct (SMap.get k (cache c)).
  - split; [now apply wf_invalidate|].
    pose proof (size_invalidate k c). simpl. lia.
  - intros n Hn. split; [apply wf_new|]. unfold size; simpl. lia.
Qed.

Lemma cache_stays_within_maxSize_witness :
  (wf (set "b" (VNum 2) (set "a" (VNum 1) (new 1)))
   /\ size (set "b" (VNum 2) (set "a" (VNum 1) (new 1)))
      <= maxSize (set "b" (VNum 2) (set "a" (VNum 1) (new 1))))
  /\ (wf (snd (get "b" (set "a" (VNum 1) (new 1))))
      /\ size (snd (get "b" (set "a" (VNum 1) (new 1))))
         <= maxSize (snd (get "b" (set "a" (VNum 1) (new 1)))))
  /\ (wf (invalidate "b" (set "a" (VNum 1) (new 1)))
      /\ size (invalidate "b" (set "a" (VNum 1) (new 1)))
         <= maxSize (invalidate "b" (set "a" (VNum 1) (new 1))))
  /\ (forall n, 0 <= n -> wf (new n) /\ size (new n) <= maxSize (new n)).
Proof.
  apply (cache_stays_within_maxSize (set "a" (VNum 1) (new 1)) "b" (VNum 2)).
  - apply wf_set, wf_new.
  - simpl. lia.
  - vm_compute. discriminate.
Defined.

End LruFacts.

Section LruPolicy.
Import JS CacheLayer Lru.

Lemma smap_get_remove_eq {V} (k : string) (m : list (string * V)) :
  List.NoDup (List.map fst m) -> SMap.get k (SMap.remove k m) = None.
Proof.
  induction m as [|[k' v'] m IH]; simpl; intros Hnd; [reflexivity|].
  apply NoDup_cons_iff in Hnd as [Hk Hnd].
  destruct (String.eqb k' k) eqn:E.
  - apply String.eqb_eq in E. subst k'. now apply smap_get_None.
  - simpl. rewrite E. now apply IH.
Qed.

Lemma read (k : string) (c : t) :
  fst (get k c) = match SMap.get k (cache c) with Some v => v | None => VNull end.
Proof. unfold get. now destruct (SMap.get k (cache c)). Qed.

Lemma set_when_full (k : string) (v : jsv) (c : t) (lru : string) (rest : list string) :
  wf c -> accessOrder c = lru :: rest -> maxSize c <= size c ->
  SMap.get k (cache c) = None ->
  set k v c = mk (maxSize c) (SMap.set k v (SMap.remove lru (cache c))) (rest ++ [k])
  /\ lru <> k.
Proof.
  intros (Hk & Ho & Hiff) Eo Hfull Hnew.
  assert (Hkin : ~ In k (accessOrder c)) by (rewrite Hiff; now apply smap_get_None).
  assert (Hne : lru <> k) by (intros ->; apply Hkin; rewrite Eo; now left).
  split; [|exact Hne].
  unfold set, has, size in *. rewrite Hnew.
  replace (maxSize c <=? Z.of_nat (length (cache c))) with true
    by (symmetry; now apply Z.leb_le).
  simpl. unfold _evictLRU, _updateAccessOrder. rewrite Eo. simpl.
  rewrite remove_first_absent; [reflexivity|].
  intros H. apply Hkin. rewrite Eo. now right.
Qed.

Lemma lru_policy
  (c : t) (k : string) (v : jsv) (lru : string) (rest : list string)
  (Hwf : wf c) (Horder : accessOrder c = lru :: rest)
  (Hfull : maxSize c <= size c) (Hnew : SMap.get k (cache c) = None) :
  fst (get lru (set k v c)) = VNull
  /\ fst (get k (set k v c)) = v
  /\ (forall k', k' <> lru -> fst (get k' (set k v c))
                              = if String.eqb k' k then v else fst (get k' c))
  /\ accessOrder (set k v c) = rest ++ [k].
Proof.
  destruct (set_when_full k v c lru rest Hwf Horder Hfull Hnew) as [E Hne].
  rewrite E, !read. simpl.
  destruct Hwf as (Hk & _ & _).
  split; [|split; [|split]].
  - rewrite smap_get_set_other by exact Hne. now rewrite smap_get_remove_eq.
  - now rewrite smap_get_set_same.
  - intros k' Hk'. rewrite read. simpl. destruct (String.eqb_spec k' k) as [->|Hkk].
    + now rewrite smap_get_set_same.
    + rewrite smap_get_set_other by exact Hkk. rewrite smap_get_remove_other by exact Hk'.
      now rewrite read.
  - reflexivity.
Qed.

(** A key that has just been read is not the next one to go. *)
Lemma read_protects
  (c : t) (k1 k2 : string) (v1 v2 : jsv)
  (Hwf : wf c) (Hfull : maxSize c <= size c) (Htwo : 2 <= size c)
  (Hold : SMap.get k1 (cache c) = Some v1) (Hnew : SMap.get k2 (cache c) = None) :
  fst (get k1 (set k2 v2 (snd (get k1 c)))) = v1.
Proof.
  pose proof (wf_get k1 c Hwf) as Hwf'.
  pose proof (wf_order_length c Hwf) as Hlen.
  assert (Hc' : snd (get k1 c) = _updateAccessOrder k1 c) by (unfold get; now rewrite Hold).
  rewrite Hc' in *.
  destruct Hwf as (Hk & Ho & Hiff).
  assert (Hin : In k1 (accessOrder c)).
  { apply Hiff. destruct (in_dec string_dec k1 (keys c)) as [H|H]; [exact H|].
    apply smap_get_None in H. congruence. }
  pose proof (remove_first_length k1 _ Hin) as Hrm.
  destruct (remove_first k1 (accessOrder c)) as [|lru rest] eqn:Er.
  { unfold size in Htwo. simpl in Hrm. lia. }
  assert (Hlru : lru <> k1).
  { intros ->. assert (In k1 (remove_first k1 (accessOrder c))) by (rewrite Er; now left).
    apply (remove_first_In k1 k1 _ Ho) in H. tauto. }
  destruct (lru_policy (_updateAccessOrder k1 c) k2 v2 lru (rest ++ [k1]) Hwf')
    as (_ & _ & Hother & _).
  - unfold _updateAccessOrder; simpl. now rewrite Er.
  - exact Hfull.
  - exact Hnew.
  - rewrite (Hother k1 (not_eq_sym Hlru)).
    destruct (String.eqb_spec k1 k2) as [->|_]; [congruence|].
    rewrite read. simpl. now rewrite Hold.
Qed.

(** X14.  The eviction is least-recently-used.  When the cache is full and
    [k] is new, [set(k, v)] drops exactly the key at the head of
    [accessOrder]: that key then reads [null], [k] reads [v], every other
    key reads what it read before, and [k] becomes the most recent key.
    A key that has just been read with [get] survives the next [set]. *)
Theorem set_evicts_least_recently_used
  (c : t) (k : string) (v : jsv) (lru : string) (rest : list string)
  (Hwf : wf c) (Horder : accessOrder c = lru :: rest)
  (Hfull : maxSize c <= size c) (Hnew : SMap.get k (cache c) = None) :
  (fst (get lru (set k v c)) = VNull
   /\ fst (get k (set k v c)) = v
   /\ (forall k', k' <> lru -> fst (get k' (set k v c))
                               = if String.eqb k' k then v else fst (get k' c))
   /\ accessOrder (set k v c) = rest ++ [k])
  /\ (forall k1 v1, 2 <= size c -> SMap.get k1 (cache c) = Some v1 ->
        fst (get k1 (set k v (snd (get k1 c)))) = v1).
Proof.
  split; [exact (lru_policy c k v lru rest Hwf Horder Hfull Hnew)|].
  intros k1 v1 Htwo Hold. exact (read_protects c k1 k v1 v Hwf Hfull Htwo Hold Hnew).
Qed.

Lemma set_evicts_least_recently_used_witness :
  (fst (get "a" (set "c" (VNum 3) (set "b" (VNum 2) (set "a" (VNum 1) (new 2))))) = VNull
   /\ fst (get "c" (set "c" (VNum 3) (set "b" (VNum 2) (set "a" (VNum 1) (new 2))))) = VNum 3
   /\ (forall k', k' <> "a" ->
         fst (get k' (set "c" (VNum 3) (set "b" (VNum 2) (set "a" (VNum 1) (new 2)))))
         = if String.eqb k' "c" then VNum 3
           else fst (get k' (set "b" (VNum 2) (set "a" (VNum 1) (new 2)))))
   /\ accessOrder (set "c" (VNum 3) (set "b" (VNum 2) (set "a" (VNum 1) (new 2))))
      = ["b"] ++ ["c"])
  /\ (forall k1 v1,
        2 <= size (set "b" (VNum 2) (set "a" (VNum 1) (new 2))) ->
        SMap.get k1 (cache (set "b" (VNum 2) (set "a" (VNum 1) (new 2)))) = Some v1 ->
        fst (get k1 (set "c" (VNum 3)
                       (snd (get k1 (set "b" (VNum 2) (set "a" (VNum 1) (new 2))))))) = v1).
Proof.
  apply (set_evicts_least_recently_used
           (set "b" (VNum 2) (set "a" (VNum 1) (new 2))) "c" (VNum 3) "a" ["b"]).
  - apply wf_set, wf_set, wf_new.
  - reflexivity.
  - vm_compute. discriminate.
  - reflexivity.
Defined.

(** X15.  What the cache answers: [get] after [set] of the same key returns
    the value set; [get] after [invalidate] of the same key returns [null];
    and [invalidate] of another key changes no answer. *)
Theorem cache_lookup_laws (c : t) (k k' : string) (v : jsv) :
  fst (get k (set k v c)) = v
  /\ (wf c -> fst (get k (invalidate k c)) = VNull)
  /\ (k <> k' -> fst (get k (invalidate k' c)) = fst (get k c)).
Proof.
  split; [|split].
  - rewrite read. unfold set, _updateAccessOrder; simpl. now rewrite smap_get_set_same.
  - intros (Hk & _ & _). rewrite read. unfold invalidate; simpl.
    now rewrite smap_get_remove_eq.
  - intros Hne. rewrite !read. unfold invalidate; simpl.
    now rewrite smap_get_remove_other.
Qed.

End LruPolicy.

(** ** The query engine *)

Section QueryFacts.
Import JS QueryEngine Page.

Lemma sort_insert_perm {A} (cmp : A -> A -> Z) (x : A) (l : list A) :
  Permutation (Obj.sort_insert cmp x l) (x :: l).
Proof.
  induction l as [|y l IH]; simpl; [reflexivity|].
  destruct (cmp x y <? 0); [reflexivity|].
  rewrite IH. apply perm_swap.
Qed.

Lemma sort_perm {A} (cmp : A -> A -> Z) (l : list A) : Permutation (Obj.sort cmp l) l.
Proof.
  induction l as [|x l IH]; simpl; [reflexivity|].
  unfold Obj.sort in *. simpl. rewrite sort_insert_perm. now constructor.
Qed.



Lemma firstn_incl {A} (n : nat) (l : list A) (x : A) : In x (firstn n l) -> In x l.
Proof.
  revert l. induction n as [|n IH]; intros [|y l] H; simpl in *; try contradiction.
  destruct H as [->|H]; [now left|right; now apply IH].
Qed.

Lemma skipn_incl {A} (n : nat) (l : list A) (x : A) : In x (skipn n l) -> In x l.
Proof.
  revert l. induction n as [|n IH]; intros [|y l] H; simpl in *; try assumption.
  right. now apply IH.
Qed.

Lemma slice_incl {A} (l : list A) (a : Z) (b : option Z) (x : A) :
  In x (slice l a b) -> In x l.
Proof. unfold slice. intros H. now apply firstn_incl, skipn_incl in H. Qed.

Lemma applyFilter_spec (filter : jsv) (ds rs : list jsv) :
  _applyFilter ds filter = Ok rs ->
  forall d, In d rs -> In d ds /\ _matchesFilter d filter = Ok true.
Proof.
  revert rs. induction ds as [|x ds IH]; intros rs H d Hd; simpl in H.
  - inversion H; subst. contradiction.
  - destruct (_matchesFilter x filter) as [b| | |] eqn:Hm; simpl in H; try discriminate.
    destruct (_applyFilter ds filter) as [rs'| | |] eqn:Hf; simpl in H; try discriminate.
    inversion H; subst rs; clear H.
    destruct b.
    + destruct Hd as [->|Hd]; [split; [now left|exact Hm]|].
      destruct (IH rs' eq_refl d Hd). split; [now right|assumption].
    + destruct (IH rs' eq_refl d Hd). split; [now right|assumption].
Qed.

Lemma get_in_scan (c : string) (id : jsv) (m : MemoryEngine.t) :
  truthy (MemoryEngine.get c id m) = true ->
  In (MemoryEngine.get c id m) (MemoryEngine.scan c m).
Proof.
  unfold MemoryEngine.get, MemoryEngine.scan.
  destruct (SMap.get c m) as [col|]; [|discriminate].
  induction (MemoryEngine.data col) as [|[k d] data IH]; simpl; [discriminate|].
  destruct (strict_eq k id); [now left|]. intros H. right. now apply IH.
Qed.

Lemma executePlan_in_scan (fuel : nat) (q : t) (c : string) (p : plan) (ds : list jsv) :
  _executePlan fuel q c p = Ok ds ->
  forall d, In d ds -> In d (MemoryEngine.scan c (storage q)).
Proof.
  intros H d Hd. destruct p as [|field start stop|field value]; simpl in H.
  - inversion H; subst. exact Hd.
  - destruct (IndexManager.lookup_range _ _ _ _ _ _) as [[| |rs] s|e s|s|];
      try discriminate.
    inversion H; subst ds; clear H.
    apply filter_In in Hd as [Hd Ht]. apply in_map_iff in Hd as (r & <- & _).
    now apply get_in_scan.
  - destruct (IndexManager.lookup_equality _ _ _ _) as [[|docId|rs]|]; try discriminate;
      try (inversion H; subst; contradiction).
    destruct (truthy docId); [|inversion H; subst; contradiction].
    destruct (truthy (MemoryEngine.get c docId (storage q))) eqn:Ht;
      inversion H; subst; [|contradiction].
    destruct Hd as [<-|[]]. now apply get_in_scan.
Qed.

(** What a query without projection returns. *)
Lemma execute_sound (fuel : nat) (q : t) (c : string) (filter options : jsv) (rs : list jsv) :
  truthy (prop options "select") = false ->
  execute fuel q c filter options = Ok rs ->
  forall d, In d rs ->
    In d (MemoryEngine.scan c (storage q)) /\ _matchesFilter d filter = Ok true.
Proof.
  intros Hsel H d Hd. unfold execute in H. rewrite Hsel in H.
  destruct (_createQueryPlan q c filter) as [p| | |]; simpl in H; try discriminate.
  destruct (_executePlan fuel q c p) as [ds| | |] eqn:Hp; simpl in H; try discriminate.
  destruct (_applyFilter ds filter) as [fs| | |] eqn:Hf; simpl in H; try discriminate.
  assert (Hfs : forall x, In x fs -> In x (MemoryEngine.scan c (storage q))
                                     /\ _matchesFilter x filter = Ok true).
  { intros x Hx. destruct (applyFilter_spec filter ds fs Hf x Hx) as [Hin Hm].
    split; [|exact Hm]. exact (executePlan_in_scan fuel q c p ds Hp x Hin). }
  assert (Hsorted : forall ss,
             (if truthy (prop options "sort") then _applySort fs (prop options "sort")
              else Ok fs) = Ok ss ->
             forall x, In x ss -> In x fs).
  { intros ss Hs x Hx. destruct (truthy (prop options "sort")).
    - unfold _applySort in Hs. destruct (Obj.entries _); [|discriminate].
      inversion Hs; subst. eapply Permutation_in; [apply sort_perm|exact Hx].
    - inversion Hs; subst. exact Hx. }
  destruct (if truthy (prop options "sort") then _ else _) as [ss| | |] eqn:Hs;
    simpl in H; try discriminate.
  inversion H; subst rs; clear H.
  apply Hfs, (Hsorted ss eq_refl).
  destruct (truthy (prop options "limit")); [apply slice_incl in Hd|];
    (destruct (truthy (prop options "skip")); [now apply slice_incl in Hd|exact Hd]).
Qed.

(** X16.  A query that selects no fields returns only documents that are
    stored in the collection and satisfy the filter, whatever the plan,
    the sort order and the pagination. *)
Theorem query_returns_stored_matching_documents
  (fuel : nat) (q : t) (c : string) (filter options : jsv) (rs : list jsv)
  (Hselect : truthy (prop options "select") = false)
  (Hrun : execute fuel q c filter options = Ok rs) :
  List.Forall (fun d => In d (MemoryEngine.scan c (storage q))
                        /\ _matchesFilter d filter = Ok true) rs.
Proof. apply List.Forall_forall. exact (execute_sound fuel q c filter options rs Hselect Hrun). Qed.

Lemma query_returns_stored_matching_documents_witness :
  List.Forall (fun d => In d (MemoryEngine.scan "C" (storage Scenarios.two_documents))
                        /\ _matchesFilter d (VObj [("id", VStr "a")]) = Ok true)
              [VObj [("id", VStr "a")]].
Proof.
  apply (query_returns_stored_matching_documents 10 Scenarios.two_documents "C"
           (VObj [("id", VStr "a")]) (VObj [("limit", VNum 5)]));
    reflexivity.
Defined.

End QueryFacts.

Section PageFacts.
Import JS QueryEngine Page.




End PageFacts.

Section ScanFacts.
Import JS QueryEngine.

Lemma plan_without_index (q : t) (c : string) (fs : list (string * jsv)) :
  (forall field, IndexManager.hasIndex c field (indexes q) = false) ->
  plan_loop q c fs = Ok FullScan.
Proof.
  intros Hno. induction fs as [|[f v] fs IH]; simpl; [reflexivity|].
  rewrite Hno. now destruct (Obj.starts_with_dollar f).
Qed.

Lemma applyFilter_all (ds : list jsv) : _applyFilter ds (VObj []) = Ok ds.
Proof. induction ds as [|d ds IH]; simpl; [reflexivity|]. now rewrite IH. Qed.

Lemma applyProjection_length (ds rs : list jsv) (select : jsv) :
  _applyProjection ds select = Ok rs -> length rs = length ds.
Proof.
  unfold _applyProjection. destruct ds as [|d ds]; [intros H; now inversion H|].
  destruct (Obj.iterate select); [|discriminate].
  intros H. injection H as <-. simpl. now rewrite length_map.
Qed.

Lemma count_is_length (fuel : nat) (q : t) (c : string) (filter : jsv) :
  count fuel q c filter
  = bind (execute fuel q c filter (VObj [])) (fun rs => Ok (Z.of_nat (length rs))).
Proof.
  unfold count, execute. simpl.
  destruct (_createQueryPlan q c filter) as [p| | |]; simpl; try reflexivity.
  destruct (_executePlan fuel q c p) as [ds| | |]; simpl; try reflexivity.
  destruct (_applyFilter ds filter) as [fs| | |]; simpl; try reflexivity.
  unfold _applyProjection. destruct fs; simpl; [reflexivity|].
  now rewrite length_map.
Qed.

Lemma execute_unindexed
  (fuel : nat) (q : t) (c : string) (fs : list (string * jsv))
  (Hno : forall field, IndexManager.hasIndex c field (indexes q) = false) :
  execute fuel q c (VObj fs) (VObj [])
  = _applyFilter (MemoryEngine.scan c (storage q)) (VObj fs)
  /\ execute fuel q c (VObj []) (VObj []) = Ok (MemoryEngine.scan c (storage q))
  /\ count fuel q c (VObj [])
     = Ok (Z.of_nat (length (MemoryEngine.scan c (storage q))))
  /\ (forall filter,
        count fuel q c filter
        = bind (execute fuel q c filter (VObj [])) (fun rs => Ok (Z.of_nat (length rs)))).
Proof.
  assert (E : forall fs', execute fuel q c (VObj fs') (VObj [])
                          = _applyFilter (MemoryEngine.scan c (storage q)) (VObj fs')).
  { intros fs'. unfold execute, _createQueryPlan. simpl.
    rewrite (plan_without_index q c fs' Hno). simpl.
    now destruct (_applyFilter _ _). }
  split; [apply E|].
  split; [rewrite E; apply applyFilter_all|].
  split; [|intros filter; apply count_is_length].
  rewrite count_is_length, E, applyFilter_all. reflexivity.
Qed.

(** X18.  Without an index on the collection, a query with an object as
    filter and no options returns exactly the stored documents that
    satisfy the filter, in insertion order; with the empty filter it
    returns every stored document.  [count] is the number of documents the
    same query returns. *)
Theorem unindexed_query_filters_the_scan
  (fuel : nat) (q : t) (c : string) (fs : list (string * jsv))
  (Hno : forall field, IndexManager.hasIndex c field (indexes q) = false) :
  execute fuel q c (VObj fs) (VObj [])
  = _applyFilter (MemoryEngine.scan c (storage q)) (VObj fs)
  /\ execute fuel q c (VObj []) (VObj []) = Ok (MemoryEngine.scan c (storage q))
  /\ count fuel q c (VObj [])
     = Ok (Z.of_nat (length (MemoryEngine.scan c (storage q))))
  /\ (forall filter,
        count fuel q c filter
        = bind (execute fuel q c filter (VObj [])) (fun rs => Ok (Z.of_nat (length rs)))).
Proof. exact (execute_unindexed fuel q c fs Hno). Qed.

Lemma unindexed_query_filters_the_scan_witness :
  execute 10 Scenarios.two_documents "C" (VObj [("id", VStr "b")]) (VObj [])
  = _applyFilter (MemoryEngine.scan "C" (storage Scenarios.two_documents))
      (VObj [("id", VStr "b")])
  /\ execute 10 Scenarios.two_documents "C" (VObj []) (VObj [])
     = Ok (MemoryEngine.scan "C" (storage Scenarios.two_documents))
  /\ count 10 Scenarios.two_documents "C" (VObj [])
     = Ok (Z.of_nat (length (MemoryEngine.scan "C" (storage Scenarios.two_documents))))
  /\ (forall filter,
        count 10 Scenarios.two_documents "C" filter
        = bind (execute 10 Scenarios.two_documents "C" filter (VObj []))
               (fun rs => Ok (Z.of_nat (length rs)))).
Proof.
  apply (unindexed_query_filters_the_scan 10 Scenarios.two_documents "C" [("id", VStr "b")]).
  intros field. reflexivity.
Defined.

End ScanFacts.

Section ProjectionFacts.
Import JS QueryEngine.

Lemma assoc_set_eq (k : string) (v : jsv) (kvs : list (string * jsv)) :
  assoc k (Obj.set k v kvs) = Some v.
Proof.
  induction kvs as [|[k' v'] kvs IH]; simpl.
  - now rewrite String.eqb_refl.
  - destruct (String.eqb k' k) eqn:E; simpl; [now rewrite String.eqb_refl|].
    rewrite E. exact IH.
Qed.

Lemma assoc_set_other (k k' : string) (v : jsv) (kvs : list (string * jsv)) :
  k <> k' -> assoc k (Obj.set k' v kvs) = assoc k kvs.
Proof.
  intros Hne. induction kvs as [|[k0 v0] kvs IH]; simpl.
  - destruct (String.eqb k' k) eqn:E; [apply String.eqb_eq in E; congruence|reflexivity].
  - destruct (String.eqb k0 k') eqn:E'; simpl.
    + apply String.eqb_eq in E'. subst k0.
      destruct (String.eqb k' k) eqn:E; [apply String.eqb_eq in E; congruence|reflexivity].
    + destruct (String.eqb k0 k); [reflexivity|exact IH].
Qed.

(** The fields of a projected document, one round of the loop after the
    other. *)
Lemma project_loop (doc : jsv) (f : string) (select : list jsv) :
  forall projected,
    assoc f (fold_left
               (fun projected field =>
                  let g := to_string field in
                  if Obj.has doc g then Obj.set g (prop doc g) projected else projected)
               select projected)
    = if existsb (fun field => String.eqb (to_string field) f) select && Obj.has doc f
      then Some (prop doc f)
      else assoc f projected.
Proof.
  induction select as [|field select IH]; intros projected; simpl; [reflexivity|].
  rewrite IH. clear IH.
  destruct (String.eqb_spec (to_string field) f) as [->|Hne]; simpl.
  - destruct (Obj.has doc f) eqn:Hh.
    + rewrite andb_true_r, assoc_set_eq.
      now destruct (existsb _ select).
    + now rewrite !andb_false_r.
  - destruct (existsb _ select && Obj.has doc f); [reflexivity|].
    destruct (Obj.has doc (to_string field)); [|reflexivity].
    apply assoc_set_other. congruence.
Qed.

(** X19.  A projected document has the [_id] of the document and, of the
    selected fields, exactly those the document owns, each with the
    document's value; it has no other field. *)
Theorem projection_keeps_id_and_selected_fields (select : list jsv) (doc : jsv) (f : string) :
  prop (project select doc) f
  = if existsb (fun field => String.eqb (to_string field) f) select && Obj.has doc f
    then prop doc f
    else if String.eqb f "_id" then prop doc "_id" else VUndefined.
Proof.
  unfold project. cbn [prop]. rewrite project_loop.
  destruct (existsb _ select && Obj.has doc f); [reflexivity|].
  cbn [assoc]. rewrite (String.eqb_sym "_id" f). now destruct (String.eqb f "_id").
Qed.

End ProjectionFacts.

Section SortFacts.
Import JS QueryEngine Ordering.

Lemma sort_compare_numbers (f : string) (dir a b : jsv) :
  has_number f a -> has_number f b ->
  (sort_compare [(f, dir)] a b <? 0) = before f dir a b.
Proof.
  intros [x Hx] [y Hy]. unfold before, field_number. cbn [sort_compare]. rewrite Hx, Hy.
  cbn [strict_eq]. unfold lt. cbn [to_primitive to_number].
  destruct (Z.eqb_spec x y) as [->|Hne].
  - rewrite !Z.ltb_irrefl. now destruct (strict_eq dir (VNum 1)).
  - destruct (Z.ltb_spec x y) as [Hlt|Hge]; destruct (strict_eq dir (VNum 1)); simpl.
    + reflexivity.
    + symmetry. apply Z.ltb_ge. lia.
    + reflexivity.
    + symmetry. apply Z.ltb_lt. lia.
Qed.

Lemma before_true (f : string) (dir a b : jsv) :
  before f dir a b = true -> in_order f dir a b.
Proof.
  unfold before, in_order. destruct (strict_eq dir (VNum 1)); intros H;
    apply Z.ltb_lt in H; lia.
Qed.

Lemma before_false (f : string) (dir a b : jsv) :
  before f dir a b = false -> in_order f dir b a.
Proof.
  unfold before, in_order. destruct (strict_eq dir (VNum 1)); intros H;
    apply Z.ltb_ge in H; lia.
Qed.

Lemma sort_insert_sorted (f : string) (dir x : jsv) (l : list jsv) :
  has_number f x -> Forall (has_number f) l ->
  Sorted (in_order f dir) l ->
  Sorted (in_order f dir) (Obj.sort_insert (sort_compare [(f, dir)]) x l).
Proof.
  intros Hx Hall Hs. induction Hs as [|y l Hs IH Hhd]; cbn [Obj.sort_insert].
  - repeat constructor.
  - apply Forall_cons_iff in Hall as [Hy Hall].
    rewrite (sort_compare_numbers f dir x y Hx Hy).
    destruct (before f dir x y) eqn:E.
    + constructor; [constructor; assumption|]. constructor. now apply before_true.
    + constructor; [now apply IH|].
      destruct l as [|z l]; cbn [Obj.sort_insert].
      * constructor. now apply before_false.
      * apply Forall_cons_iff in Hall as [Hz _].
        rewrite (sort_compare_numbers f dir x z Hx Hz).
        destruct (before f dir x z);
          constructor; [now apply before_false|now inversion Hhd].
Qed.

Lemma sort_sorted (f : string) (dir : jsv) (l : list jsv) :
  Forall (has_number f) l ->
  Sorted (in_order f dir) (Obj.sort (sort_compare [(f, dir)]) l).
Proof.
  induction l as [|x l IH]; intros Hall; [constructor|].
  apply Forall_cons_iff in Hall as [Hx Hall].
  change (Obj.sort (sort_compare [(f, dir)]) (x :: l))
    with (Obj.sort_insert (sort_compare [(f, dir)]) x (Obj.sort (sort_compare [(f, dir)]) l)).
  apply sort_insert_sorted; [exact Hx| |now apply IH].
  rewrite Forall_forall in *. intros d Hd. apply Hall.
  apply list_elem_of_In. apply list_elem_of_In in Hd.
  eapply Permutation_in; [apply sort_perm|exact Hd].
Qed.

(** X20.  Sorting by one field that holds a number in every document
    returns the same documents, ascending by that field when the direction
    is the number 1 and descending for every other direction. *)
Theorem sort_orders_by_a_numeric_field
  (f : string) (dir : jsv) (documents : list jsv)
  (Hnum : Forall (has_number f) documents) :
  exists sorted,
    _applySort documents (VObj [(f, dir)]) = Ok sorted
    /\ Permutation sorted documents
    /\ Sorted (in_order f dir) sorted.
Proof.
  exists (Obj.sort (sort_compare [(f, dir)]) documents).
  split; [reflexivity|]. split; [apply sort_perm|now apply sort_sorted].
Qed.

Lemma sort_orders_by_a_numeric_field_witness :
  exists sorted,
    _applySort [VObj [("n", VNum 2)]; VObj [("n", VNum 1)]; VObj [("n", VNum 3)]]
      (VObj [("n", VStr "asc")]) = Ok sorted
    /\ Permutation sorted [VObj [("n", VNum 2)]; VObj [("n", VNum 1)]; VObj [("n", VNum 3)]]
    /\ Sorted (in_order "n" (VStr "asc")) sorted.
Proof.
  apply (sort_orders_by_a_numeric_field "n" (VStr "asc")).
  repeat constructor; eexists; reflexivity.
Defined.

End SortFacts.

Section ComparisonFacts.
Import JS QueryEngine Ordering.





End ComparisonFacts.

(** ** The index manager and the database *)

Section IndexCreation.
Import JS.

Lemma createIndex_done (fuel : nat) (storage : MemoryEngine.t) (c f : string) (options : jsv)
  (im im' : IndexManager.t) (ix : IndexManager.Index) :
  IndexManager.createIndex fuel storage c f options im = Done ix im' ->
  IndexManager.find_index c f im = None
  /\ exists ix', IndexManager.find_index c f im' = Some ix'.
Proof.
  unfold IndexManager.createIndex.
  set (im1 := match SMap.get c im with Some _ => im | None => SMap.set c [] im end).
  assert (Hfind : forall g, (match SMap.get c im1 with
                             | Some fs => SMap.get g fs
                             | None => None
                             end) = IndexManager.find_index c g im).
  { intros g. unfold IndexManager.find_index, im1.
    destruct (SMap.get c im) as [fs|] eqn:E; [now rewrite E|].
    now rewrite smap_get_set_same. }
  specialize (Hfind f).
  assert (Hput : forall im2 ix2, exists ix', IndexManager.find_index c f
                                     (IndexManager.put_index c f im2 ix2) = Some ix').
  { intros im2 ix2. exists ix2. unfold IndexManager.find_index, IndexManager.put_index.
    now rewrite !smap_get_set_same. }
  destruct (match SMap.get c im1 with Some fs => SMap.get f fs | None => None end)
    as [old|] eqn:Eold.
  - destruct (SMap.get c im1) as [fields|]; [|discriminate]. simpl. rewrite Eold. discriminate.
  - assert (Ef : SMap.get f (match SMap.get c im1 with Some fs => fs | None => [] end) = None).
    { destruct (SMap.get c im1); [exact Eold|reflexivity]. }
    rewrite Ef.
    match goal with
    | |- context [IndexManager._buildIndex fuel storage c ?i] => set (ix0 := i)
    end.
    destruct (IndexManager._buildIndex fuel storage c ix0) as [[] ix1|e ix1|ix1|];
      simpl; try discriminate.
    intros H. injection H as _ <-. split; [now rewrite <- Hfind|]. apply Hput.
Qed.

Lemma createIndex_existing (fuel : nat) (storage : MemoryEngine.t) (c f : string)
  (options : jsv) (im : IndexManager.t) (ix : IndexManager.Index) :
  IndexManager.find_index c f im = Some ix ->
  IndexManager.createIndex fuel storage c f options im = Threw "Index already exists" im.
Proof.
  unfold IndexManager.find_index, IndexManager.createIndex.
  destruct (SMap.get c im) as [fields|] eqn:E; [|discriminate].
  intros Hf. rewrite E, Hf. reflexivity.
Qed.

(** X22.  An index is created once.  [createIndex] returns only when the
    collection had no index on the field; from then on [hasIndex] is
    [true] for that field, and every further [createIndex] on it throws
    and leaves the index manager as it is. *)
Theorem createIndex_refuses_a_second_index
  (fuel : nat) (storage : MemoryEngine.t) (c f : string) (options : jsv)
  (im im' : IndexManager.t) (ix : IndexManager.Index)
  (Hdone : IndexManager.createIndex fuel storage c f options im = Done ix im') :
  IndexManager.hasIndex c f im = false
  /\ IndexManager.hasIndex c f im' = true
  /\ (forall fuel2 storage2 options2,
        IndexManager.createIndex fuel2 storage2 c f options2 im'
        = Threw "Index already exists" im').
Proof.
  destruct (createIndex_done fuel storage c f options im im' ix Hdone) as (Hno & ix' & Hyes).
  unfold IndexManager.hasIndex. rewrite Hno, Hyes.
  split; [reflexivity|]. split; [reflexivity|].
  intros fuel2 storage2 options2. now apply (createIndex_existing _ _ _ _ _ _ ix').
Qed.

End IndexCreation.

Section IndexCreationWitness.
Import JS.

Lemma createIndex_refuses_a_second_index_witness :
  IndexManager.hasIndex "C" "u" [] = false
  /\ IndexManager.hasIndex "C" "u"
       (settled [] (IndexManager.createIndex 10 [] "C" "u" (VObj [("type", VStr "btree")]) [])) = true
  /\ (forall fuel2 storage2 options2,
        IndexManager.createIndex fuel2 storage2 "C" "u" options2
          (settled [] (IndexManager.createIndex 10 [] "C" "u" (VObj [("type", VStr "btree")]) []))
        = Threw "Index already exists"
            (settled [] (IndexManager.createIndex 10 [] "C" "u" (VObj [("type", VStr "btree")]) []))).
Proof.
  refine (createIndex_refuses_a_second_index 10 [] "C" "u" (VObj [("type", VStr "btree")]) [] _ _ _).
  vm_compute. reflexivity.
Defined.

End IndexCreationWitness.

Section DocumentFacts.
Import JS Db.


Lemma jmap_set_values {V} (k : jsv) (v : V) (m : list (jsv * V)) :
  In v (JMap.values (JMap.set k v m)).
Proof.
  induction m as [|[k' v'] m IH]; simpl; [now left|].
  destruct (strict_eq k' k); simpl; [now left|now right].
Qed.

Lemma fired_keeps (fuel : nat) (c : string) (document oldDocument : jsv)
  (op : IndexManager.operation) (db db' : GhostDB.t) :
  GhostDB.fire_updateIndexes fuel c document op oldDocument db = Some db' ->
  GhostDB.cache db' = GhostDB.cache db
  /\ GhostDB.collections db' = GhostDB.collections db
  /\ GhostDB.isInitialized db' = GhostDB.isInitialized db.
Proof.
  unfold GhostDB.fire_updateIndexes.
  destruct (IndexManager.updateIndexes _ _ _ _ _ _); intros H; inversion H; now repeat split.
Qed.

Lemma fired_without_index (fuel : nat) (c : string) (document oldDocument : jsv)
  (op : IndexManager.operation) (db : GhostDB.t) :
  SMap.get c (GhostDB.indexManager db) = None ->
  GhostDB.fire_updateIndexes fuel c document op oldDocument db = Some db.
Proof.
  intros Hno. unfold GhostDB.fire_updateIndexes, IndexManager.updateIndexes.
  rewrite Hno. simpl. now destruct db.
Qed.

Lemma insert_unfold (fuel : nat) (now : Z) (freshId c : string)
  (document : list (string * jsv)) (db : GhostDB.t) :
  GhostDB.insert fuel now freshId c document db
  = if negb (GhostDB.isInitialized db) then Threw "Database not initialized" db
    else
      match MemoryEngine.getCollection c (GhostDB.collections db) with
      | None => Threw "Collection does not exist" db
      | Some col =>
          match GhostDB._validateDocument (MemoryEngine.schema col) (VObj document) with
          | Some e => Threw e db
          | None =>
              let doc := VObj (stamped now freshId document) in
              match GhostDB.fire_updateIndexes fuel c doc IndexManager.OpInsert VNull
                      (GhostDB.set_collections
                         (SMap.set c
                            (MemoryEngine.set_data
                               (JMap.set (prop doc "id") doc (MemoryEngine.data col)) col)
                            (GhostDB.collections db)) db) with
              | None => OutOfFuel
              | Some db2 => Done doc (GhostDB.invalidate (GhostDB.doc_key c (prop doc "id")) db2)
              end
          end
      end.
Proof. reflexivity. Qed.


(** The state an insert that returns leaves behind. *)
Lemma insert_done (fuel : nat) (now : Z) (freshId c : string) (document : list (string * jsv))
  (db db' : GhostDB.t) (doc : jsv) :
  GhostDB.insert fuel now freshId c document db = Done doc db' ->
  doc = VObj (stamped now freshId document)
  /\ GhostDB.isInitialized db = true
  /\ GhostDB.isInitialized db' = true
  /\ (exists col,
        MemoryEngine.getCollection c (GhostDB.collections db) = Some col
        /\ GhostDB.collections db'
           = SMap.set c (MemoryEngine.set_data
                           (JMap.set (prop doc "id") doc (MemoryEngine.data col)) col)
               (GhostDB.collections db))
  /\ GhostDB.cache db'
     = option_map (CacheLayer.invalidate (GhostDB.doc_key c (prop doc "id"))) (GhostDB.cache db).
Proof.
  rewrite insert_unfold.
  destruct (GhostDB.isInitialized db) eqn:Hinit; cbn [negb]; [|discriminate].
  destruct (MemoryEngine.getCollection c (GhostDB.collections db)) as [col|] eqn:Hcol;
    [|discriminate].
  destruct (GhostDB._validateDocument _ _); [discriminate|].
  cbv zeta.
  set (doc0 := VObj (stamped now freshId document)).
  set (db1 := GhostDB.set_collections _ db).
  destruct (GhostDB.fire_updateIndexes fuel c doc0 IndexManager.OpInsert VNull db1)
    as [db2|] eqn:Hfire; [|discriminate].
  apply fired_keeps in Hfire. destruct Hfire as (Hc & Hcol2 & Hi).
  change (GhostDB.cache db1) with (GhostDB.cache db) in Hc.
  change (GhostDB.isInitialized db1) with (GhostDB.isInitialized db) in Hi.
  intros H. injection H as Hdoc Hdb. subst db' doc.
  split; [reflexivity|]. split; [reflexivity|].
  rewrite <- Hc. unfold GhostDB.invalidate.
  destruct (GhostDB.cache db2) as [c0|] eqn:Ec;
    cbn [GhostDB.isInitialized GhostDB.set_cache GhostDB.collections GhostDB.cache option_map].
  - split; [now rewrite Hi|]. split; [exists col; split; [reflexivity|now rewrite Hcol2]|].
    reflexivity.
  - split; [now rewrite Hi|]. split; [exists col; split; [reflexivity|now rewrite Hcol2]|].
    exact Ec.
Qed.

End DocumentFacts.

Section DocumentRoundTrip.
Import JS Db.



End DocumentRoundTrip.

Section DocumentWitness.
Import JS.



End DocumentWitness.

Section CollectionCreation.
Import JS.

Lemma createIndex_collections (fuel : nat) (nm field : string) (options : jsv) (db : GhostDB.t) :
  GhostDB.collections (settled db (GhostDB.createIndex fuel nm field options db))
  = GhostDB.collections db.
Proof.
  unfold GhostDB.createIndex.
  destruct (MemoryEngine.getCollection nm (GhostDB.collections db)); [|reflexivity].
  destruct (IndexManager.createIndex _ _ _ _ _ _); reflexivity.
Qed.

Lemma schema_indexes_collections (fuel : nat) (nm : string) (defs : list jsv) :
  forall db db',
    HashIndex.for_each
      (fun indexDef db =>
         let options := match prop indexDef "options" with
                        | VUndefined => VObj []
                        | o => o
                        end in
         match GhostDB.createIndex fuel nm (to_string (prop indexDef "field")) options db with
         | OutOfFuel => OutOfFuel
         | r => Done tt (settled db r)
         end) defs db = Done tt db' ->
    GhostDB.collections db' = GhostDB.collections db.
Proof.
  induction defs as [|d defs IH]; intros db db' H; simpl in H; [now inversion H|].
  set (options := match prop d "options" with VUndefined => VObj [] | o => o end) in *.
  pose proof (createIndex_collections fuel nm (to_string (prop d "field")) options db) as Hc.
  destruct (GhostDB.createIndex fuel nm (to_string (prop d "field")) options db)
    as [u s|e s|s|]; simpl in H, Hc; try discriminate;
    apply IH in H; congruence.
Qed.

Lemma createCollection_done (fuel : nat) (nm : string) (schema : jsv) (db db' : GhostDB.t) :
  GhostDB.createCollection fuel nm schema db = Done tt db' ->
  MemoryEngine.getCollection nm (GhostDB.collections db) = None
  /\ GhostDB.collections db'
     = SMap.set nm (MemoryEngine.mkCollection nm schema []) (GhostDB.collections db).
Proof.
  unfold GhostDB.createCollection.
  destruct (MemoryEngine.getCollection nm (GhostDB.collections db)); [discriminate|].
  destruct (truthy (prop schema "indexes")).
  - destruct (prop schema "indexes"); try discriminate.
    intros H. apply schema_indexes_collections in H. now split.
  - intros H. inversion H. now split.
Qed.

(** X24.  A collection is created once.  [createCollection] returns only
    when no collection had the name; afterwards the collection is
    registered, empty, with the schema given, and every further
    [createCollection] with that name throws and changes nothing. *)
Theorem createCollection_refuses_a_second_collection
  (fuel : nat) (nm : string) (schema : jsv) (db db' : GhostDB.t)
  (Hdone : GhostDB.createCollection fuel nm schema db = Done tt db') :
  MemoryEngine.getCollection nm (GhostDB.collections db) = None
  /\ MemoryEngine.getCollection nm (GhostDB.collections db')
     = Some (MemoryEngine.mkCollection nm schema [])
  /\ (forall fuel2 schema2,
        GhostDB.createCollection fuel2 nm schema2 db' = Threw "Collection already exists" db').
Proof.
  destruct (createCollection_done fuel nm schema db db' Hdone) as [Hno Hcols].
  assert (Hyes : MemoryEngine.getCollection nm (GhostDB.collections db')
                 = Some (MemoryEngine.mkCollection nm schema [])).
  { rewrite Hcols. unfold MemoryEngine.getCollection. apply smap_get_set_same. }
  split; [exact Hno|]. split; [exact Hyes|].
  intros fuel2 schema2. unfold GhostDB.createCollection. now rewrite Hyes.
Qed.

End CollectionCreation.

Section CollectionWitness.
Import JS.

Lemma createCollection_refuses_a_second_collection_witness :
  MemoryEngine.getCollection "C" (GhostDB.collections Db.empty_db) = None
  /\ MemoryEngine.getCollection "C"
       (GhostDB.collections (settled Db.empty_db (GhostDB.createCollection 10 "C" (VObj []) Db.empty_db)))
     = Some (MemoryEngine.mkCollection "C" (VObj []) [])
  /\ (forall fuel2 schema2,
        GhostDB.createCollection fuel2 "C" schema2
          (settled Db.empty_db (GhostDB.createCollection 10 "C" (VObj []) Db.empty_db))
        = Threw "Collection already exists"
            (settled Db.empty_db (GhostDB.createCollection 10 "C" (VObj []) Db.empty_db))).
Proof.
  apply (createCollection_refuses_a_second_collection 10 "C" (VObj []) Db.empty_db).
  vm_compute. reflexivity.
Defined.

End CollectionWitness.

Section FailureFacts.
Import JS Db.













End FailureFacts.

Section VisibilityFacts.
Import JS Db.

Lemma applyFilter_complete (filter : jsv) (ds rs : list jsv) :
  QueryEngine._applyFilter ds filter = QueryEngine.Ok rs ->
  forall d, In d ds -> QueryEngine._matchesFilter d filter = QueryEngine.Ok true -> In d rs.
Proof.
  revert rs. induction ds as [|x ds IH]; intros rs H d Hd Hm; simpl in H; [contradiction|].
  destruct (QueryEngine._matchesFilter x filter) as [b| | |] eqn:Hx; simpl in H; try discriminate.
  destruct (QueryEngine._applyFilter ds filter) as [rs'| | |] eqn:Hf; simpl in H; try discriminate.
  inversion H; subst rs; clear H.
  destruct Hd as [->|Hd].
  - rewrite Hm in Hx. inversion Hx; subst b. now left.
  - specialize (IH rs' eq_refl d Hd Hm). destruct b; [now right|exact IH].
Qed.

Lemma find_uncached (fuel : nat) (c : string) (query options : jsv) (db : GhostDB.t)
  (col : MemoryEngine.Collection) :
  GhostDB.isInitialized db = true -> GhostDB.cache db = None ->
  MemoryEngine.getCollection c (GhostDB.collections db) = Some col ->
  GhostDB.find fuel c query options db
  = match QueryEngine.execute fuel (GhostDB.queryEngine db) c query options with
    | QueryEngine.Err e => Threw e db
    | QueryEngine.Stuck => Blocked db
    | QueryEngine.Fuel => OutOfFuel
    | QueryEngine.Ok results => Done (VArr results) db
    end.
Proof.
  intros Hi Hc Hcol. unfold GhostDB.find. rewrite Hi, Hc. cbn [negb truthy]. rewrite Hcol.
  destruct (QueryEngine.execute _ _ _ _ _); try reflexivity. now rewrite Hc.
Qed.

Lemma insert_visible
  (fuel fuel' : nat) (now : Z) (freshId c : string) (document : list (string * jsv))
  (db db' : GhostDB.t) (doc : jsv)
  (Hcache : GhostDB.cache db = None)
  (Hnoindex : SMap.get c (GhostDB.indexManager db) = None)
  (Hdone : GhostDB.insert fuel now freshId c document db = Done doc db') :
  (exists rs, GhostDB.find fuel' c (VObj []) (VObj []) db' = Done (VArr rs) db' /\ In doc rs)
  /\ (forall fs rs db'',
        GhostDB.find fuel' c (VObj fs) (VObj []) db' = Done (VArr rs) db'' ->
        QueryEngine._matchesFilter doc (VObj fs) = QueryEngine.Ok true ->
        In doc rs).
Proof.
  destruct (insert_done fuel now freshId c document db db' doc Hdone)
    as (Hdoc & Hinit & Hinit' & (col & Hcol & Hcols) & Hc).
  rewrite Hcache in Hc. simpl in Hc.
  assert (Him : GhostDB.indexManager db' = GhostDB.indexManager db).
  { revert Hdone. rewrite insert_unfold, Hinit, Hcol. cbn [negb].
    destruct (GhostDB._validateDocument _ _); [discriminate|]. cbv zeta.
    rewrite fired_without_index by exact Hnoindex.
    intros H. injection H as _ <-. unfold GhostDB.invalidate. cbn [GhostDB.cache GhostDB.set_collections].
    now rewrite Hcache. }
  assert (Hno : forall field,
             IndexManager.hasIndex c field (QueryEngine.indexes (GhostDB.queryEngine db')) = false).
  { intros field. unfold IndexManager.hasIndex, IndexManager.find_index. simpl.
    now rewrite Him, Hnoindex. }
  set (col1 := MemoryEngine.set_data _ col) in Hcols.
  assert (Hget : MemoryEngine.getCollection c (GhostDB.collections db') = Some col1).
  { rewrite Hcols. unfold MemoryEngine.getCollection. apply smap_get_set_same. }
  assert (Hscan : In doc (MemoryEngine.scan c (QueryEngine.storage (GhostDB.queryEngine db')))).
  { unfold MemoryEngine.scan. simpl. unfold MemoryEngine.getCollection in Hget. rewrite Hget.
    subst col1. simpl. apply jmap_set_values. }
  assert (Hfind : forall fs, GhostDB.find fuel' c (VObj fs) (VObj []) db'
            = match QueryEngine._applyFilter
                      (MemoryEngine.scan c (QueryEngine.storage (GhostDB.queryEngine db')))
                      (VObj fs) with
              | QueryEngine.Err e => Threw e db'
              | QueryEngine.Stuck => Blocked db'
              | QueryEngine.Fuel => OutOfFuel
              | QueryEngine.Ok results => Done (VArr results) db'
              end).
  { intros fs. rewrite (find_uncached fuel' c _ _ db' col1 Hinit' Hc Hget).
    destruct (execute_unindexed fuel' (GhostDB.queryEngine db') c fs Hno)
      as (E & _). rewrite E. reflexivity. }
  split.
  - rewrite Hfind, applyFilter_all. eexists. split; [reflexivity|exact Hscan].
  - intros fs rs db'' Hf Hm. rewrite Hfind in Hf.
    destruct (QueryEngine._applyFilter _ (VObj fs)) as [rs'| | |] eqn:Ha; try discriminate.
    inversion Hf; subst rs' db''.
    exact (applyFilter_complete (VObj fs) _ rs Ha doc Hscan Hm).
Qed.

(** X26.  With the cache off and no index on the collection, a document
    that [insert] returned is visible at once: [find] with the empty filter
    returns a list that holds it, and so does every [find] whose filter the
    document satisfies. *)
Theorem inserted_document_is_found
  (fuel fuel' : nat) (now : Z) (freshId c : string) (document : list (string * jsv))
  (db db' : GhostDB.t) (doc : jsv)
  (Hcache : GhostDB.cache db = None)
  (Hnoindex : SMap.get c (GhostDB.indexManager db) = None)
  (Hdone : GhostDB.insert fuel now freshId c document db = Done doc db') :
  (exists rs, GhostDB.find fuel' c (VObj []) (VObj []) db' = Done (VArr rs) db' /\ In doc rs)
  /\ (forall fs rs db'',
        GhostDB.find fuel' c (VObj fs) (VObj []) db' = Done (VArr rs) db'' ->
        QueryEngine._matchesFilter doc (VObj fs) = QueryEngine.Ok true ->
        In doc rs).
Proof.
  exact (insert_visible fuel fuel' now freshId c document db db' doc Hcache Hnoindex Hdone).
Qed.

End VisibilityFacts.

Section VisibilityWitness.
Import JS.

Lemma inserted_document_is_found_witness :
  (exists rs,
      GhostDB.find 10 "C" (VObj []) (VObj [])
        (settled Db.plain_db (GhostDB.insert 10 1000 "id1" "C" [("x", VNum 1)] Db.plain_db))
      = Done (VArr rs)
          (settled Db.plain_db (GhostDB.insert 10 1000 "id1" "C" [("x", VNum 1)] Db.plain_db))
      /\ In (VObj (Db.stamped 1000 "id1" [("x", VNum 1)])) rs)
  /\ (forall fs rs db'',
        GhostDB.find 10 "C" (VObj fs) (VObj [])
          (settled Db.plain_db (GhostDB.insert 10 1000 "id1" "C" [("x", VNum 1)] Db.plain_db))
        = Done (VArr rs) db'' ->
        QueryEngine._matchesFilter (VObj (Db.stamped 1000 "id1" [("x", VNum 1)])) (VObj fs)
        = QueryEngine.Ok true ->
        In (VObj (Db.stamped 1000 "id1" [("x", VNum 1)])) rs).
Proof.
  apply (inserted_document_is_found 10 10 1000 "id1" "C" [("x", VNum 1)] Db.plain_db);
    [reflexivity | reflexivity | vm_compute; reflexivity].
Defined.

End VisibilityWitness.

(** ** Transactions *)

Section TransactionFacts.
Context {W : Type}.
Import TransactionManager.

Lemma lookup_store_eq (id : Z) (tx : Transaction.t W) (os : list (Z * Transaction.t W)) :
  lookup id (store id tx os) = Some tx.
Proof.
  induction os as [|[i old] os IH]; simpl; [now rewrite Z.eqb_refl|].
  destruct (i =? id) eqn:E; simpl; rewrite E; [reflexivity|exact IH].
Qed.

Lemma lookup_store_ne (id id' : Z) (tx : Transaction.t W) (os : list (Z * Transaction.t W)) :
  id' <> id -> lookup id' (store id tx os) = lookup id' os.
Proof.
  intros Hne. induction os as [|[i old] os IH]; simpl.
  - destruct (id =? id') eqn:E; [apply Z.eqb_eq in E; congruence|reflexivity].
  - destruct (i =? id) eqn:E; simpl.
    + apply Z.eqb_eq in E. subst i.
      destruct (id =? id') eqn:E'; [apply Z.eqb_eq in E'; congruence|reflexivity].
    + destruct (i =? id'); [reflexivity|exact IH].
Qed.

Lemma store_In (id : Z) (tx : Transaction.t W) (os : list (Z * Transaction.t W)) (i : Z) (x : Transaction.t W) :
  In (i, x) (store id tx os) -> i = id \/ In (i, x) os.
Proof.
  induction os as [|[j old] os IH]; simpl.
  - intros [H|[]]. inversion H. now left.
  - destruct (j =? id) eqn:E.
    + apply Z.eqb_eq in E. subst j. intros [H|H]; [inversion H; now left|right; now right].
    + intros [H|H]; [right; now left|]. destruct (IH H); [now left|right; now right].
Qed.

Lemma registered_false (id : Z) (l : list Z) :
  (forall i, In i l -> i < id) -> existsb (Z.eqb id) l = false.
Proof.
  intros H. induction l as [|x l IH]; simpl; [reflexivity|].
  rewrite IH by (intros i Hi; apply H; now right).
  pose proof (H x (or_introl eq_refl)).
  replace (id =? x) with false by (symmetry; apply Z.eqb_neq; lia). reflexivity.
Qed.

Lemma existsb_snoc (id id' : Z) (l : list Z) :
  existsb (Z.eqb id') (l ++ [id]) = existsb (Z.eqb id') l || (id' =? id).
Proof. rewrite existsb_app. simpl. now rewrite orb_false_r. Qed.

Lemma existsb_filter_out (id id' : Z) (l : list Z) :
  existsb (Z.eqb id') (List.filter (fun i => negb (i =? id)) l)
  = existsb (Z.eqb id') l && negb (id' =? id).
Proof.
  induction l as [|x l IH]; simpl; [reflexivity|].
  destruct (x =? id) eqn:E; simpl.
  - apply Z.eqb_eq in E. subst x. rewrite IH.
    destruct (id' =? id) eqn:E'; simpl; [now rewrite andb_false_r|reflexivity].
  - rewrite IH. destruct (id' =? x) eqn:E'; simpl; [|reflexivity].
    apply Z.eqb_eq in E'. subst x. now rewrite E.
Qed.

Lemma begin_spec (m : TransactionManager.t W) :
  fresh m ->
  fst (begin m) = nextId m
  /\ getTransaction (nextId m) (snd (begin m)) = Some (Transaction.new (nextId m))
  /\ (forall id', id' <> nextId m ->
        getTransaction id' (snd (begin m)) = getTransaction id' m
        /\ handle id' (snd (begin m)) = handle id' m)
  /\ fresh (snd (begin m))
  /\ fst (begin (snd (begin m))) = nextId m + 1.
Proof.
  intros [Ho Hr]. unfold begin, getTransaction, handle, is_registered. simpl.
  rewrite (registered_false (nextId m) (registered m) Hr). simpl.
  split; [reflexivity|]. split; [|split; [|split; [|reflexivity]]].
  - rewrite existsb_snoc, Z.eqb_refl, orb_true_r. apply lookup_store_eq.
  - intros id' Hne. rewrite existsb_snoc.
    replace (id' =? nextId m) with false by (symmetry; now apply Z.eqb_neq).
    rewrite orb_false_r, lookup_store_ne by exact Hne. now split.
  - split; simpl.
    + intros id tx Hin. apply store_In in Hin as [->|Hin]; [lia|].
      pose proof (Ho id tx Hin). lia.
    + intros id Hin. apply in_app_iff in Hin as [Hin|[<-|[]]]; [|lia].
      pose proof (Hr id Hin). lia.
Qed.

(** X27.  [begin()] hands out a fresh id each time: the transaction it
    returns is registered under the id, active and without operations; the
    transactions begun before are untouched; and the next [begin()] returns
    the next id. *)
Theorem begin_registers_a_fresh_transaction (m : TransactionManager.t W) (Hfresh : fresh m) :
  fst (begin m) = nextId m
  /\ getTransaction (nextId m) (snd (begin m)) = Some (Transaction.new (nextId m))
  /\ (forall id', id' <> nextId m ->
        getTransaction id' (snd (begin m)) = getTransaction id' m
        /\ handle id' (snd (begin m)) = handle id' m)
  /\ fresh (snd (begin m))
  /\ fst (begin (snd (begin m))) = nextId m + 1.
Proof. exact (begin_spec m Hfresh). Qed.

Lemma for_each_app {S A} (f : A -> S -> run S unit) (xs ys : list A) (s : S) :
  HashIndex.for_each f (xs ++ ys) s
  = rbind (HashIndex.for_each f xs s) (fun _ s1 => HashIndex.for_each f ys s1).
Proof.
  revert s. induction xs as [|x xs IH]; intros s; simpl; [reflexivity|].
  destruct (f x s) as [[] s1|e s1|s1|]; simpl; [apply IH|reflexivity..].
Qed.

Lemma getTransaction_handle (id : Z) (m : TransactionManager.t W) (tx : Transaction.t W) :
  getTransaction id m = Some tx -> handle id m = Some tx /\ is_registered id m = true.
Proof.
  unfold getTransaction, handle. destruct (is_registered id m); [|discriminate].
  intros H. now split.
Qed.

Lemma commit_success
  (id : Z) (m : TransactionManager.t W) (w w' : W) (tx : Transaction.t W)
  (Hreg : getTransaction id m = Some tx)
  (Hactive : Transaction.is_active tx = true)
  (Hrun : HashIndex.for_each (fun op w => op w) (Transaction.operations tx) w = Done tt w') :
  exists m',
    commit id m w = Done tt (m', w')
    /\ getTransaction id m' = None
    /\ handle id m' = Some (Transaction.set_status Transaction.Committed tx)
    /\ (forall w2, commit id m' w2 = Threw (not_found id) (m', w2))
    /\ rollback id m' = Threw (not_found id) m'
    /\ (forall op, addOperation id op m' = Threw (Transaction.not_active tx) m').
Proof.
  set (tx' := Transaction.set_status Transaction.Committed tx).
  exists (unregister id (put id m tx')).
  assert (Hgone : getTransaction id (unregister id (put id m tx')) = None).
  { unfold getTransaction, is_registered, unregister, put. simpl.
    now rewrite existsb_filter_out, Z.eqb_refl, andb_false_r. }
  assert (Hh : handle id (unregister id (put id m tx')) = Some tx').
  { unfold handle, unregister, put. simpl. apply lookup_store_eq. }
  split; [|split; [exact Hgone|split; [exact Hh|split; [|split]]]].
  - unfold commit. rewrite Hreg. unfold Transaction.commit. now rewrite Hactive, Hrun.
  - intros w2. unfold commit. now rewrite Hgone.
  - unfold rollback. now rewrite Hgone.
  - intros op. unfold addOperation. rewrite Hh. simpl.
    unfold put, unregister. simpl. f_equal.
    destruct m as [os rs n]. simpl. f_equal.
    clear. induction os as [|[i old] os IH]; simpl; [now rewrite Z.eqb_refl|].
    destruct (i =? id) eqn:E; simpl; rewrite E; [reflexivity|]. now rewrite IH.
Qed.

(** X28.  A commit whose operations all return runs them in order, marks
    the transaction committed and removes it from the manager: a second
    [commit] or a [rollback] of the same id throws not-found, and the
    handle the caller kept accepts no further operation. *)
Theorem commit_runs_operations_and_retires_the_transaction
  (id : Z) (m : TransactionManager.t W) (w w' : W) (tx : Transaction.t W)
  (Hreg : getTransaction id m = Some tx)
  (Hactive : Transaction.is_active tx = true)
  (Hrun : HashIndex.for_each (fun op w => op w) (Transaction.operations tx) w = Done tt w') :
  exists m',
    commit id m w = Done tt (m', w')
    /\ getTransaction id m' = None
    /\ handle id m' = Some (Transaction.set_status Transaction.Committed tx)
    /\ (forall w2, commit id m' w2 = Threw (not_found id) (m', w2))
    /\ rollback id m' = Threw (not_found id) m'
    /\ (forall op, addOperation id op m' = Threw (Transaction.not_active tx) m').
Proof. exact (commit_success id m w w' tx Hreg Hactive Hrun). Qed.

Lemma put_put (id : Z) (m : TransactionManager.t W) (a b : Transaction.t W) : put id (put id m a) b = put id m b.
Proof.
  unfold put. simpl. f_equal. destruct m as [os rs n]. simpl.
  induction os as [|[i old] os IH]; simpl; [now rewrite Z.eqb_refl|].
  destruct (i =? id) eqn:E; simpl; rewrite E; [reflexivity|]. now rewrite IH.
Qed.

Lemma commit_failure
  (id : Z) (m : TransactionManager.t W) (w w1 w2 : W) (tx : Transaction.t W) (e : string)
  (pre post : list (W -> run W unit)) (bad : W -> run W unit)
  (Hreg : getTransaction id m = Some tx)
  (Hactive : Transaction.is_active tx = true)
  (Hops : Transaction.operations tx = pre ++ bad :: post)
  (Hpre : HashIndex.for_each (fun op w => op w) pre w = Done tt w1)
  (Hbad : bad w1 = Threw e w2) :
  exists m',
    commit id m w = Threw e (m', w2)
    /\ getTransaction id m' = Some (Transaction.set_status Transaction.Aborted tx)
    /\ (forall w3, commit id m' w3 = Threw (Transaction.not_active tx) (m', w3))
    /\ rollback id m' = Threw (Transaction.not_active tx) m'.
Proof.
  set (tx' := Transaction.set_status Transaction.Aborted tx).
  destruct (getTransaction_handle id m tx Hreg) as [Hh Hr].
  exists (put id m tx').
  assert (Hget : getTransaction id (put id m tx') = Some tx').
  { unfold getTransaction. change (is_registered id (put id m tx')) with (is_registered id m).
    rewrite Hr. unfold put; simpl. apply lookup_store_eq. }
  assert (Hsame : put id (put id m tx') tx' = put id m tx') by apply put_put.
  split; [|split; [exact Hget|split]].
  - unfold commit. rewrite Hreg. unfold Transaction.commit, Transaction.rollback.
    rewrite Hactive, Hops, for_each_app, Hpre. simpl. now rewrite Hbad.
  - intros w3. unfold commit. rewrite Hget. unfold Transaction.commit. simpl.
    now rewrite Hsame.
  - unfold rollback. rewrite Hget. unfold Transaction.rollback. simpl. now rewrite Hsame.
Qed.

(** X29.  A commit in which an operation throws undoes nothing.  The
    operations before the failing one have run and their effects stay, as
    does whatever the failing one did before it threw; the operations after
    it do not run.  The error is thrown on, the transaction is marked
    aborted and stays registered: every later [commit] or [rollback] of its
    id throws not-active. *)
Theorem failed_commit_keeps_partial_effects
  (id : Z) (m : TransactionManager.t W) (w w1 w2 : W) (tx : Transaction.t W) (e : string)
  (pre post : list (W -> run W unit)) (bad : W -> run W unit)
  (Hreg : getTransaction id m = Some tx)
  (Hactive : Transaction.is_active tx = true)
  (Hops : Transaction.operations tx = pre ++ bad :: post)
  (Hpre : HashIndex.for_each (fun op w => op w) pre w = Done tt w1)
  (Hbad : bad w1 = Threw e w2) :
  exists m',
    commit id m w = Threw e (m', w2)
    /\ getTransaction id m' = Some (Transaction.set_status Transaction.Aborted tx)
    /\ (forall w3, commit id m' w3 = Threw (Transaction.not_active tx) (m', w3))
    /\ rollback id m' = Threw (Transaction.not_active tx) m'.
Proof. exact (commit_failure id m w w1 w2 tx e pre post bad Hreg Hactive Hops Hpre Hbad). Qed.

End TransactionFacts.

Section TransactionRuns.

Lemma new_manager_fresh : TransactionManager.fresh (TransactionManager.new (W := Z)).
Proof. split; intros ?; simpl; try intros ?; contradiction. Qed.

Lemma begin_registers_a_fresh_transaction_witness :
  fst (TransactionManager.begin (TransactionManager.new (W := Z)))
  = TransactionManager.nextId (TransactionManager.new (W := Z))
  /\ TransactionManager.getTransaction (TransactionManager.nextId (TransactionManager.new (W := Z)))
       (snd (TransactionManager.begin (TransactionManager.new (W := Z))))
     = Some (Transaction.new (TransactionManager.nextId (TransactionManager.new (W := Z))))
  /\ (forall id', id' <> TransactionManager.nextId (TransactionManager.new (W := Z)) ->
        TransactionManager.getTransaction id'
          (snd (TransactionManager.begin (TransactionManager.new (W := Z))))
        = TransactionManager.getTransaction id' (TransactionManager.new (W := Z))
        /\ TransactionManager.handle id'
             (snd (TransactionManager.begin (TransactionManager.new (W := Z))))
           = TransactionManager.handle id' (TransactionManager.new (W := Z)))
  /\ TransactionManager.fresh (snd (TransactionManager.begin (TransactionManager.new (W := Z))))
  /\ fst (TransactionManager.begin
            (snd (TransactionManager.begin (TransactionManager.new (W := Z)))))
     = TransactionManager.nextId (TransactionManager.new (W := Z)) + 1.
Proof.
  exact (begin_registers_a_fresh_transaction (TransactionManager.new (W := Z)) new_manager_fresh).
Defined.

Lemma commit_runs_operations_and_retires_the_transaction_witness :
  exists m',
    TransactionManager.commit 1 (Ledger.manager_with [Ledger.bump; Ledger.bump]) 0
    = Done tt (m', 2)
    /\ TransactionManager.getTransaction 1 m' = None
    /\ TransactionManager.handle 1 m'
       = Some (Transaction.set_status Transaction.Committed
                 (Transaction.mk 1 [Ledger.bump; Ledger.bump] Transaction.Active))
    /\ (forall w2, TransactionManager.commit 1 m' w2
                   = Threw (TransactionManager.not_found 1) (m', w2))
    /\ TransactionManager.rollback 1 m' = Threw (TransactionManager.not_found 1) m'
    /\ (forall op, TransactionManager.addOperation 1 op m'
                   = Threw (Transaction.not_active
                              (Transaction.mk 1 [Ledger.bump; Ledger.bump] Transaction.Active)) m').
Proof.
  apply (commit_runs_operations_and_retires_the_transaction 1
           (Ledger.manager_with [Ledger.bump; Ledger.bump]) 0 2
           (Transaction.mk 1 [Ledger.bump; Ledger.bump] Transaction.Active));
    reflexivity.
Defined.

Lemma failed_commit_keeps_partial_effects_witness :
  exists m',
    TransactionManager.commit 1 (Ledger.manager_with [Ledger.bump; Ledger.boom; Ledger.bump]) 0
    = Threw "boom" (m', 11)
    /\ TransactionManager.getTransaction 1 m'
       = Some (Transaction.set_status Transaction.Aborted
                 (Transaction.mk 1 [Ledger.bump; Ledger.boom; Ledger.bump] Transaction.Active))
    /\ (forall w3, TransactionManager.commit 1 m' w3
                   = Threw (Transaction.not_active
                              (Transaction.mk 1 [Ledger.bump; Ledger.boom; Ledger.bump]
                                 Transaction.Active)) (m', w3))
    /\ TransactionManager.rollback 1 m'
       = Threw (Transaction.not_active
                  (Transaction.mk 1 [Ledger.bump; Ledger.boom; Ledger.bump] Transaction.Active)) m'.
Proof.
  apply (failed_commit_keeps_partial_effects 1
           (Ledger.manager_with [Ledger.bump; Ledger.boom; Ledger.bump]) 0 1 11
           (Transaction.mk 1 [Ledger.bump; Ledger.boom; Ledger.bump] Transaction.Active)
           "boom" [Ledger.bump] [Ledger.bump] Ledger.boom);
    reflexivity.
Defined.

End TransactionRuns.
